(** * subwayfinder: the MBTA station-resolution service

    A shallow embedding of [src/services/mbtaApi.js] and the properties its
    specification states about it: the route classifier [getLineInfo], the
    retrying fetcher [makeApiCall], the route cache [getRoutesData], the
    distance calculator [calculateDistance] and the resolver
    [fetchNearbyStations].

    Conventions of the embedding.
    - JavaScript numbers are modelled by [number]: a rational or [NaN].
      Every finite double is a rational; comparison and the sign of a
      difference agree with the rational order.
    - The haversine formula needs sine, cosine and arctangent: it is read
      over the real numbers ([calculateDistance]). The resolver takes the
      distance function of the machine as a parameter; what it does with
      distances (compare, sort, keep the smaller) holds for any values.
    - Strings are [string]; [toLowerCase] and [trim] act on the ASCII range.
    - The resources of the JSON:API envelope are typed by endpoint: a stop
      always carries its attributes and a string name, its latitude,
      longitude and wheelchair_boarding may be missing, null or a number; a
      route may lack its attributes or either of its names.
    - Asynchronous code is sequential code over an explicit [State] (route
      cache, clock, effect trace) that may return or throw; the server is
      a [World] that says what each request receives. *)

From Stdlib Require Import String Ascii List Bool Arith ZArith QArith Qabs Lia.
From Stdlib Require Import DecimalString.
From Stdlib Require Import DecimalN.
From Stdlib Require Import Sorted.
From Stdlib Require Import Reals Machin Qreals Lra.
Import ListNotations.

Open Scope string_scope.

(** ** JavaScript primitives *)

(** [String.prototype.includes]: [sub] occurs somewhere in [s]. *)
Fixpoint includes (s sub : string) : bool :=
  if String.prefix sub s then true
  else match s with
       | EmptyString => false
       | String _ rest => includes rest sub
       end.

Definition lower_ascii (c : ascii) : ascii :=
  let n := nat_of_ascii c in
  if ((65 <=? n) && (n <=? 90))%nat then ascii_of_nat (n + 32) else c.

(** [String.prototype.toLowerCase] on the ASCII range. *)
Fixpoint toLowerCase (s : string) : string :=
  match s with
  | EmptyString => EmptyString
  | String c rest => String (lower_ascii c) (toLowerCase rest)
  end.

(** White space of the ASCII range: TAB, LF, VT, FF, CR and SPACE. *)
Definition is_space (c : ascii) : bool :=
  let n := nat_of_ascii c in
  ((9 <=? n) && (n <=? 13) || (n =? 32))%nat.

Fixpoint trimStart (s : string) : string :=
  match s with
  | EmptyString => EmptyString
  | String c rest => if is_space c then trimStart rest else s
  end.

Fixpoint trimEnd (s : string) : string :=
  match s with
  | EmptyString => EmptyString
  | String c rest =>
      match trimEnd rest with
      | EmptyString => if is_space c then EmptyString else String c EmptyString
      | kept => String c kept
      end
  end.

(** [String.prototype.trim]. *)
Definition trim (s : string) : string := trimEnd (trimStart s).

(** A string operand of [||]: absent and empty strings are falsy. *)
Definition truthy_string (o : option string) : bool :=
  match o with
  | Some s => negb (s =? EmptyString)
  | None => false
  end.

(** [a || b] on optional strings. *)
Definition or_else (a b : option string) : option string :=
  if truthy_string a then a else b.

(** A JavaScript number: a (finite) value or NaN. *)
Inductive number : Type :=
| NaN : number
| Num (q : Q) : number.

(** [a <= b]; false as soon as one side is NaN. *)
Definition num_leb (a b : number) : bool :=
  match a, b with
  | Num x, Num y => Qle_bool x y
  | _, _ => false
  end.

(** [a < b]. *)
Definition num_ltb (a b : number) : bool :=
  match a, b with
  | Num x, Num y => negb (Qle_bool y x)
  | _, _ => false
  end.

(** [a - b]. *)
Definition num_sub (a b : number) : number :=
  match a, b with
  | Num x, Num y => Num (x - y)
  | _, _ => NaN
  end.

(** A numeric attribute of a JSON record as the code reads it: the member is
    absent ([undefined]), [null], or a number. *)
Inductive Attr : Type :=
| Missing : Attr
| Null : Attr
| Number (q : Q) : Attr.

(** Truthiness of such a value: a number other than 0. *)
Definition truthy (a : Attr) : bool :=
  match a with
  | Number q => negb (Qeq_bool q 0)
  | _ => false
  end.

(** [a === 1]. *)
Definition strict_eq_1 (a : Attr) : bool :=
  match a with
  | Number q => Qeq_bool q 1
  | _ => false
  end.

(** ToNumber, as arithmetic applies it to an operand. *)
Definition toNumber (a : Attr) : number :=
  match a with
  | Missing => NaN
  | Null => Num 0
  | Number q => Num q
  end.

Definition string_of_N (n : N) : string := NilZero.string_of_uint (N.to_uint n).

Fixpoint zeros (k : nat) : string :=
  match k with
  | O => EmptyString
  | S k' => String "0" (zeros k')
  end.

(** Left-pad with zeros up to [width] characters. *)
Definition pad_zeros (width : nat) (s : string) : string :=
  zeros (width - String.length s) ++ s.

(** [Number.prototype.toFixed(digits)] on a rational (values below 1e21):
    sign, then the nearest integer [n] to [|x| * 10^digits], the larger one
    on a tie, printed with [digits] decimals. *)
Definition toFixed (digits : nat) (x : Q) : string :=
  let scale := (10 ^ Z.of_nat digits)%Z in
  let den := Z.pos (Qden x) in
  let n := ((2 * Z.abs (Qnum x) * scale + den) / (2 * den))%Z in
  let int_part := string_of_N (Z.to_N (n / scale)) in
  let frac_part := pad_zeros digits (string_of_N (Z.to_N (n mod scale))) in
  let sign := if (Qnum x <? 0)%Z then "-" else EmptyString in
  match digits with
  | O => sign ++ int_part
  | _ => sign ++ int_part ++ "." ++ frac_part
  end.

(** A [Map]: string keys, insertion order kept, [set] on a present key
    replaces the value where it stands. *)
Module JsMap.

Definition t (V : Type) : Type := list (string * V).

Definition empty {V : Type} : t V := [].

Fixpoint get {V : Type} (m : t V) (k : string) : option V :=
  match m with
  | [] => None
  | (k', v) :: rest => if k' =? k then Some v else get rest k
  end.

Definition has {V : Type} (m : t V) (k : string) : bool :=
  match get m k with
  | Some _ => true
  | None => false
  end.

Fixpoint set {V : Type} (m : t V) (k : string) (v : V) : t V :=
  match m with
  | [] => [(k, v)]
  | (k', v') :: rest =>
      if k' =? k then (k, v) :: rest else (k', v') :: set rest k v
  end.

Definition values {V : Type} (m : t V) : list V := map snd m.

Definition keys {V : Type} (m : t V) : list string := map fst m.

End JsMap.

(** ** Data model *)

Definition MBTA_BASE_URL : string := "https://api-v3.mbta.com".

(** The display attributes of a line. *)
Record Line : Type := mkLine { emoji : string; color : string }.

(** [MBTA_LINES], the table of lines by key. *)
Definition MBTA_LINES_table : list (string * Line) :=
  [ ("Red", mkLine "🔴" "#DA291C");
    ("Orange", mkLine "🟠" "#ED8B00");
    ("Blue", mkLine "🔵" "#003DA5");
    ("Green-B", mkLine "B🟢" "#00843D");
    ("Green-C", mkLine "C🟢" "#00843D");
    ("Green-D", mkLine "D🟢" "#00843D");
    ("Green-E", mkLine "E🟢" "#00843D");
    ("Mattapan", mkLine "M🔴" "#FFC72C") ].

(** [MBTA_LINES[key]]; [None] stands for [undefined]. *)
Definition MBTA_LINES (key : string) : option Line :=
  JsMap.get MBTA_LINES_table key.

(** A resource of the JSON:API envelope: [{ id, attributes }]. *)
Record Resource (A : Type) : Type := mkResource { id : string; attributes : A }.
Arguments mkResource {A} _ _.
Arguments id {A} _.
Arguments attributes {A} _.

Record RouteAttributes : Type := mkRouteAttributes {
  long_name : option string;
  short_name : option string
}.

(** A route record; its [attributes] member may be absent. *)
Definition Route : Type := Resource (option RouteAttributes).

Record StopAttributes : Type := mkStopAttributes {
  name : string;
  latitude : Attr;
  longitude : Attr;
  wheelchair_boarding : Attr
}.

Definition Stop : Type := Resource StopAttributes.

(** A response body [{ data: [...] }]; the [data] member may be absent. *)
Record Body (A : Type) : Type := mkBody { data : option (list A) }.
Arguments mkBody {A} _.
Arguments data {A} _.

(** The object built for a classified route: [{ id, name, ...lineInfo }]. *)
Module RouteInfo.
Record t : Type := make {
  id : string;
  name : option string;
  emoji : string;
  color : string
}.
End RouteInfo.

Module StationGroup.
Record t : Type := make {
  stops : list Stop;
  name : string;
  latitude : Attr;
  longitude : Attr;
  wheelchair_accessible : bool
}.
End StationGroup.

Module Station.
Record t : Type := make {
  id : string;
  name : string;
  latitude : Attr;
  longitude : Attr;
  distance : number;
  wheelchair_accessible : bool;
  routes : list RouteInfo.t;
  hasRouteData : bool
}.
End Station.

(** ** Route classifier *)

(** [getLineInfo(route)]; the argument is [None] for a null route. *)
Definition getLineInfo (route : option Route) : option Line :=
  match route with
  | None => None
  | Some route =>
      match attributes route with
      | None => None
      | Some attrs =>
          let routeName :=
            match or_else (or_else (long_name attrs) (short_name attrs)) (Some EmptyString) with
            | Some s => s
            | None => EmptyString
            end in
          let routeId := id route in
          if includes routeName "Red" || includes routeId "Red" then
            MBTA_LINES "Red"
          else if includes routeName "Orange" || includes routeId "Orange" then
            MBTA_LINES "Orange"
          else if includes routeName "Blue" || includes routeId "Blue" then
            MBTA_LINES "Blue"
          else if includes routeName "Green" && includes routeName "B" then
            MBTA_LINES "Green-B"
          else if includes routeName "Green" && includes routeName "C" then
            MBTA_LINES "Green-C"
          else if includes routeName "Green" && includes routeName "D" then
            MBTA_LINES "Green-D"
          else if includes routeName "Green" && includes routeName "E" then
            MBTA_LINES "Green-E"
          else if includes routeName "Mattapan" || includes routeId "Mattapan" then
            MBTA_LINES "Mattapan"
          else if includes routeName "Green" || includes routeId "Green" then
            MBTA_LINES "Green-B"
          else None
      end
  end.

(** The object pushed for a route that classifies:
    [{ id: route.id, name: long_name || short_name, ...lineInfo }]. *)
Definition routeInfoOf (route : Route) (lineInfo : Line) : RouteInfo.t :=
  RouteInfo.make
    (id route)
    (match attributes route with
     | Some attrs => or_else (long_name attrs) (short_name attrs)
     | None => None
     end)
    (emoji lineInfo)
    (color lineInfo).

(** The classified routes of a route list, unclassified ones dropped. *)
Fixpoint classifyRoutes (routes : list Route) : list RouteInfo.t :=
  match routes with
  | [] => []
  | route :: rest =>
      match getLineInfo (Some route) with
      | Some lineInfo => routeInfoOf route lineInfo :: classifyRoutes rest
      | None => classifyRoutes rest
      end
  end.

(** [routeLineMap]: route id to classified route, for the fetched routes. *)
Definition buildRouteLineMap (routesData : Body Route) : JsMap.t RouteInfo.t :=
  match data routesData with
  | Some routes =>
      fold_left (fun m info => JsMap.set m (RouteInfo.id info) info)
                (classifyRoutes routes) JsMap.empty
  | None => JsMap.empty
  end.

(** ** Effects: the network, timers, the clock and the route cache *)

(** What a thrown value can be. *)
Inductive Error : Type :=
| NetworkFailure (message : string)   (* fetch rejected *)
| HttpError (status : Z)              (* "HTTP error! status: ..." *)
| ParseFailure                        (* response.json() rejected *)
| TypeError (message : string)        (* a member read on undefined *)
| NoStationData.                      (* "No station data received" *)

(** How one [fetch(url)] ends: it rejects, or it resolves to a response with
    a status and a body that [response.json()] parses ([Some]) or not. *)
Inductive FetchOutcome (A : Type) : Type :=
| Rejected (message : string)
| Response (status : Z) (json : option A).
Arguments Rejected {A} _.
Arguments Response {A} _ _.

(** [response.ok]. *)
Definition ok (status : Z) : bool := ((200 <=? status) && (status <=? 299))%Z.

(** The server: what the n-th request of the run receives, per endpoint. *)
Record World : Type := mkWorld {
  routes_endpoint : nat -> FetchOutcome (Body Route);
  stops_endpoint : nat -> FetchOutcome (Body Stop);
  stop_routes_endpoint : string -> nat -> FetchOutcome (Body Route)
}.

(** The observable effects, in the order they happen. *)
Inductive Event : Type :=
| Fetched (url : string)
| Delayed (ms : Z).

Definition CACHE_DURATION : Z := 5 * 60 * 1000.

(** The module state: the two cache variables, the clock read by
    [Date.now()], the number of requests issued and the effect trace. *)
Record State : Type := mkState {
  routesCache : option (Body Route);
  routesCacheTimestamp : Z;
  now : Z;
  requests : nat;
  trace : list Event
}.

(** The state when the module is loaded at time [t]. *)
Definition initial_state (t : Z) : State := mkState None 0 t 0 [].

Inductive Result (A : Type) : Type :=
| Returned (value : A)
| Thrown (error : Error).
Arguments Returned {A} _.
Arguments Thrown {A} _.

(** A computation: from a state to a result and the state it leaves. *)
Definition M (A : Type) : Type := State -> Result A * State.

Definition ret {A : Type} (a : A) : M A := fun st => (Returned a, st).

Definition throw {A : Type} (e : Error) : M A := fun st => (Thrown e, st).

Definition bind {A B : Type} (c : M A) (k : A -> M B) : M B :=
  fun st =>
    match c st with
    | (Returned a, st') => k a st'
    | (Thrown e, st') => (Thrown e, st')
    end.

(** [try { c } catch (error) { handler }]. *)
Definition try_catch {A : Type} (c : M A) (handler : Error -> M A) : M A :=
  fun st =>
    match c st with
    | (Returned a, st') => (Returned a, st')
    | (Thrown e, st') => handler e st'
    end.

(** A pure step that may throw. *)
Definition lift {A : Type} (r : Result A) : M A := fun st => (r, st).

Declare Scope js_scope.
Delimit Scope js_scope with js.
Notation "x <- c ;; k" := (bind c (fun x => k))
  (at level 61, c at next level, right associativity) : js_scope.
Notation "c ;; k" := (bind c (fun _ => k))
  (at level 61, right associativity) : js_scope.
Open Scope js_scope.

(** The state after a timer of [ms] milliseconds has run. *)
Definition after_delay (ms : Z) (st : State) : State :=
  mkState (routesCache st) (routesCacheTimestamp st) (now st + ms)
          (requests st) (trace st ++ [Delayed ms]).

(** [await delay(ms)]: the timer runs, the clock moves on. *)
Definition delay (ms : Z) : M unit :=
  fun st => (Returned tt, after_delay ms st).

(** The state after one more request, to [url], has been issued. *)
Definition after_fetch (url : string) (st : State) : State :=
  mkState (routesCache st) (routesCacheTimestamp st) (now st)
          (S (requests st)) (trace st ++ [Fetched url]).

(** [await fetch(url)] against an endpoint of the server: the request
    receives what the server answers to the n-th request of the run. *)
Definition fetch {A : Type} (endpoint : nat -> FetchOutcome A) (url : string)
  : M (FetchOutcome A) :=
  fun st => (Returned (endpoint (requests st)), after_fetch url st).

(** [Date.now()]. *)
Definition Date_now : M Z := fun st => (Returned (now st), st).

(** ** Retrying fetcher *)

(** How one pass through the loop body ends. *)
Inductive Attempt (A : Type) : Type :=
| Done (data : A)    (* return data *)
| Retry.             (* go on with the next attempt *)
Arguments Done {A} _.
Arguments Retry {A}.

(** The [try] block of [makeApiCall]. *)
Definition attempt_try {A : Type} (endpoint : nat -> FetchOutcome A)
  (url : string) (attempt : nat) : M (Attempt A) :=
  response <- fetch endpoint url ;;
  match response with
  | Rejected message => throw (NetworkFailure message)
  | Response status json =>
      if (status =? 429)%Z then
        let waitTime := (2 ^ Z.of_nat attempt * 1000)%Z in
        delay waitTime ;;
        ret Retry
      else if negb (ok status) then
        throw (HttpError status)
      else
        match json with
        | None => throw ParseFailure
        | Some data => ret (Done data)
        end
  end.

(** The [catch] block of [makeApiCall]. *)
Definition attempt_catch {A : Type} (maxRetries attempt : nat) (error : Error)
  : M (Attempt A) :=
  if (attempt =? maxRetries)%nat then throw error
  else
    let waitTime := (2 ^ Z.of_nat attempt * 1000)%Z in
    delay waitTime ;;
    ret Retry.

(** The [for] loop from [attempt] on, [remaining] passes being left
    ([remaining = maxRetries + 1 - attempt]); leaving the loop returns
    [undefined], here [None]. *)
Fixpoint makeApiCall_loop {A : Type} (endpoint : nat -> FetchOutcome A)
  (url : string) (maxRetries remaining attempt : nat) : M (option A) :=
  match remaining with
  | O => ret None
  | S remaining' =>
      r <- try_catch (attempt_try endpoint url attempt)
                     (attempt_catch maxRetries attempt) ;;
      match r with
      | Done data => ret (Some data)
      | Retry => makeApiCall_loop endpoint url maxRetries remaining' (S attempt)
      end
  end.

(** [makeApiCall(url, maxRetries)]. *)
Definition makeApiCall {A : Type} (endpoint : nat -> FetchOutcome A)
  (url : string) (maxRetries : nat) : M (option A) :=
  makeApiCall_loop endpoint url maxRetries maxRetries 1.

(** ** Route cache *)

(** The state after [routesCache = routesData; routesCacheTimestamp = timestamp]. *)
Definition with_routesCache (routesData : option (Body Route)) (timestamp : Z)
  (st : State) : State :=
  mkState routesData timestamp (now st) (requests st) (trace st).

Definition set_routesCache (routesData : option (Body Route)) (timestamp : Z)
  : M unit :=
  fun st => (Returned tt, with_routesCache routesData timestamp st).

Definition get_routesCache : M (option (Body Route) * Z) :=
  fun st => (Returned (routesCache st, routesCacheTimestamp st), st).

(** The test [routesCache && (now - routesCacheTimestamp) < CACHE_DURATION]:
    the cached list when it holds. *)
Definition cache_hit (cache : option (Body Route) * Z) (now : Z)
  : option (Body Route) :=
  match cache with
  | (Some cached, timestamp) =>
      if (now - timestamp <? CACHE_DURATION)%Z then Some cached else None
  | (None, _) => None
  end.

(** [getRoutesData()]. *)
Definition getRoutesData (w : World) : M (option (Body Route)) :=
  now <- Date_now ;;
  cache <- get_routesCache ;;
  match cache_hit cache now with
  | Some cached => ret (Some cached)
  | None =>
      routesData <- makeApiCall (routes_endpoint w)
                      (MBTA_BASE_URL ++ "/routes?filter[type]=0,1") 2 ;;
      set_routesCache routesData now ;;
      ret routesData
  end.

(** ** Station resolver *)

(** [createStationKey(stop)]; [toFixed] is a method of numbers only, so a
    missing or null coordinate throws. *)
Definition attr_toFixed (digits : nat) (a : Attr) : Result string :=
  match a with
  | Number q => Returned (toFixed digits q)
  | Missing => Thrown (TypeError "Cannot read properties of undefined (reading 'toFixed')")
  | Null => Thrown (TypeError "Cannot read properties of null (reading 'toFixed')")
  end.

Definition createStationKey (stop : Stop) : Result string :=
  match attr_toFixed 6 (latitude (attributes stop)) with
  | Thrown e => Thrown e
  | Returned lat =>
      match attr_toFixed 6 (longitude (attributes stop)) with
      | Thrown e => Thrown e
      | Returned lon =>
          Returned (name (attributes stop) ++ "_" ++ lat ++ "_" ++ lon)
      end
  end.

(** The predicate of the [filter] before grouping:
    [stop.attributes.latitude && stop.attributes.longitude]. *)
Definition has_coordinates (stop : Stop) : bool :=
  truthy (latitude (attributes stop)) && truthy (longitude (attributes stop)).

(** The body of the grouping [forEach], for one stop. *)
Definition addStop (stationGroups : JsMap.t StationGroup.t) (stop : Stop)
  : Result (JsMap.t StationGroup.t) :=
  match createStationKey stop with
  | Thrown e => Thrown e
  | Returned stationKey =>
      let stationGroups' :=
        if negb (JsMap.has stationGroups stationKey) then
          JsMap.set stationGroups stationKey
            (StationGroup.make []
               (name (attributes stop))
               (latitude (attributes stop))
               (longitude (attributes stop))
               (strict_eq_1 (wheelchair_boarding (attributes stop))))
        else stationGroups in
      match JsMap.get stationGroups' stationKey with
      | None => Thrown (TypeError "Cannot read properties of undefined (reading 'stops')")
      | Some g =>
          Returned
            (JsMap.set stationGroups' stationKey
               (StationGroup.make (StationGroup.stops g ++ [stop])
                  (StationGroup.name g) (StationGroup.latitude g)
                  (StationGroup.longitude g)
                  (StationGroup.wheelchair_accessible g)))
      end
  end.

(** The grouping [forEach] over the stops that passed the filter. *)
Fixpoint addStops (stationGroups : JsMap.t StationGroup.t) (stops : list Stop)
  : Result (JsMap.t StationGroup.t) :=
  match stops with
  | [] => Returned stationGroups
  | stop :: rest =>
      match addStop stationGroups stop with
      | Thrown e => Thrown e
      | Returned stationGroups' => addStops stationGroups' rest
      end
  end.

(** [stationGroups] as built from [data.data]. *)
Definition groupStops (stops : list Stop) : Result (JsMap.t StationGroup.t) :=
  addStops JsMap.empty (filter has_coordinates stops).

(** [Array.prototype.sort(comparefn)]: a comparator result that is NaN
    counts as 0; the sort is stable. Modelled by insertion from the right:
    an element goes in front of the first one it does not compare greater
    than. *)
Definition compares_greater (v : number) : bool := num_ltb (Num 0) v.

Fixpoint sort_insert {A : Type} (comparefn : A -> A -> number) (x : A)
  (sorted : list A) : list A :=
  match sorted with
  | [] => [x]
  | y :: rest =>
      if compares_greater (comparefn x y) then y :: sort_insert comparefn x rest
      else x :: y :: rest
  end.

Fixpoint sort {A : Type} (comparefn : A -> A -> number) (l : list A) : list A :=
  match l with
  | [] => []
  | x :: rest => sort_insert comparefn x (sort comparefn rest)
  end.

(** The comparator [(a, b) => a.distance - b.distance], for elements whose
    distance is read by [distanceOf]. *)
Definition by_distance {A : Type} (distanceOf : A -> number) (a b : A) : number :=
  num_sub (distanceOf a) (distanceOf b).

(** [slice(0, n)]. *)
Definition slice0 {A : Type} (n : nat) (l : list A) : list A := firstn n l.

(** The element type of [stationsWithDistance]: [{ stationGroup, distance }]. *)
Record Ranked : Type := mkRanked {
  stationGroup : StationGroup.t;
  distance : number
}.

(** The routes of the [else] branch of the reducer: the routes of
    [station] whose id [existing] lacks are added to those of [existing],
    through a Map keyed by route id. *)
Definition mergeRoutes (existing incoming : list RouteInfo.t) : list RouteInfo.t :=
  let existingRoutes :=
    fold_left (fun m route => JsMap.set m (RouteInfo.id route) route)
              existing JsMap.empty in
  let merged :=
    fold_left (fun m route =>
                 if negb (JsMap.has m (RouteInfo.id route))
                 then JsMap.set m (RouteInfo.id route) route
                 else m)
              incoming existingRoutes in
  JsMap.values merged.

(** The [else] branch of the reducer: [station] merged into
    [existingStation], which keeps its id, name and [hasRouteData]. *)
Definition mergeStation (existingStation station : Station.t) : Station.t :=
  let routes := mergeRoutes (Station.routes existingStation) (Station.routes station) in
  let closer := num_ltb (Station.distance station) (Station.distance existingStation) in
  Station.make
    (Station.id existingStation)
    (Station.name existingStation)
    (if closer then Station.latitude station else Station.latitude existingStation)
    (if closer then Station.longitude station else Station.longitude existingStation)
    (if closer then Station.distance station else Station.distance existingStation)
    (if Station.wheelchair_accessible station then true
     else Station.wheelchair_accessible existingStation)
    routes
    (Station.hasRouteData existingStation).

(** The name under which stations are compared. *)
Definition nameKey (station : Station.t) : string :=
  trim (toLowerCase (Station.name station)).

(** One step of the reducer: [unique.find] takes the first station of the
    same name; it is updated in place, or [station] is pushed. *)
Fixpoint mergeInto (unique : list Station.t) (station : Station.t)
  : list Station.t :=
  match unique with
  | [] => [station]
  | s :: rest =>
      if nameKey s =? nameKey station then mergeStation s station :: rest
      else s :: mergeInto rest station
  end.

(** [finalStations = stationsWithRoutes.reduce(..., [])]. *)
Definition mergeStations (stationsWithRoutes : list Station.t) : list Station.t :=
  fold_left mergeInto stationsWithRoutes [].

(** The routes of a station group: those of its stops, one per route id. *)
Definition groupRoutes (stopRoutesMap : JsMap.t (list RouteInfo.t))
  (stops : list Stop) : list RouteInfo.t :=
  let allRoutes :=
    fold_left
      (fun allRoutes stop =>
         let stopRoutes :=
           match JsMap.get stopRoutesMap (id stop) with
           | Some routes => routes
           | None => []
           end in
         fold_left (fun m route => JsMap.set m (RouteInfo.id route) route)
                   stopRoutes allRoutes)
      stops JsMap.empty in
  JsMap.values allRoutes.

(** The callback of [stationsWithDistance.map]: the station of a group. *)
Definition buildStation (stopRoutesMap : JsMap.t (list RouteInfo.t))
  (stationData : Ranked) : Result Station.t :=
  let stationGroup := stationGroup stationData in
  let distance := distance stationData in
  let hasRouteData :=
    existsb (fun stop => JsMap.has stopRoutesMap (id stop))
            (StationGroup.stops stationGroup) in
  let routes :=
    if hasRouteData then groupRoutes stopRoutesMap (StationGroup.stops stationGroup)
    else [] in
  match StationGroup.stops stationGroup with
  | [] => Thrown (TypeError "Cannot read properties of undefined (reading 'id')")
  | first :: _ =>
      Returned
        (Station.make (id first)
           (StationGroup.name stationGroup)
           (StationGroup.latitude stationGroup)
           (StationGroup.longitude stationGroup)
           distance
           (StationGroup.wheelchair_accessible stationGroup)
           routes
           hasRouteData)
  end.

Fixpoint buildStations (stopRoutesMap : JsMap.t (list RouteInfo.t))
  (stationsWithDistance : list Ranked) : Result (list Station.t) :=
  match stationsWithDistance with
  | [] => Returned []
  | stationData :: rest =>
      match buildStation stopRoutesMap stationData with
      | Thrown e => Thrown e
      | Returned station =>
          match buildStations stopRoutesMap rest with
          | Thrown e => Thrown e
          | Returned stations => Returned (station :: stations)
          end
      end
  end.

(** [allStopIds]: the ids of the stops of the groups, in order. *)
Definition collectStopIds (limitedStations : list Ranked) : list string :=
  flat_map (fun r => map (fun stop => id stop) (StationGroup.stops (stationGroup r)))
           limitedStations.

Definition stopRoutesUrl (stopId : string) : string :=
  MBTA_BASE_URL ++ "/routes?filter[stop]=" ++ stopId ++ "&filter[type]=0,1".

Section Resolver.

(** The server of the run. *)
Variable w : World.

(** The distance function as the machine evaluates it:
    [calculateDistance(lat1, lon1, lat2, lon2)] on numbers. What the
    resolver does with distances does not depend on their values. *)
Variable calcDist : Q -> Q -> Q -> Q -> number.

(** [calculateDistance(latitude, longitude, group.latitude, group.longitude)]
    with the operands coerced as arithmetic does. *)
Definition distanceTo (latitude longitude : Q) (glat glon : Attr) : number :=
  match toNumber glat, toNumber glon with
  | Num lat2, Num lon2 => calcDist latitude longitude lat2 lon2
  | _, _ => NaN
  end.

(** [stationsWithDistance]: map, filter by radius, sort by distance, keep 3. *)
Definition rankStations (latitude longitude : Q) (radius : number)
  (stationGroups : JsMap.t StationGroup.t) : list Ranked :=
  slice0 3
    (sort (by_distance distance)
       (filter (fun station => num_leb (distance station) radius)
          (map (fun g =>
                  mkRanked g
                    (distanceTo latitude longitude
                       (StationGroup.latitude g) (StationGroup.longitude g)))
               (JsMap.values stationGroups)))).

(** The body of the [for] loop over [allStopIds], for one stop id: the
    [try] block and its [catch]. *)
Definition fetchStopRoutes (allStopIds : list string)
  (stopRoutesMap : JsMap.t (list RouteInfo.t)) (stopId : string)
  : M (JsMap.t (list RouteInfo.t)) :=
  try_catch
    ((if match hd_error allStopIds with
          | Some first => negb (stopId =? first)
          | None => true
          end
      then delay 500 else ret tt) ;;
     stopRoutesData <- makeApiCall (stop_routes_endpoint w stopId)
                         (stopRoutesUrl stopId) 2 ;;
     match stopRoutesData with
     | None => throw (TypeError "Cannot read properties of undefined (reading 'data')")
     | Some body =>
         match data body with
         | Some routes => ret (JsMap.set stopRoutesMap stopId (classifyRoutes routes))
         | None => ret (JsMap.set stopRoutesMap stopId [])
         end
     end)
    (fun _ => ret (JsMap.set stopRoutesMap stopId [])).

(** The [for] loop over the stop ids still to do. *)
Fixpoint fetchAllStopRoutes (allStopIds todo : list string)
  (stopRoutesMap : JsMap.t (list RouteInfo.t))
  : M (JsMap.t (list RouteInfo.t)) :=
  match todo with
  | [] => ret stopRoutesMap
  | stopId :: rest =>
      stopRoutesMap' <- fetchStopRoutes allStopIds stopRoutesMap stopId ;;
      fetchAllStopRoutes allStopIds rest stopRoutesMap'
  end.

(** The state in which the request for [stopId] is issued: after the
    500 ms spacing, unless [stopId] is the first id of the list. *)
Definition before_stop_request (allStopIds : list string) (stopId : string)
  (st : State) : State :=
  if match hd_error allStopIds with
     | Some first => negb (stopId =? first)
     | None => true
     end
  then after_delay 500 st else st.

(** The resolver from the fetched stop list on. *)
Definition resolveStations (latitude longitude : Q) (radius : number)
  (stops : list Stop) : M (list Station.t) :=
  stationGroups <- lift (groupStops stops) ;;
  let stationsWithDistance := rankStations latitude longitude radius stationGroups in
  let maxStationsToFetch := 3%nat in
  let limitedStations := slice0 maxStationsToFetch stationsWithDistance in
  let allStopIds := collectStopIds limitedStations in
  stopRoutesMap <- fetchAllStopRoutes allStopIds allStopIds JsMap.empty ;;
  stationsWithRoutes <- lift (buildStations stopRoutesMap stationsWithDistance) ;;
  ret (mergeStations stationsWithRoutes).

(** [fetchNearbyStations(latitude, longitude, radius)]. *)
Definition fetchNearbyStations (latitude longitude : Q) (radius : number)
  : M (list Station.t) :=
  try_catch
    (routesData <- getRoutesData w ;;
     match routesData with
     | None => throw (TypeError "Cannot read properties of undefined (reading 'data')")
     | Some routes =>
         let routeLineMap := buildRouteLineMap routes in
         stopsData <- makeApiCall (stops_endpoint w)
                        (MBTA_BASE_URL ++ "/stops?filter[route_type]=0,1") 2 ;;
         match stopsData with
         | None => throw (TypeError "Cannot read properties of undefined (reading 'data')")
         | Some body =>
             match data body with
             | None => throw NoStationData
             | Some stops => resolveStations latitude longitude radius stops
             end
         end
     end)
    (fun error => throw error).

End Resolver.

(** ** Notions the properties are stated with *)

(** A request fails for good: it is rejected, or answered with a status
    that is neither 429 nor 2xx, or with a body that does not parse. *)
Definition hard_failure {A : Type} (o : FetchOutcome A) : option Error :=
  match o with
  | Rejected message => Some (NetworkFailure message)
  | Response status json =>
      if (status =? 429)%Z then None
      else if negb (ok status) then Some (HttpError status)
      else match json with
           | None => Some ParseFailure
           | Some _ => None
           end
  end.

(** A coordinate attribute the filter rejects, as the specification words
    it: missing, null, or exactly 0. *)
Definition lacks_value (a : Attr) : Prop :=
  a = Missing \/ a = Null \/ exists q, a = Number q /\ q == 0.

Definition make_stop (stopId stopName : string) (lat lon wheelchair : Attr) : Stop :=
  mkResource stopId (mkStopAttributes stopName lat lon wheelchair).

(** Every group has at least one stop. *)
Definition groups_inhabited (stationGroups : JsMap.t StationGroup.t) : Prop :=
  forall g, In g (JsMap.values stationGroups) -> StationGroup.stops g <> [].

(** The accessibility of a group is what its first stop reports. *)
Definition flag_of_first_stop (g : StationGroup.t) : Prop :=
  match StationGroup.stops g with
  | first :: _ =>
      StationGroup.wheelchair_accessible g
      = strict_eq_1 (wheelchair_boarding (attributes first))
  | [] => False
  end.

(** The group [stop] ends up in: the group already stored under its key
    with [stop] added, or a new group that takes its fields from [stop]. *)
Definition joined_group (existing : option StationGroup.t) (stop : Stop)
  : StationGroup.t :=
  match existing with
  | Some g =>
      StationGroup.make (StationGroup.stops g ++ [stop])
        (StationGroup.name g) (StationGroup.latitude g)
        (StationGroup.longitude g) (StationGroup.wheelchair_accessible g)
  | None =>
      StationGroup.make [stop]
        (name (attributes stop)) (latitude (attributes stop))
        (longitude (attributes stop))
        (strict_eq_1 (wheelchair_boarding (attributes stop)))
  end.

(** The cache as the specification words it: a prior fetch exists and its
    age is below the TTL. *)
Definition cache_fresh (st : State) : bool :=
  match routesCache st with
  | Some _ => (now st - routesCacheTimestamp st <? CACHE_DURATION)%Z
  | None => false
  end.

Definition routesUrl : string := MBTA_BASE_URL ++ "/routes?filter[type]=0,1".

(** Each route of the map is stored under its own id. *)
Definition well_keyed (m : JsMap.t RouteInfo.t) : Prop :=
  forall k v, In (k, v) m -> RouteInfo.id v = k.

(** [x <= y] holds. *)
Definition leN (x y : number) : Prop := num_leb x y = true.

(** Ascending order of distance, on the elements of a list. *)
Definition ascending {A : Type} (distanceOf : A -> number) (l : list A) : Prop :=
  StronglySorted (fun a b => num_leb (distanceOf a) (distanceOf b) = true) l.

(** A number that is not NaN. *)
Definition is_Num (v : number) : Prop := exists q, v = Num q.

(** The ids of the routes of a station. *)
Definition routeIds (station : Station.t) : list string :=
  map RouteInfo.id (Station.routes station).

(** The stations of a list that go by the name key [key]. *)
Definition namesakes (key : string) (stations : list Station.t) : list Station.t :=
  filter (fun s => nameKey s =? key) stations.

(** [s] is a station of [l] with the name of [a], up to case and
    surrounding white space. *)
Definition namesake_in (l : list Station.t) (a s : Station.t) : Prop :=
  In s l /\ nameKey s = nameKey a.

(** The station of name key [key] in a merged list. *)
Definition lookupName (key : string) (unique : list Station.t) : option Station.t :=
  find (fun s => nameKey s =? key) unique.

(** The merge as the specification words it: the first station of a name
    takes in, one after the other, the later stations of that name. *)
Definition mergedFor (key : string) (stations : list Station.t) : option Station.t :=
  match namesakes key stations with
  | [] => None
  | first :: later => Some (fold_left mergeStation later first)
  end.

(** [k] is none of [keys]. *)
Definition absent (keys : list string) (k : string) : bool :=
  negb (existsb (fun k' => k' =? k) keys).

(** The distinct elements of a list, each where it first occurs. *)
Fixpoint first_occurrences (keys : list string) : list string :=
  match keys with
  | [] => []
  | k :: rest => k :: filter (fun k' => negb (k' =? k)) (first_occurrences rest)
  end.



(** ** Distance calculator *)

Section DistanceCalculator.
Local Open Scope R_scope.

(** [Math.atan2(y, x)] on the reals. *)
Definition atan2 (y x : R) : R :=
  if Rlt_dec 0 x then atan (y / x)
  else if Rlt_dec x 0 then
    if Rle_dec 0 y then atan (y / x) + PI else atan (y / x) - PI
  else if Rlt_dec 0 y then PI / 2
  else if Rlt_dec y 0 then - PI / 2
  else 0.

(** [calculateDistance(lat1, lon1, lat2, lon2)], the haversine formula,
    read over the real numbers; the code evaluates the same expression in
    double precision. It is the reference that the machine function, a
    parameter of the resolver, is compared with ([agrees_with_formula]),
    not that function: where rounding takes [a] above 1 the code takes the
    square root of a negative number and returns NaN. [R_km] is the
    constant the source calls [R]. *)
Definition calculateDistance (lat1 lon1 lat2 lon2 : R) : R :=
  let R_km := 6371 in
  let dLat := (lat2 - lat1) * PI / 180 in
  let dLon := (lon2 - lon1) * PI / 180 in
  let a :=
    sin (dLat / 2) * sin (dLat / 2) +
    cos (lat1 * PI / 180) * cos (lat2 * PI / 180) *
    sin (dLon / 2) * sin (dLon / 2) in
  let c := 2 * atan2 (sqrt a) (sqrt (1 - a)) in
  let distanceKm := R_km * c in
  distanceKm * 0.621371.

(** A machine distance function agrees with the formula at one pair of
    points up to [tolerance]. *)
Definition agrees_with_formula (calcDist : Q -> Q -> Q -> Q -> number)
  (tolerance : R) (lat1 lon1 lat2 lon2 : Q) : Prop :=
  exists d : Q,
    calcDist lat1 lon1 lat2 lon2 = Num d /\
    Rabs (Q2R d - calculateDistance (Q2R lat1) (Q2R lon1) (Q2R lat2) (Q2R lon2))
      <= tolerance.

End DistanceCalculator.

(** ** The route classifier as the specification words it *)

(** The name a route is classified under: [long_name || short_name || '']. *)
Definition routeNameOf (attrs : RouteAttributes) : string :=
  match or_else (or_else (long_name attrs) (short_name attrs)) (Some EmptyString) with
  | Some s => s
  | None => EmptyString
  end.

(** The rules in their fixed priority order: a test on the route name and
    the route id, and the key of the line it selects. The last rule is the
    default for a Green route without a branch. *)
Definition classifier_rules : list ((string -> string -> bool) * string) :=
  [ (fun name rid => includes name "Red" || includes rid "Red", "Red");
    (fun name rid => includes name "Orange" || includes rid "Orange", "Orange");
    (fun name rid => includes name "Blue" || includes rid "Blue", "Blue");
    (fun name _ => includes name "Green" && includes name "B", "Green-B");
    (fun name _ => includes name "Green" && includes name "C", "Green-C");
    (fun name _ => includes name "Green" && includes name "D", "Green-D");
    (fun name _ => includes name "Green" && includes name "E", "Green-E");
    (fun name rid => includes name "Mattapan" || includes rid "Mattapan", "Mattapan");
    (fun name rid => includes name "Green" || includes rid "Green", "Green-B") ].

(** First matching rule wins; no rule, no attributes or no route: no match. *)
Definition classify_by_rules (route : option Route) : option Line :=
  match route with
  | None => None
  | Some r =>
      match attributes r with
      | None => None
      | Some attrs =>
          match find (fun rule => fst rule (routeNameOf attrs) (id r)) classifier_rules with
          | Some rule => MBTA_LINES (snd rule)
          | None => None
          end
      end
  end.

Definition named_route (rid : string) (long : string) : Route :=
  mkResource rid (Some (mkRouteAttributes (Some long) None)).

(** ** The example of the specification *)

Definition query_latitude : Q := 423601 # 10000.
Definition query_longitude : Q := - 710589 # 10000.
Definition park_street_latitude : Q := 423554 # 10000.
Definition park_street_longitude : Q := - 710640 # 10000.

(** The two platform stops named "Park Street", at the same coordinate. *)
Definition park_street_accessible : Stop :=
  make_stop "70075" "Park Street" (Number park_street_latitude)
    (Number park_street_longitude) (Number 1).

Definition park_street_inaccessible : Stop :=
  make_stop "70076" "Park Street" (Number park_street_latitude)
    (Number park_street_longitude) (Number 0).

(** A stop on the equator. *)
Definition equator_stop : Stop :=
  make_stop "eq-1" "Equator Halt" (Number 0) (Number park_street_longitude) (Number 1).

Definition subway_routes : list Route :=
  [ named_route "Red" "Red Line"; named_route "Green-B" "Green Line B";
    named_route "Green-C" "Green Line C"; named_route "Green-D" "Green Line D";
    named_route "Green-E" "Green Line E" ].

(** A 200 response whose body is [{ data: items }]. *)
Definition answer {A : Type} (items : list A) : FetchOutcome (Body A) :=
  Response 200 (Some (mkBody (Some items))).

(** A server that always answers with the subway routes and with [stops],
    and whose route detail per stop is [detail]. *)
Definition server (stops : list Stop)
  (detail : string -> nat -> FetchOutcome (Body Route)) : World :=
  mkWorld (fun _ => answer subway_routes) (fun _ => answer stops) detail.

(** The server of the example, the accessible platform listed first. *)
Definition park_street_world : World :=
  server [park_street_accessible; park_street_inaccessible]
         (fun _ _ => answer subway_routes).

(** The same, the other platform listed first. *)
Definition park_street_world_swapped : World :=
  server [park_street_inaccessible; park_street_accessible]
         (fun _ _ => answer subway_routes).

(** The same, the route detail of every stop failing with status 500. *)
Definition park_street_world_no_detail : World :=
  server [park_street_accessible; park_street_inaccessible]
         (fun _ _ => Response 500 None).

(** A stop list around the query point, one stop far out, one without a
    latitude. *)
Definition downtown_stops : list Stop :=
  [ park_street_accessible; park_street_inaccessible;
    make_stop "70039" "Government Center" (Number (423594 # 10000))
      (Number (- 710592 # 10000)) (Number 1);
    make_stop "70061" "Alewife" (Number (423954 # 10000))
      (Number (- 711425 # 10000)) (Number 1);
    make_stop "70022" "State" (Number (423587 # 10000))
      (Number (- 710576 # 10000)) (Number 1);
    make_stop "70020" "Downtown Crossing" (Number (423555 # 10000))
      (Number (- 710602 # 10000)) (Number 1);
    make_stop "70000" "Nowhere" Null (Number (- 710602 # 10000)) (Number 0);
    make_stop "70024" "Haymarket" (Number (423630 # 10000))
      (Number (- 710583 # 10000)) (Number 2) ].

Definition downtown_world : World :=
  server downtown_stops (fun _ _ => answer subway_routes).

(** A server that answers every request with status 429. *)
Definition rate_limiting_world : World :=
  mkWorld (fun _ => Response 429 None) (fun _ => Response 429 None)
          (fun _ _ => Response 429 None).

(** The state after the route detail of stop 70076, second in the list,
    was asked for from the initial state and failed twice with status 500:
    the 500 ms spacing, a request, the 2 s backoff, a request. *)
Definition state_after_failed_detail : State :=
  mkState None 0 2500 2
    [Delayed 500; Fetched (stopRoutesUrl "70076"); Delayed 2000;
     Fetched (stopRoutesUrl "70076")].

(** A distance function to run the resolver with: 69 miles per degree
    along the grid. *)
Definition grid_distance (lat1 lon1 lat2 lon2 : Q) : number :=
  Num (69 * (Qabs (lat2 - lat1) + Qabs (lon2 - lon1))).

(** The distance a run of the example reports, to five decimals; the
    function is left undetermined (NaN) elsewhere. *)
Definition reported_distance (lat1 lon1 lat2 lon2 : Q) : number :=
  if Qeq_bool lat1 query_latitude && Qeq_bool lon1 query_longitude &&
     Qeq_bool lat2 park_street_latitude && Qeq_bool lon2 park_street_longitude
  then Num (41624 # 100000) else NaN.

(** Two stations of one name up to case and white space. *)
Definition park_street_upper : Station.t :=
  Station.make "70075" "Park Street" (Number park_street_latitude)
    (Number park_street_longitude) (Num (42 # 100)) false
    [RouteInfo.make "Red" (Some "Red Line") "🔴" "#DA291C"] true.

Definition park_street_lower : Station.t :=
  Station.make "70200" "park street " (Number (423560 # 10000))
    (Number (- 710625 # 10000)) (Num (40 # 100)) true
    [RouteInfo.make "Green-B" (Some "Green Line B") "B🟢" "#00843D";
     RouteInfo.make "Red" (Some "Red Line") "🔴" "#DA291C"] true.

(** ** Groups by key *)

(** [stop] has the station key [key]. *)
Definition has_key (key : string) (stop : Stop) : bool :=
  match createStationKey stop with
  | Returned k => k =? key
  | Thrown _ => false
  end.

(** The station key of a stop that has one. *)
Definition key_of (stop : Stop) : string :=
  match createStationKey stop with
  | Returned k => k
  | Thrown _ => EmptyString
  end.

(** A group, or none yet, after the stops [joining] have joined it in
    order: the first stop of a new group gives it its name, coordinate and
    accessibility. *)
Definition extend_group (existing : option StationGroup.t) (joining : list Stop)
  : option StationGroup.t :=
  match existing, joining with
  | Some g, _ =>
      Some (StationGroup.make (StationGroup.stops g ++ joining)
              (StationGroup.name g) (StationGroup.latitude g)
              (StationGroup.longitude g) (StationGroup.wheelchair_accessible g))
  | None, [] => None
  | None, first :: rest =>
      Some (StationGroup.make (first :: rest)
              (name (attributes first)) (latitude (attributes first))
              (longitude (attributes first))
              (strict_eq_1 (wheelchair_boarding (attributes first))))
  end.

(** ** Candidates *)

(** The groups within the radius, with their distances, before they are
    sorted: the operand of [sort] in [rankStations]. *)
Definition candidates (calcDist : Q -> Q -> Q -> Q -> number)
  (latitude longitude : Q) (radius : number)
  (stationGroups : JsMap.t StationGroup.t) : list Ranked :=
  filter (fun station => num_leb (distance station) radius)
    (map (fun g =>
            mkRanked g
              (distanceTo calcDist latitude longitude
                 (StationGroup.latitude g) (StationGroup.longitude g)))
         (JsMap.values stationGroups)).

(** ** Lines of the table *)

(** A classified route shows the symbol and colour of a line of the
    table. *)
Definition is_line (route : RouteInfo.t) : Prop :=
  exists key line,
    MBTA_LINES key = Some line /\
    RouteInfo.emoji route = emoji line /\
    RouteInfo.color route = color line.

(** The routes of a station are distinct by id, and each shows a line of
    the table. *)
Definition distinct_lines (station : Station.t) : Prop :=
  NoDup (routeIds station) /\ Forall is_line (Station.routes station).

(** ** Places *)

(** Two stations are the same place: same id, name, coordinate and
    distance. *)
Definition same_place (a b : Station.t) : Prop :=
  Station.id a = Station.id b /\
  Station.name a = Station.name b /\
  Station.latitude a = Station.latitude b /\
  Station.longitude a = Station.longitude b /\
  Station.distance a = Station.distance b.

(** A station shows a stop as seen from a point: it has the id, name and
    coordinate of the stop, and its distance is that of the point to the
    stop. *)
Definition shows_stop (calcDist : Q -> Q -> Q -> Q -> number) (lat lon : Q)
  (station : Station.t) (stop : Stop) : Prop :=
  Station.id station = id stop /\
  Station.name station = name (attributes stop) /\
  Station.latitude station = latitude (attributes stop) /\
  Station.longitude station = longitude (attributes stop) /\
  Station.distance station
  = distanceTo calcDist lat lon (latitude (attributes stop)) (longitude (attributes stop)).

(** ** Route detail requests *)


(** From [st] to [st'], between [least] and [most] requests were issued,
    at most [ms] milliseconds went by, and the route cache was left as
    it was. *)
Definition spent (least most : nat) (ms : Z) (st st' : State) : Prop :=
  (requests st + least <= requests st' <= requests st + most)%nat /\
  (now st <= now st' <= now st + ms)%Z /\
  routesCache st' = routesCache st /\
  routesCacheTimestamp st' = routesCacheTimestamp st.

(** ** Failures of the resolver *)

Definition stopsUrl : string := MBTA_BASE_URL ++ "/stops?filter[route_type]=0,1".

(** The error of reading [data] on [undefined]. *)
Definition undefined_data : Error :=
  TypeError "Cannot read properties of undefined (reading 'data')".

(** ** Station details *)

(** The document of one stop: [{ data }], whose [data] member may be
    absent. *)
Record Document (A : Type) : Type := mkDocument { document_data : option A }.
Arguments mkDocument {A} _.
Arguments document_data {A} _.

Definition stationUrl (stationId : string) : string :=
  MBTA_BASE_URL ++ "/stops/" ++ stationId ++ "?include=route".

(** [getStationDetails(stationId)], against the endpoint that serves the
    stops one by one; the result is [data.data], [None] for [undefined]. *)
Definition getStationDetails {A : Type}
  (stop_endpoint : string -> nat -> FetchOutcome (Document A))
  (stationId : string) : M (option A) :=
  try_catch
    (data <- makeApiCall (stop_endpoint stationId) (stationUrl stationId) 2 ;;
     match data with
     | None => throw undefined_data
     | Some document => ret (document_data document)
     end)
    (fun error => throw error).

(** ** Answers and states that differ in route lists only *)

(** Two answers alike, their bodies related by [R]. *)
Definition outcome_rel {A : Type} (R : A -> A -> Prop) (o1 o2 : FetchOutcome A) : Prop :=
  match o1, o2 with
  | Rejected m1, Rejected m2 => m1 = m2
  | Response s1 (Some a1), Response s2 (Some a2) => s1 = s2 /\ R a1 a2
  | Response s1 None, Response s2 None => s1 = s2
  | _, _ => False
  end.

(** Two results of [makeApiCall] alike, their bodies related by [R]. *)
Definition result_rel {A : Type} (R : A -> A -> Prop) (r1 r2 : Result (option A)) : Prop :=
  match r1, r2 with
  | Returned (Some a1), Returned (Some a2) => R a1 a2
  | Returned None, Returned None => True
  | Thrown e1, Thrown e2 => e1 = e2
  | _, _ => False
  end.

(** Any two bodies. *)
Definition any_body {A : Type} (a1 a2 : A) : Prop := True.

(** Two states that differ at most in the route list the cache holds. *)
Definition same_but_routes (st1 st2 : State) : Prop :=
  (routesCache st1 = None <-> routesCache st2 = None) /\
  routesCacheTimestamp st1 = routesCacheTimestamp st2 /\
  now st1 = now st2 /\
  requests st1 = requests st2 /\
  trace st1 = trace st2.

(** Two servers that differ at most in the route lists they answer the
    request for all routes with. *)
Definition same_but_route_lists (w1 w2 : World) : Prop :=
  (forall n, outcome_rel any_body (routes_endpoint w1 n) (routes_endpoint w2 n)) /\
  (forall n, stops_endpoint w1 n = stops_endpoint w2 n) /\
  (forall stopId n, stop_routes_endpoint w1 stopId n = stop_routes_endpoint w2 stopId n).

(** The server of the downtown stops, except that it answers the request
    for all routes with an empty list. *)
Definition downtown_world_without_routes : World :=
  mkWorld (fun _ => answer []) (stops_endpoint downtown_world)
          (stop_routes_endpoint downtown_world).

(** ** What a station key says *)

(** The character [c] does not occur in [s]. *)
Fixpoint lacks (c : ascii) (s : string) : Prop :=
  match s with
  | EmptyString => True
  | String d rest => d <> c /\ lacks c rest
  end.

(** The integer [n] that [toFixed(digits)] prints with a decimal point
    before its last [digits] digits. *)
Definition toFixed_integer (digits : nat) (x : Q) : Z :=
  ((2 * Z.abs (Qnum x) * 10 ^ Z.of_nat digits + Z.pos (Qden x)) / (2 * Z.pos (Qden x)))%Z.

(** The number a string of decimal digits stands for. *)
Definition digits_value (s : string) : option N :=
  option_map N.of_uint (NilEmpty.uint_of_string s).

(** The number that a coordinate attribute is, where it is one. *)
Definition coordinate (a : Attr) : Q :=
  match a with
  | Number q => q
  | _ => 0
  end.

(** ** The line symbols of a station, as the map shows them *)

(** One [span] of the row: its key [route.id || index], the route name
    that goes into its title, and the symbol it shows. *)
Record EmojiSpan : Type := mkEmojiSpan {
  span_key : string + nat;
  span_name : option string;
  span_emoji : string
}.

(** What [LineEmojis] renders: one of the two notes, or the row. *)
Inductive LineEmojisView : Type :=
| RouteInfoNotAvailable
| NoLineInfoAvailable
| EmojiRow (spans : list EmojiSpan).

(** [routes.map((route, index) => <span ...>)], from index [index] on. *)
Fixpoint emojiSpans (index : nat) (routes : list RouteInfo.t) : list EmojiSpan :=
  match routes with
  | [] => []
  | route :: rest =>
      mkEmojiSpan
        (if RouteInfo.id route =? EmptyString then inr index else inl (RouteInfo.id route))
        (RouteInfo.name route) (RouteInfo.emoji route)
        :: emojiSpans (S index) rest
  end.

(** [LineEmojis({ routes, hasRouteData })]; [routes] is [None] when the
    prop is missing. *)
Definition LineEmojis (routes : option (list RouteInfo.t)) (hasRouteData : bool)
  : LineEmojisView :=
  if negb hasRouteData then RouteInfoNotAvailable
  else match routes with
       | None => NoLineInfoAvailable
       | Some [] => NoLineInfoAvailable
       | Some (route :: rest) => EmojiRow (emojiSpans 0 (route :: rest))
       end.

(** The symbols of the table. *)
Definition line_emojis : list string := map (fun entry => emoji (snd entry)) MBTA_LINES_table.

(** ** Locating the user when the map is mounted *)

(** The state variables of the map component that locating the user
    writes: [position], [userLocation], [loading] and [error]. *)
Module MapState.
Record t : Type := make {
  position : option (Q * Q);
  userLocation : option (Q * Q);
  loading : bool;
  error : option string
}.
End MapState.

(** The state of the first render: [useState(null)], [useState(null)],
    [useState(true)], [useState(null)]. *)
Definition first_render : MapState.t := MapState.make None None true None.

(** [fallbackPos], the centre of Boston. *)
Definition fallbackPos : Q * Q := (423601 # 10000, - 710589 # 10000).

(** The variables of the effect that runs on mount, and what its callbacks
    close over: [isLocationSet]; whether the timer [geolocationTimeout] is
    pending; the value of [loading] in the render that ran the effect; and
    the state variables. *)
Record Mount : Type := mkMount {
  isLocationSet : bool;
  geolocationTimeout : bool;
  loading_seen : bool;
  shown : MapState.t
}.

(** What may happen after the effect has run: the browser calls
    [successCallback] or [errorCallback], the timer of 20 s fires, or the
    effect is cleaned up. *)
Inductive GeoEvent : Type :=
| Success (latitude longitude : Q)
| Failure (code : Z)
| FallbackTimeout
| Cleanup.

(** [errorMessage] as the [switch] on [err.code] leaves it. *)
Definition errorMessage (code : Z) : string :=
  "Unable to get your location. " ++
  (if (code =? 1)%Z then
     "Location access was denied. Please allow location access in your browser settings."
   else if (code =? 2)%Z then
     "Location information is unavailable. This might be due to poor GPS signal or network issues."
   else if (code =? 3)%Z then
     "Location request timed out. Please try again."
   else "Please enable location services and try again.").

(** The effect, where [navigator.geolocation] is there: nothing is set
    yet, the timer is started. *)
Definition mountEffect (rendered : MapState.t) : Mount :=
  mkMount false true (MapState.loading rendered) rendered.

(** The effect, where [navigator.geolocation] is missing. *)
Definition mountWithoutGeolocation (rendered : MapState.t) : MapState.t :=
  MapState.make (Some fallbackPos) (Some fallbackPos) false
    (Some "Geolocation is not supported by this browser. Using default location (Boston).").

Definition successCallback (latitude longitude : Q) (m : Mount) : Mount :=
  if isLocationSet m then m
  else
    mkMount true false (loading_seen m)
      (MapState.make (Some (latitude, longitude)) (Some (latitude, longitude)) false
         (MapState.error (shown m))).

Definition errorCallback (code : Z) (m : Mount) : Mount :=
  if isLocationSet m then m
  else
    mkMount true false (loading_seen m)
      (MapState.make (Some fallbackPos) (Some fallbackPos) false
         (Some (errorMessage code))).

(** The callback of the timer; it runs only while the timer is pending. *)
Definition timeoutCallback (m : Mount) : Mount :=
  if geolocationTimeout m then
    if negb (isLocationSet m) && loading_seen m then
      mkMount true false (loading_seen m)
        (MapState.make (Some fallbackPos) (Some fallbackPos) false
           (Some "Location request timed out. Using default location (Boston)."))
    else mkMount (isLocationSet m) false (loading_seen m) (shown m)
  else m.

(** The cleanup of the effect: [clearTimeout]. *)
Definition cleanup (m : Mount) : Mount :=
  mkMount (isLocationSet m) false (loading_seen m) (shown m).

Definition geoStep (m : Mount) (event : GeoEvent) : Mount :=
  match event with
  | Success latitude longitude => successCallback latitude longitude m
  | Failure code => errorCallback code m
  | FallbackTimeout => timeoutCallback m
  | Cleanup => cleanup m
  end.

(** The effect on the first render, followed by the events in order. *)
Definition locate (events : list GeoEvent) : Mount :=
  fold_left geoStep events (mountEffect first_render).

(** An event that finds the location, or gives it up. *)
Definition decides (m : Mount) (event : GeoEvent) : bool :=
  match event with
  | Success _ _ | Failure _ => true
  | FallbackTimeout => geolocationTimeout m
  | Cleanup => false
  end.

(** ** Station ids *)

(** The id a station gets from its group: that of the first stop. *)
Definition group_id (g : StationGroup.t) : string :=
  match StationGroup.stops g with
  | first :: _ => id first
  | [] => EmptyString
  end.

(** ** Routes found for a stop *)

(** [stopRoutesMap.get(stop.id) || []]. *)
Definition routesFound (stopRoutesMap : JsMap.t (list RouteInfo.t)) (stop : Stop)
  : list RouteInfo.t :=
  match JsMap.get stopRoutesMap (id stop) with
  | Some routes => routes
  | None => []
  end.

(** The route id [i] was found for one of the stops. *)
Definition found_for (stopRoutesMap : JsMap.t (list RouteInfo.t)) (stops : list Stop)
  (i : string) : Prop :=
  exists stop,
    In stop stops /\ In i (map RouteInfo.id (routesFound stopRoutesMap stop)).

(** The route detail of the two platforms of Park Street, one line
    each, and the group of the two platforms, ranked. *)
Definition park_street_detail : JsMap.t (list RouteInfo.t) :=
  [("70075", [RouteInfo.make "Red" (Some "Red Line") "🔴" "#DA291C"]);
   ("70076", [RouteInfo.make "Green-B" (Some "Green Line B") "B🟢" "#00843D"])].

Definition park_street_group : Ranked :=
  mkRanked
    (StationGroup.make [park_street_accessible; park_street_inaccessible]
       "Park Street" (Number park_street_latitude) (Number park_street_longitude) true)
    (Num (42 # 100)).

(** A state whose cached route list, an empty one stored at time 0, is
    exactly 5 minutes old. *)
Definition state_with_expired_cache : State :=
  mkState (Some (mkBody (Some []))) 0 (5 * 60 * 1000) 0 [].

(** ** Effects of the requests for the two lists *)

(** An effect of [makeApiCall(url)]: a request to [url], or a wait. *)
Definition call_effect (url : string) (event : Event) : Prop :=
  event = Fetched url \/ exists ms, event = Delayed ms.

(** An effect of the requests for the two lists: a request for all
    routes, a request for all stops, or a wait. *)
Definition list_effect (event : Event) : Prop :=
  call_effect routesUrl event \/ call_effect stopsUrl event.

(** ** The backoff schedule of the fetcher *)

(** The effects of [n] passes that end in a wait, from attempt [attempt]
    on: a request, then a wait of [2^attempt] seconds, and so on. *)
Fixpoint backoff_schedule (url : string) (attempt n : nat) : list Event :=
  match n with
  | O => []
  | S n' =>
      Fetched url :: Delayed (2 ^ Z.of_nat attempt * 1000)
        :: backoff_schedule url (S attempt) n'
  end.

(** The time these waits take, in milliseconds. *)
Fixpoint backoff_total (attempt n : nat) : Z :=
  match n with
  | O => 0
  | S n' => 2 ^ Z.of_nat attempt * 1000 + backoff_total (S attempt) n'
  end.

(** What a run of the loop of [makeApiCall] leaves, by its outcome: a body,
    [undefined] or an error. [j] is the number of passes that ended in a
    wait before the pass that decided; the cache is as it was. *)
Definition loop_leaves {A : Type} (endpoint : nat -> FetchOutcome A)
  (url : string) (remaining attempt : nat) (st : State)
  (r : Result (option A)) (st' : State) : Prop :=
  routesCache st' = routesCache st /\
  routesCacheTimestamp st' = routesCacheTimestamp st /\
  match r with
  | Returned (Some body) =>
      exists j status,
        (j < remaining)%nat /\
        requests st' = (requests st + S j)%nat /\
        trace st' = (trace st ++ backoff_schedule url attempt j ++ [Fetched url])%list /\
        now st' = (now st + backoff_total attempt j)%Z /\
        endpoint (requests st + j)%nat = Response status (Some body) /\
        ok status = true
  | Thrown e =>
      exists j,
        S j = remaining /\
        requests st' = (requests st + remaining)%nat /\
        trace st' = (trace st ++ backoff_schedule url attempt j ++ [Fetched url])%list /\
        now st' = (now st + backoff_total attempt j)%Z /\
        hard_failure (endpoint (requests st + j)%nat) = Some e
  | Returned None =>
      requests st' = (requests st + remaining)%nat /\
      trace st' = (trace st ++ backoff_schedule url attempt remaining)%list /\
      now st' = (now st + backoff_total attempt remaining)%Z /\
      (remaining = O \/
       exists json, endpoint (requests st + remaining - 1)%nat = Response 429 json)
  end.

(** Replace a closed call by its value. *)
Ltac run_closed t := let v := eval vm_compute in t in change t with v.

(** * Properties *)

(** ** Route classifier *)

(** C6. The classifier is the first-match evaluation of the rule table in
    the order Red, Orange, Blue, Green-B, Green-C, Green-D, Green-E,
    Mattapan, then the Green default; a route named "Green Line B Branch"
    gets Green-B, one named "Green Line" gets Green-B by default, an
    unrecognised name and a record without attributes get no match. *)
Theorem getLineInfo_first_matching_rule :
  (forall route, getLineInfo route = classify_by_rules route) /\
  getLineInfo (Some (named_route "r1" "Green Line B Branch")) = MBTA_LINES "Green-B" /\
  getLineInfo (Some (named_route "r2" "Green Line")) = MBTA_LINES "Green-B" /\
  MBTA_LINES "Green-B" = Some (mkLine "B🟢" "#00843D") /\
  getLineInfo (Some (named_route "r3" "Silver Line")) = None /\
  (forall rid, getLineInfo (Some (mkResource rid None)) = None) /\
  getLineInfo None = None.
Proof.
  split; [| repeat split; reflexivity].
  intros [route |]; [| reflexivity].
  unfold getLineInfo, classify_by_rules.
  destruct (attributes route) as [attrs |]; [| reflexivity].
  fold (routeNameOf attrs).
  generalize (routeNameOf attrs) as routeName, (id route) as routeId.
  intros routeName routeId. unfold classifier_rules. cbn [find fst snd].
  repeat match goal with
         | |- context [if ?b then _ else _] => destruct b; try reflexivity
         end.
Qed.

(** "Green Line C Branch" contains a B (in "Branch"): rule Green-B comes
    first and wins, as the priority order says. *)
Example green_c_branch_hits_rule_b :
  getLineInfo (Some (named_route "Green-C" "Green Line C Branch")) = MBTA_LINES "Green-B" /\
  getLineInfo (Some (named_route "Green-C" "Green Line C")) = MBTA_LINES "Green-C".
Proof. split; reflexivity. Qed.

(** ** Retrying fetcher *)

Section Fetcher.

Context {A : Type}.
Variable endpoint : nat -> FetchOutcome A.
Variable url : string.

(** One pass of the loop when the request is answered with status 429. *)
Lemma pass_rate_limited maxRetries attempt st json :
  endpoint (requests st) = Response 429 json ->
  try_catch (attempt_try endpoint url attempt) (attempt_catch maxRetries attempt) st
  = (Returned Retry,
     after_delay (2 ^ Z.of_nat attempt * 1000) (after_fetch url st)).
Proof.
  intros H. unfold try_catch, attempt_try, bind, fetch. rewrite H. reflexivity.
Qed.

(** One pass of the loop when the request is answered with a 2xx status
    and a body that parses. *)
Lemma pass_success maxRetries attempt st status body :
  endpoint (requests st) = Response status (Some body) ->
  ok status = true ->
  try_catch (attempt_try endpoint url attempt) (attempt_catch maxRetries attempt) st
  = (Returned (Done body), after_fetch url st).
Proof.
  intros H Hok. unfold try_catch, attempt_try, bind, fetch. rewrite H.
  assert (Hne : (status =? 429)%Z = false).
  { unfold ok in Hok. apply andb_true_iff in Hok. destruct Hok as [_ Hhi].
    apply Z.leb_le in Hhi. apply Z.eqb_neq. lia. }
  rewrite Hne, Hok. reflexivity.
Qed.

(** One pass of the loop on such a failure: rethrown on the last attempt,
    a wait and a retry before. *)
Lemma pass_hard_failure maxRetries attempt st e :
  hard_failure (endpoint (requests st)) = Some e ->
  try_catch (attempt_try endpoint url attempt) (attempt_catch maxRetries attempt) st
  = if (attempt =? maxRetries)%nat then (Thrown e, after_fetch url st)
    else (Returned Retry,
          after_delay (2 ^ Z.of_nat attempt * 1000) (after_fetch url st)).
Proof.
  intros H. unfold try_catch, attempt_try, attempt_catch, bind, fetch, hard_failure in *.
  destruct (endpoint (requests st)) as [message | status json].
  - injection H as <-. cbn. destruct (attempt =? maxRetries)%nat; reflexivity.
  - destruct (status =? 429)%Z; [discriminate |].
    destruct (negb (ok status)).
    + injection H as <-. cbn. destruct (attempt =? maxRetries)%nat; reflexivity.
    + destruct json; [discriminate |]. injection H as <-. cbn.
      destruct (attempt =? maxRetries)%nat; reflexivity.
Qed.

(** The loop, every request being answered 429: it runs out and returns
    [undefined]. *)
Lemma loop_all_429 maxRetries :
  (forall n, exists json, endpoint n = Response 429 json) ->
  forall remaining attempt st,
  exists st',
    makeApiCall_loop endpoint url maxRetries remaining attempt st = (Returned None, st') /\
    requests st' = (requests st + remaining)%nat.
Proof.
  intros Hall. induction remaining as [| remaining IH]; intros attempt st.
  - exists st. split; [reflexivity | symmetry; apply Nat.add_0_r].
  - destruct (Hall (requests st)) as [json Hjson].
    cbn [makeApiCall_loop]. unfold bind at 1.
    rewrite (pass_rate_limited maxRetries attempt st json Hjson).
    destruct (IH (S attempt) (after_delay (2 ^ Z.of_nat attempt * 1000) (after_fetch url st)))
      as [st' [Hrun Hreq]].
    exists st'. split; [exact Hrun |]. rewrite Hreq. cbn. lia.
Qed.

(** The loop, every request failing for good: the error of the last
    attempt is thrown. *)
Lemma loop_all_hard_failures maxRetries :
  (forall n, hard_failure (endpoint n) <> None) ->
  forall remaining attempt st,
    (attempt + remaining = S maxRetries)%nat -> (0 < remaining)%nat ->
    exists e st',
      makeApiCall_loop endpoint url maxRetries remaining attempt st = (Thrown e, st').
Proof.
  intros Hall. induction remaining as [| remaining IH]; intros attempt st Hsum Hpos; [lia |].
  destruct (hard_failure (endpoint (requests st))) as [e |] eqn:He;
    [| exfalso; exact (Hall _ He)].
  cbn [makeApiCall_loop]. unfold bind at 1.
  rewrite (pass_hard_failure maxRetries attempt st e He).
  destruct (Nat.eqb_spec attempt maxRetries) as [Heq | Hne].
  - exists e, (after_fetch url st). reflexivity.
  - apply IH; lia.
Qed.

End Fetcher.

(** C3, the part that holds: when every attempt fails for good (a
    rejection, a status that is neither 429 nor 2xx, an unparseable body),
    the error is thrown to the caller once the attempts are used up. *)
Lemma makeApiCall_hard_failures_throw :
  forall (A : Type) (endpoint : nat -> FetchOutcome A) url maxRetries st,
    (0 < maxRetries)%nat ->
    (forall n, hard_failure (endpoint n) <> None) ->
    exists e st', makeApiCall endpoint url maxRetries st = (Thrown e, st').
Proof.
  intros A endpoint url maxRetries st Hpos Hall. unfold makeApiCall.
  apply loop_all_hard_failures; [exact Hall | lia | exact Hpos].
Qed.

(** C3, where the code departs from it: when every attempt is answered
    with HTTP 429, [makeApiCall] uses up its attempts and completes
    normally, returning [undefined]; nothing is thrown. *)
Theorem makeApiCall_all_429_returns_undefined :
  forall (A : Type) (endpoint : nat -> FetchOutcome A) url maxRetries st,
    (forall n, exists json, endpoint n = Response 429 json) ->
    exists st',
      makeApiCall endpoint url maxRetries st = (Returned None, st') /\
      requests st' = (requests st + maxRetries)%nat.
Proof.
  intros A endpoint url maxRetries st Hall. unfold makeApiCall.
  apply loop_all_429. exact Hall.
Qed.

Lemma makeApiCall_all_429_witness :
  exists st',
    makeApiCall (fun _ : nat => @Response (Body Route) 429 None)
                "https://api-v3.mbta.com/routes?filter[type]=0,1" 2 (initial_state 0)
    = (Returned None, st') /\
    requests st' = (requests (initial_state 0) + 2)%nat.
Proof.
  apply (makeApiCall_all_429_returns_undefined (Body Route)
           (fun _ : nat => Response 429 None)).
  intros n. exists None. reflexivity.
Defined.

(** Against a server that answers 429 to everything, the resolver does
    fail, though not with an error of the fetcher: it reads [data] on the
    [undefined] that [getRoutesData] handed over. *)
Example rate_limited_resolver_trips_on_undefined :
  fst (fetchNearbyStations rate_limiting_world grid_distance
         query_latitude query_longitude (Num (125 # 100)) (initial_state 0))
  = Thrown (TypeError "Cannot read properties of undefined (reading 'data')") /\
  trace (snd (fetchNearbyStations rate_limiting_world grid_distance
                query_latitude query_longitude (Num (125 # 100)) (initial_state 0)))
  = [Fetched routesUrl; Delayed 2000; Fetched routesUrl; Delayed 4000].
Proof. split; vm_compute; reflexivity. Qed.

(** C5. A 429 on the first attempt and a 2xx response with a parseable
    body on the second: the second body is returned, and between the two
    requests the fetcher waits 2^1 seconds. *)
Theorem makeApiCall_retries_after_429 :
  forall (A : Type) (endpoint : nat -> FetchOutcome A) url maxRetries st json status body,
    (2 <= maxRetries)%nat ->
    endpoint (requests st) = Response 429 json ->
    endpoint (S (requests st)) = Response status (Some body) ->
    ok status = true ->
    exists st',
      makeApiCall endpoint url maxRetries st = (Returned (Some body), st') /\
      trace st' = (trace st ++ [Fetched url; Delayed (2 ^ 1 * 1000); Fetched url])%list /\
      now st' = (now st + 2000)%Z.
Proof.
  intros A endpoint url maxRetries st json status body Hmax H1 H2 Hok.
  destruct maxRetries as [| [| k]]; [lia | lia |].
  unfold makeApiCall. cbn [makeApiCall_loop]. unfold bind at 1.
  rewrite (pass_rate_limited endpoint url (S (S k)) 1 st json H1).
  unfold bind at 1.
  rewrite (pass_success endpoint url (S (S k)) 2
             (after_delay (2 ^ Z.of_nat 1 * 1000) (after_fetch url st)) status body H2 Hok).
  eexists. split; [reflexivity |]. cbn. rewrite <- app_assoc. cbn.
  rewrite <- app_assoc. split; reflexivity.
Qed.

Lemma makeApiCall_retries_after_429_witness :
  exists st',
    makeApiCall
      (fun n : nat => match n with
                      | O => Response 429 None
                      | S _ => Response 200 (Some (@mkBody Route (Some [])))
                      end)
      "https://api-v3.mbta.com/routes?filter[type]=0,1" 2 (initial_state 0)
    = (Returned (Some (mkBody (Some []))), st') /\
    trace st' = (trace (initial_state 0) ++
                 [Fetched "https://api-v3.mbta.com/routes?filter[type]=0,1";
                  Delayed (2 ^ 1 * 1000);
                  Fetched "https://api-v3.mbta.com/routes?filter[type]=0,1"])%list /\
    now st' = (now (initial_state 0) + 2000)%Z.
Proof.
  apply (makeApiCall_retries_after_429 (Body Route) _ _ 2 (initial_state 0) None 200);
    [lia | reflexivity | reflexivity | reflexivity].
Defined.

(** ** Route cache *)

(** Every pass of the loop issues one request, first of all. *)
Lemma pass_trace {A : Type} (endpoint : nat -> FetchOutcome A) url maxRetries attempt st :
  exists rest,
    trace (snd (try_catch (attempt_try endpoint url attempt)
                          (attempt_catch maxRetries attempt) st))
    = (trace st ++ Fetched url :: rest)%list.
Proof.
  unfold try_catch, attempt_try, attempt_catch, bind, fetch.
  destruct (endpoint (requests st)) as [message | status json]; cbn.
  - destruct (attempt =? maxRetries)%nat; cbn.
    + exists []. reflexivity.
    + exists [Delayed (2 ^ Z.of_nat attempt * 1000)]. rewrite <- app_assoc. reflexivity.
  - destruct (status =? 429)%Z; cbn.
    + exists [Delayed (2 ^ Z.of_nat attempt * 1000)]. rewrite <- app_assoc. reflexivity.
    + destruct (negb (ok status)); cbn.
      * destruct (attempt =? maxRetries)%nat; cbn.
        -- exists []. reflexivity.
        -- exists [Delayed (2 ^ Z.of_nat attempt * 1000)]. rewrite <- app_assoc. reflexivity.
      * destruct json; cbn.
        -- exists []. reflexivity.
        -- destruct (attempt =? maxRetries)%nat; cbn.
           ++ exists []. reflexivity.
           ++ exists [Delayed (2 ^ Z.of_nat attempt * 1000)]. rewrite <- app_assoc. reflexivity.
Qed.

(** The loop only adds to the trace. *)
Lemma loop_trace_extends {A : Type} (endpoint : nat -> FetchOutcome A) url maxRetries :
  forall remaining attempt st,
  exists rest,
    trace (snd (makeApiCall_loop endpoint url maxRetries remaining attempt st))
    = (trace st ++ rest)%list.
Proof.
  induction remaining as [| remaining IH]; intros attempt st.
  - exists []. cbn. symmetry. apply app_nil_r.
  - cbn [makeApiCall_loop]. unfold bind at 1.
    destruct (pass_trace endpoint url maxRetries attempt st) as [rest1 Hpass].
    destruct (try_catch (attempt_try endpoint url attempt)
                        (attempt_catch maxRetries attempt) st) as [[r | e] st1].
    + destruct r as [body |].
      * exists (Fetched url :: rest1). exact Hpass.
      * destruct (IH (S attempt) st1) as [rest2 Hrest]. cbn in Hpass.
        exists ((Fetched url :: rest1) ++ rest2)%list.
        rewrite Hrest, Hpass. rewrite <- app_assoc. reflexivity.
    + exists (Fetched url :: rest1). exact Hpass.
Qed.

(** With at least one attempt allowed, [makeApiCall] issues a request. *)
Lemma makeApiCall_issues_request {A : Type} (endpoint : nat -> FetchOutcome A) url maxRetries st :
  (0 < maxRetries)%nat ->
  exists rest,
    trace (snd (makeApiCall endpoint url maxRetries st))
    = (trace st ++ Fetched url :: rest)%list.
Proof.
  intros Hpos. unfold makeApiCall.
  destruct maxRetries as [| k]; [lia |].
  cbn [makeApiCall_loop]. unfold bind at 1.
  destruct (pass_trace endpoint url (S k) 1 st) as [rest1 Hpass].
  destruct (try_catch (attempt_try endpoint url 1)
                      (attempt_catch (S k) 1) st) as [[r | e] st1].
  - destruct r as [body |].
    + exists rest1. exact Hpass.
    + destruct (loop_trace_extends endpoint url (S k) k 2 st1) as [rest2 Hrest].
      cbn in Hpass. exists (rest1 ++ rest2)%list.
      rewrite Hrest, Hpass. rewrite <- app_assoc. reflexivity.
  - exists rest1. exact Hpass.
Qed.

(** ** Maps *)

Lemma JsMap_get_set_same {V : Type} (m : JsMap.t V) k v :
  JsMap.get (JsMap.set m k v) k = Some v.
Proof.
  induction m as [| [k' v'] m IH]; cbn.
  - rewrite String.eqb_refl. reflexivity.
  - destruct (k' =? k) eqn:E; cbn.
    + rewrite String.eqb_refl. reflexivity.
    + rewrite E. exact IH.
Qed.

Lemma JsMap_get_set_other {V : Type} (m : JsMap.t V) k k' v :
  k <> k' -> JsMap.get (JsMap.set m k v) k' = JsMap.get m k'.
Proof.
  intros Hne. induction m as [| [k0 v0] m IH]; cbn.
  - destruct (String.eqb_spec k k'); [contradiction | reflexivity].
  - destruct (String.eqb_spec k0 k) as [-> | Hk]; cbn.
    + destruct (String.eqb_spec k k'); [contradiction | reflexivity].
    + destruct (k0 =? k'); [reflexivity | exact IH].
Qed.

Lemma JsMap_has_set_same {V : Type} (m : JsMap.t V) k v :
  JsMap.has (JsMap.set m k v) k = true.
Proof. unfold JsMap.has. rewrite JsMap_get_set_same. reflexivity. Qed.

Lemma JsMap_has_set_mono {V : Type} (m : JsMap.t V) k k' v :
  JsMap.has m k' = true -> JsMap.has (JsMap.set m k v) k' = true.
Proof.
  intros H. destruct (String.eqb_spec k k') as [-> | Hne].
  - apply JsMap_has_set_same.
  - unfold JsMap.has in *. rewrite JsMap_get_set_other by exact Hne. exact H.
Qed.

Lemma JsMap_values_set {V : Type} (m : JsMap.t V) k v x :
  In x (JsMap.values (JsMap.set m k v)) -> x = v \/ In x (JsMap.values m).
Proof.
  unfold JsMap.values. induction m as [| [k' v'] m IH]; cbn.
  - intros [H | []]. left. symmetry. exact H.
  - destruct (k' =? k); cbn.
    + intros [H | H]; [left; symmetry; exact H | right; right; exact H].
    + intros [H | H]; [right; left; exact H |].
      destruct (IH H) as [H' | H']; [left; exact H' | right; right; exact H'].
Qed.

(** ** Grouping of the stops *)

Lemma truthy_number a :
  truthy a = true -> exists q, a = Number q /\ ~ q == 0.
Proof.
  destruct a as [| | q]; cbn; try discriminate.
  intros H. exists q. split; [reflexivity |].
  intros Hq. apply Qeq_bool_iff in Hq. rewrite Hq in H. discriminate.
Qed.

Lemma truthy_false_iff a : truthy a = false <-> lacks_value a.
Proof.
  unfold lacks_value. destruct a as [| | q]; cbn.
  - split; auto.
  - split; auto.
  - rewrite negb_false_iff, Qeq_bool_iff. split.
    + intros H. right. right. exists q. split; [reflexivity | exact H].
    + intros [H | [H | [q' [H Hq]]]]; try discriminate. injection H as ->. exact Hq.
Qed.

Lemma has_coordinates_false_iff stop :
  has_coordinates stop = false <->
  lacks_value (latitude (attributes stop)) \/ lacks_value (longitude (attributes stop)).
Proof.
  unfold has_coordinates. rewrite andb_false_iff, !truthy_false_iff. reflexivity.
Qed.

Lemma createStationKey_defined stop :
  has_coordinates stop = true -> exists key, createStationKey stop = Returned key.
Proof.
  unfold has_coordinates, createStationKey. intros H.
  apply andb_true_iff in H. destruct H as [Hlat Hlon].
  destruct (truthy_number _ Hlat) as [la [-> _]].
  destruct (truthy_number _ Hlon) as [lo [-> _]].
  cbn. eexists. reflexivity.
Qed.

Lemma JsMap_set_set {V : Type} (m : JsMap.t V) k v0 v :
  JsMap.set (JsMap.set m k v0) k v = JsMap.set m k v.
Proof.
  induction m as [| [k' v'] m IH]; cbn.
  - rewrite String.eqb_refl. reflexivity.
  - destruct (k' =? k) eqn:E; cbn.
    + rewrite String.eqb_refl. reflexivity.
    + rewrite E, IH. reflexivity.
Qed.

(** What the body of the grouping loop does to the map. *)
Lemma addStop_spec stationGroups stop key :
  createStationKey stop = Returned key ->
  addStop stationGroups stop =
    Returned (JsMap.set stationGroups key
                (joined_group (JsMap.get stationGroups key) stop)).
Proof.
  intros Hkey. unfold addStop. rewrite Hkey. unfold JsMap.has.
  destruct (JsMap.get stationGroups key) as [g |] eqn:Hg; cbn.
  - rewrite Hg. reflexivity.
  - rewrite JsMap_get_set_same, JsMap_set_set. reflexivity.
Qed.

Lemma addStop_defined stationGroups stop :
  has_coordinates stop = true ->
  groups_inhabited stationGroups ->
  exists stationGroups',
    addStop stationGroups stop = Returned stationGroups' /\
    groups_inhabited stationGroups'.
Proof.
  intros Hc Hinh.
  destruct (createStationKey_defined stop Hc) as [key Hkey].
  rewrite (addStop_spec _ _ _ Hkey).
  eexists. split; [reflexivity |].
  intros x Hx. apply JsMap_values_set in Hx. destruct Hx as [-> | Hx].
  - destruct (JsMap.get stationGroups key) as [g |]; cbn; [| discriminate].
    intros Habs. apply app_eq_nil in Habs. destruct Habs as [_ Habs]. discriminate.
  - apply Hinh. exact Hx.
Qed.

Lemma addStops_defined stops :
  forall stationGroups,
    Forall (fun stop => has_coordinates stop = true) stops ->
    groups_inhabited stationGroups ->
    exists stationGroups',
      addStops stationGroups stops = Returned stationGroups' /\
      groups_inhabited stationGroups'.
Proof.
  induction stops as [| stop rest IH]; intros stationGroups Hall Hinh; cbn.
  - exists stationGroups. split; [reflexivity | exact Hinh].
  - inversion Hall as [| ? ? Hstop Hrest]; subst.
    destruct (addStop_defined stationGroups stop Hstop Hinh) as [m1 [-> Hinh1]].
    apply IH; assumption.
Qed.

Lemma addStops_flag stops :
  forall stationGroups stationGroups',
    addStops stationGroups stops = Returned stationGroups' ->
    (forall g, In g (JsMap.values stationGroups) -> flag_of_first_stop g) ->
    forall g, In g (JsMap.values stationGroups') -> flag_of_first_stop g.
Proof.
  induction stops as [| stop rest IH]; intros m m' Hrun Hinv; cbn [addStops] in Hrun.
  - injection Hrun as <-. exact Hinv.
  - destruct (createStationKey stop) as [key | e] eqn:Hkey.
    + rewrite (addStop_spec m stop key Hkey) in Hrun.
      apply (IH _ _ Hrun). intros g Hg. apply JsMap_values_set in Hg.
      destruct Hg as [-> | Hg]; [| apply Hinv; exact Hg].
      destruct (JsMap.get m key) as [g0 |] eqn:Hget; [| reflexivity].
      assert (Hg0 : flag_of_first_stop g0).
      { apply Hinv. unfold JsMap.values. clear - Hget.
        induction m as [| [k v] m IHm]; cbn in *; [discriminate |].
        destruct (k =? key); [injection Hget as ->; left; reflexivity | right; auto]. }
      unfold flag_of_first_stop in *. cbn.
      destruct (StationGroup.stops g0); [contradiction | exact Hg0].
    + unfold addStop in Hrun. rewrite Hkey in Hrun. discriminate.
Qed.

(** Whatever the stops of a group report, the group is accessible exactly
    when the first of them reports wheelchair_boarding = 1. *)
Lemma groupStops_flag stops stationGroups g :
  groupStops stops = Returned stationGroups ->
  In g (JsMap.values stationGroups) ->
  flag_of_first_stop g.
Proof.
  intros Hrun Hg. apply (addStops_flag _ _ _ Hrun); [intros g0 [] | exact Hg].
Qed.

(** Grouping never throws, and leaves no empty group. *)
Lemma groupStops_defined stops :
  exists stationGroups,
    groupStops stops = Returned stationGroups /\ groups_inhabited stationGroups.
Proof.
  unfold groupStops. apply addStops_defined.
  - apply Forall_forall. intros stop Hin. apply filter_In in Hin. apply Hin.
  - intros g [].
Qed.


(** ** Order on numbers *)

Lemma num_ltb_true a b :
  num_ltb a b = true <-> exists x y, a = Num x /\ b = Num y /\ (x < y)%Q.
Proof.
  destruct a as [| x], b as [| y]; cbn.
  1-3: split; [discriminate | intros [x0 [y0 [H1 [H2 _]]]]; discriminate].
  rewrite negb_true_iff. split.
  - intros H. exists x, y. repeat split.
    apply Qnot_le_lt. intros Hle. apply Qle_bool_iff in Hle. congruence.
  - intros [x0 [y0 [H1 [H2 Hlt]]]]. injection H1 as <-. injection H2 as <-.
    destruct (Qle_bool y x) eqn:E; [| reflexivity].
    apply Qle_bool_iff in E. exfalso. apply (Qlt_not_le _ _ Hlt E).
Qed.

Lemma num_leb_true a b :
  num_leb a b = true <-> exists x y, a = Num x /\ b = Num y /\ (x <= y)%Q.
Proof.
  destruct a as [| x], b as [| y]; cbn.
  1-3: split; [discriminate | intros [x0 [y0 [H1 [H2 _]]]]; discriminate].
  rewrite Qle_bool_iff. split.
  - intros H. exists x, y. repeat split. exact H.
  - intros [x0 [y0 [H1 [H2 Hle]]]]. injection H1 as <-. injection H2 as <-. exact Hle.
Qed.

Lemma num_ltb_irrefl a : num_ltb a a = false.
Proof.
  destruct (num_ltb a a) eqn:E; [| reflexivity].
  apply num_ltb_true in E. destruct E as [x [y [H1 [H2 Hlt]]]].
  rewrite H1 in H2. injection H2 as <-. exfalso. apply (Qlt_irrefl _ Hlt).
Qed.

Lemma num_ltb_trans a b c :
  num_ltb a b = true -> num_ltb b c = true -> num_ltb a c = true.
Proof.
  rewrite !num_ltb_true.
  intros [x [y [-> [-> Hxy]]]] [y' [z [Hy [-> Hyz]]]]. injection Hy as <-.
  exists x, z. repeat split. apply (Qlt_trans _ _ _ Hxy Hyz).
Qed.

Lemma num_ltb_asym a b : num_ltb a b = true -> num_ltb b a = false.
Proof.
  intros H. destruct (num_ltb b a) eqn:E; [| reflexivity].
  pose proof (num_ltb_trans _ _ _ H E) as Haa. rewrite num_ltb_irrefl in Haa. discriminate.
Qed.

(** Among numbers (no NaN), [<] false one way means [<=] the other way. *)
Lemma num_ltb_false_leb x y : num_ltb (Num x) (Num y) = false -> num_leb (Num y) (Num x) = true.
Proof. cbn. intros H. apply negb_false_iff in H. exact H. Qed.

Lemma num_leb_trans a b c :
  num_leb a b = true -> num_leb b c = true -> num_leb a c = true.
Proof.
  rewrite !num_leb_true.
  intros [x [y [-> [-> Hxy]]]] [y' [z [Hy [-> Hyz]]]]. injection Hy as <-.
  exists x, z. repeat split. apply (Qle_trans _ _ _ Hxy Hyz).
Qed.

Lemma num_leb_not_ltb a b : num_leb a b = true -> num_ltb b a = false.
Proof.
  intros H. apply num_leb_true in H. destruct H as [x [y [-> [-> Hle]]]].
  cbn. apply negb_false_iff. apply Qle_bool_iff. exact Hle.
Qed.

(** ** Maps of routes keyed by route id *)

Lemma JsMap_entries_set {V : Type} (m : JsMap.t V) k v k' v' :
  In (k', v') (JsMap.set m k v) -> (k', v') = (k, v) \/ In (k', v') m.
Proof.
  induction m as [| [k0 v0] m IH]; cbn.
  - intros [H | []]. left. symmetry. exact H.
  - destruct (k0 =? k); cbn.
    + intros [H | H]; [left; symmetry; exact H | right; right; exact H].
    + intros [H | H]; [right; left; exact H |].
      destruct (IH H) as [H' | H']; [left; exact H' | right; right; exact H'].
Qed.

Lemma JsMap_keys_set {V : Type} (m : JsMap.t V) k v k' :
  In k' (JsMap.keys (JsMap.set m k v)) <-> k' = k \/ In k' (JsMap.keys m).
Proof.
  unfold JsMap.keys. induction m as [| [k0 v0] m IH]; cbn.
  - split; [intros [H | []]; left; symmetry; exact H | intros [H | []]; left; symmetry; exact H].
  - destruct (String.eqb_spec k0 k) as [-> | Hne]; cbn.
    + split; [intros [H | H]; [left; symmetry; exact H | right; right; exact H] |].
      intros [H | [H | H]]; [left | left | right]; try (symmetry; exact H); exact H.
    + rewrite IH. split.
      * intros [H | [H | H]]; [right; left; exact H | left; exact H | right; right; exact H].
      * intros [H | [H | H]]; [right; left; exact H | left; exact H | right; right; exact H].
Qed.

Lemma JsMap_keys_set_NoDup {V : Type} (m : JsMap.t V) k v :
  NoDup (JsMap.keys m) -> NoDup (JsMap.keys (JsMap.set m k v)).
Proof.
  unfold JsMap.keys. induction m as [| [k0 v0] m IH]; cbn; intros Hnd.
  - constructor; [intros [] | constructor].
  - inversion Hnd as [| ? ? Hnotin Hrest]; subst.
    destruct (String.eqb_spec k0 k) as [-> | Hne]; cbn.
    + constructor; assumption.
    + constructor; [| apply IH; exact Hrest].
      intros Hin. apply (JsMap_keys_set m k v k0) in Hin.
      destruct Hin as [Heq | Hin]; [apply Hne; exact Heq | apply Hnotin; exact Hin].
Qed.

Lemma JsMap_has_keys {V : Type} (m : JsMap.t V) k :
  JsMap.has m k = true <-> In k (JsMap.keys m).
Proof.
  unfold JsMap.has, JsMap.keys. induction m as [| [k0 v0] m IH]; cbn.
  - split; [discriminate | intros []].
  - destruct (String.eqb_spec k0 k) as [-> | Hne].
    + split; [intros _; left; reflexivity | reflexivity].
    + rewrite IH. split; [intros H; right; exact H |].
      intros [H | H]; [contradiction | exact H].
Qed.

Lemma well_keyed_set m route :
  well_keyed m -> well_keyed (JsMap.set m (RouteInfo.id route) route).
Proof.
  intros Hwk k v Hin. apply JsMap_entries_set in Hin.
  destruct Hin as [Heq | Hin]; [injection Heq as -> ->; reflexivity | apply Hwk; exact Hin].
Qed.

Lemma well_keyed_ids m :
  well_keyed m -> map RouteInfo.id (JsMap.values m) = JsMap.keys m.
Proof.
  unfold JsMap.values, JsMap.keys. induction m as [| [k v] m IH]; intros Hwk; cbn.
  - reflexivity.
  - rewrite (Hwk k v (or_introl eq_refl)). f_equal. apply IH.
    intros k' v' Hin. apply Hwk. right. exact Hin.
Qed.

(** What a map of routes is after the routes of a list were entered, each
    under its id, or each unless its id was present ([keep = true]). *)
Lemma enter_routes (keep : bool) (routes : list RouteInfo.t) :
  forall m,
    let m' :=
      fold_left (fun m route =>
                   if keep && JsMap.has m (RouteInfo.id route) then m
                   else JsMap.set m (RouteInfo.id route) route)
                routes m in
    (NoDup (JsMap.keys m) -> NoDup (JsMap.keys m')) /\
    (well_keyed m -> well_keyed m') /\
    (forall k, In k (JsMap.keys m') <->
               In k (JsMap.keys m) \/ In k (map RouteInfo.id routes)) /\
    (forall v, In v (JsMap.values m') -> In v (JsMap.values m) \/ In v routes).
Proof.
  induction routes as [| route rest IH]; intros m; cbn.
  - repeat split; auto. intros [H | []]. exact H.
  - set (m1 := if keep && JsMap.has m (RouteInfo.id route) then m
               else JsMap.set m (RouteInfo.id route) route).
    destruct (IH m1) as [Hnd [Hwk [Hkeys Hvals]]].
    assert (Hk1 : forall k, In k (JsMap.keys m1) <->
                            In k (JsMap.keys m) \/ k = RouteInfo.id route).
    { intros k. subst m1.
      destruct (keep && JsMap.has m (RouteInfo.id route)) eqn:E.
      - apply andb_true_iff in E. destruct E as [_ E]. apply JsMap_has_keys in E.
        split; [intros H; left; exact H | intros [H | ->]; assumption].
      - rewrite JsMap_keys_set. tauto. }
    repeat split.
    + intros H. apply Hnd. subst m1.
      destruct (keep && JsMap.has m (RouteInfo.id route)); [exact H |].
      apply JsMap_keys_set_NoDup. exact H.
    + intros H. apply Hwk. subst m1.
      destruct (keep && JsMap.has m (RouteInfo.id route)); [exact H |].
      apply well_keyed_set. exact H.
    + intros H. apply Hkeys in H. rewrite Hk1 in H.
      destruct H as [[H | H] | H]; [left; exact H | right; left; symmetry; exact H |
                                   right; right; exact H].
    + intros H. apply Hkeys. rewrite Hk1.
      destruct H as [H | [H | H]]; [left; left; exact H | left; right; symmetry; exact H |
                                   right; exact H].
    + intros v H. apply Hvals in H. destruct H as [H | H]; [| right; right; exact H].
      subst m1. destruct (keep && JsMap.has m (RouteInfo.id route)); [left; exact H |].
      apply JsMap_values_set in H. destruct H as [-> | H]; [right; left; reflexivity | left; exact H].
Qed.

(** The merged routes: one route per id, the ids being those of either
    side, each route taken from one side. *)
Lemma mergeRoutes_union existing incoming :
  let merged := mergeRoutes existing incoming in
  NoDup (map RouteInfo.id merged) /\
  (forall i, In i (map RouteInfo.id merged) <->
             In i (map RouteInfo.id existing) \/ In i (map RouteInfo.id incoming)) /\
  (forall route, In route merged -> In route existing \/ In route incoming).
Proof.
  unfold mergeRoutes.
  set (m1 := fold_left (fun m route => JsMap.set m (RouteInfo.id route) route)
                       existing JsMap.empty).
  set (m2 := fold_left _ incoming m1).
  destruct (enter_routes false existing JsMap.empty) as [Hnd1 [Hwk1 [Hk1 Hv1]]].
  cbn [andb] in Hnd1, Hwk1, Hk1, Hv1. fold m1 in Hnd1, Hwk1, Hk1, Hv1.
  assert (Hm2 : m2 = fold_left (fun m route =>
                   if true && JsMap.has m (RouteInfo.id route) then m
                   else JsMap.set m (RouteInfo.id route) route) incoming m1).
  { subst m2. clear. generalize m1. induction incoming as [| r rest IH]; intros m; cbn.
    - reflexivity.
    - destruct (JsMap.has m (RouteInfo.id r)); cbn; apply IH. }
  destruct (enter_routes true incoming m1) as [Hnd2 [Hwk2 [Hk2 Hv2]]].
  rewrite <- Hm2 in Hnd2, Hwk2, Hk2, Hv2.
  assert (Hwk : well_keyed m2) by (apply Hwk2, Hwk1; intros k v []).
  rewrite (well_keyed_ids m2 Hwk). repeat split.
  - apply Hnd2, Hnd1. constructor.
  - intros H. apply Hk2 in H. destruct H as [H | H]; [| right; exact H].
    apply Hk1 in H. destruct H as [[] | H]. left. exact H.
  - intros H. apply Hk2. destruct H as [H | H]; [left; apply Hk1; right; exact H | right; exact H].
  - intros route H. apply Hv2 in H. destruct H as [H | H]; [| right; exact H].
    apply Hv1 in H. destruct H as [[] | H]. left. exact H.
Qed.

(** ** Merge of the stations of one name *)

Lemma nameKey_mergeStation e s : nameKey (mergeStation e s) = nameKey e.
Proof. reflexivity. Qed.

(** The later stations of a name merged, in order, into the first. *)
Lemma merge_fold_spec (later : list Station.t) :
  forall first,
    let m := fold_left mergeStation later first in
    (Station.id m = Station.id first /\
     Station.name m = Station.name first /\
     Station.hasRouteData m = Station.hasRouteData first) /\
    (Station.wheelchair_accessible m =
       Station.wheelchair_accessible first ||
       existsb Station.wheelchair_accessible later) /\
    ((Station.distance m = Station.distance first \/
      num_ltb (Station.distance m) (Station.distance first) = true) /\
     forall s, In s (first :: later) ->
               num_ltb (Station.distance s) (Station.distance m) = false) /\
    (exists s, In s (first :: later) /\
               Station.distance m = Station.distance s /\
               Station.latitude m = Station.latitude s /\
               Station.longitude m = Station.longitude s) /\
    (forall i, In i (routeIds m) <->
               exists s, In s (first :: later) /\ In i (routeIds s)) /\
    (forall route, In route (Station.routes m) ->
                   exists s, In s (first :: later) /\ In route (Station.routes s)) /\
    (later <> [] -> NoDup (routeIds m)).
Proof.
  induction later as [| x rest IH]; intros first; cbn zeta.
  - cbn [fold_left]. repeat split.
    + rewrite orb_false_r. reflexivity.
    + left. reflexivity.
    + intros s [<- | []]. apply num_ltb_irrefl.
    + exists first. repeat split. left. reflexivity.
    + intros H. exists first. split; [left; reflexivity | exact H].
    + intros [s [[<- | []] H]]. exact H.
    + intros route H. exists first. split; [left; reflexivity | exact H].
    + intros H. contradiction.
  - cbn [fold_left].
    destruct (IH (mergeStation first x))
      as [[Hid [Hname Hflag]] [Hwa [[Hmin Hnone] [Hfrom [Hids [Hroutes Hnd]]]]]].
    set (m := fold_left mergeStation rest (mergeStation first x)) in *.
    destruct (mergeRoutes_union (Station.routes first) (Station.routes x))
      as [Und [Uids Ufrom]].
    split; [| split; [| split; [| split; [| split; [| split]]]]].
    + repeat split; assumption.
    + rewrite Hwa. cbn.
      destruct (Station.wheelchair_accessible x),
               (Station.wheelchair_accessible first); reflexivity.
    + (* nobody of the name is strictly closer than the merged station *)
      cbn [Station.distance mergeStation] in Hmin.
      assert (Hx : num_ltb (Station.distance x) (Station.distance first) = true ->
                   Station.distance m = Station.distance x \/
                   num_ltb (Station.distance m) (Station.distance x) = true).
      { intros E. rewrite E in Hmin. exact Hmin. }
      assert (Hf : num_ltb (Station.distance x) (Station.distance first) = false ->
                   Station.distance m = Station.distance first \/
                   num_ltb (Station.distance m) (Station.distance first) = true).
      { intros E. rewrite E in Hmin. exact Hmin. }
      destruct (num_ltb (Station.distance x) (Station.distance first)) eqn:E.
      * destruct (Hx eq_refl) as [Hm | Hm].
        -- split; [right; rewrite Hm; exact E |].
           intros s [<- | [<- | Hin]].
           ++ rewrite Hm. apply num_ltb_asym. exact E.
           ++ rewrite Hm. apply num_ltb_irrefl.
           ++ apply Hnone. right. exact Hin.
        -- split; [right; apply (num_ltb_trans _ _ _ Hm E) |].
           intros s [<- | [<- | Hin]].
           ++ apply num_ltb_asym. apply (num_ltb_trans _ _ _ Hm E).
           ++ apply num_ltb_asym. exact Hm.
           ++ apply Hnone. right. exact Hin.
      * destruct (Hf eq_refl) as [Hm | Hm].
        -- split; [left; exact Hm |].
           intros s [<- | [<- | Hin]].
           ++ rewrite Hm. apply num_ltb_irrefl.
           ++ rewrite Hm. exact E.
           ++ apply Hnone. right. exact Hin.
        -- split; [right; exact Hm |].
           intros s [<- | [<- | Hin]].
           ++ apply num_ltb_asym. exact Hm.
           ++ destruct (num_ltb (Station.distance x) (Station.distance m)) eqn:E2;
                [| reflexivity].
              rewrite (num_ltb_trans _ _ _ E2 Hm) in E. discriminate.
           ++ apply Hnone. right. exact Hin.
    + destruct Hfrom as [s [[<- | Hin] [Hd [Hla Hlo]]]].
      * cbn in Hd, Hla, Hlo.
        destruct (num_ltb (Station.distance x) (Station.distance first)).
        -- exists x. repeat split; try assumption. right. left. reflexivity.
        -- exists first. repeat split; try assumption. left. reflexivity.
      * exists s. repeat split; try assumption. right. right. exact Hin.
    + intros i. rewrite Hids. split.
      * intros [s [[<- | Hin] Hi]].
        -- unfold routeIds in Hi. cbn in Hi. apply Uids in Hi. destruct Hi as [Hi | Hi].
           ++ exists first. split; [left; reflexivity | exact Hi].
           ++ exists x. split; [right; left; reflexivity | exact Hi].
        -- exists s. split; [right; right; exact Hin | exact Hi].
      * intros [s [[<- | [<- | Hin]] Hi]].
        -- exists (mergeStation first x). split; [left; reflexivity |].
           unfold routeIds. cbn. apply Uids. left. exact Hi.
        -- exists (mergeStation first x). split; [left; reflexivity |].
           unfold routeIds. cbn. apply Uids. right. exact Hi.
        -- exists s. split; [right; exact Hin | exact Hi].
    + intros route H. apply Hroutes in H. destruct H as [s [[<- | Hin] Hr]].
      * cbn in Hr. apply Ufrom in Hr. destruct Hr as [Hr | Hr].
        -- exists first. split; [left; reflexivity | exact Hr].
        -- exists x. split; [right; left; reflexivity | exact Hr].
      * exists s. split; [right; right; exact Hin | exact Hr].
    + intros _. destruct rest as [| y rest'].
      * subst m. cbn [fold_left]. exact Und.
      * apply Hnd. discriminate.
Qed.

(** ** The reducer over the whole list *)

Lemma lookupName_mergeInto key unique station :
  lookupName key (mergeInto unique station) =
    if nameKey station =? key then
      Some (match lookupName key unique with
            | Some existing => mergeStation existing station
            | None => station
            end)
    else lookupName key unique.
Proof.
  unfold lookupName. induction unique as [| e rest IH]; cbn [mergeInto find].
  - destruct (nameKey station =? key); reflexivity.
  - destruct (String.eqb_spec (nameKey e) (nameKey station)) as [Heq | Hne]; cbn [find].
    + rewrite nameKey_mergeStation, Heq.
      destruct (nameKey station =? key); reflexivity.
    + destruct (String.eqb_spec (nameKey e) key) as [Hek | Hek].
      * destruct (String.eqb_spec (nameKey station) key) as [Hsk | Hsk]; [| reflexivity].
        exfalso. apply Hne. congruence.
      * exact IH.
Qed.

Lemma mergeStations_snoc l station :
  mergeStations (l ++ [station]) = mergeInto (mergeStations l) station.
Proof. unfold mergeStations. rewrite fold_left_app. reflexivity. Qed.

(** The merged list holds, under each name, the first station of the name
    with the later ones merged into it. *)
Lemma lookupName_mergeStations key l :
  lookupName key (mergeStations l) = mergedFor key l.
Proof.
  induction l as [| station l IH] using rev_ind.
  - reflexivity.
  - rewrite mergeStations_snoc, lookupName_mergeInto, IH.
    unfold mergedFor, namesakes. rewrite filter_app. cbn [filter].
    destruct (nameKey station =? key).
    + destruct (filter (fun s => nameKey s =? key) l) as [| first later]; cbn.
      * reflexivity.
      * rewrite fold_left_app. reflexivity.
    + rewrite app_nil_r. reflexivity.
Qed.

Lemma keys_mergeInto unique station :
  map nameKey (mergeInto unique station) =
    if absent (map nameKey unique) (nameKey station)
    then (map nameKey unique ++ [nameKey station])%list
    else map nameKey unique.
Proof.
  unfold absent. induction unique as [| e rest IH]; cbn [mergeInto map existsb].
  - reflexivity.
  - destruct (nameKey e =? nameKey station) eqn:E; cbn [map orb negb].
    + rewrite nameKey_mergeStation. reflexivity.
    + rewrite IH. destruct (negb (existsb _ (map nameKey rest))); reflexivity.
Qed.

Lemma filter_absent_snoc keys k (l : list string) :
  filter (absent (keys ++ [k])) l = filter (absent keys) (filter (fun k' => negb (k' =? k)) l).
Proof.
  induction l as [| x l IH]; cbn [filter]; [reflexivity |].
  unfold absent at 1. rewrite existsb_app. cbn [existsb]. rewrite orb_false_r.
  rewrite negb_orb. fold (absent keys x). rewrite (String.eqb_sym k x).
  destruct (negb (x =? k)); cbn [filter].
  - rewrite andb_true_r. destruct (absent keys x); rewrite IH; reflexivity.
  - rewrite andb_false_r. exact IH.
Qed.

Lemma filter_absent_present keys k (l : list string) :
  absent keys k = false ->
  filter (absent keys) l = filter (absent keys) (filter (fun k' => negb (k' =? k)) l).
Proof.
  intros Hk. induction l as [| x l IH]; cbn [filter]; [reflexivity |].
  destruct (String.eqb_spec x k) as [-> | Hne]; cbn [negb filter].
  - rewrite Hk. exact IH.
  - destruct (absent keys x); rewrite IH; reflexivity.
Qed.

Lemma keys_fold_mergeInto l :
  forall unique,
    map nameKey (fold_left mergeInto l unique) =
      (map nameKey unique ++
       filter (absent (map nameKey unique)) (first_occurrences (map nameKey l)))%list.
Proof.
  induction l as [| station l IH]; intros unique; cbn [fold_left map first_occurrences].
  - cbn. rewrite app_nil_r. reflexivity.
  - rewrite IH, keys_mergeInto. cbn [filter].
    destruct (absent (map nameKey unique) (nameKey station)) eqn:E.
    + rewrite <- app_assoc. cbn [app]. rewrite filter_absent_snoc. reflexivity.
    + rewrite <- (filter_absent_present _ _ _ E). reflexivity.
Qed.

(** One station per name, where the name first occurs. *)
Lemma keys_mergeStations l :
  map nameKey (mergeStations l) = first_occurrences (map nameKey l).
Proof.
  unfold mergeStations. rewrite keys_fold_mergeInto. cbn.
  induction (first_occurrences (map nameKey l)) as [| k ks IH]; cbn; [reflexivity |].
  f_equal. exact IH.
Qed.

Lemma first_occurrences_In keys k :
  In k (first_occurrences keys) -> In k keys.
Proof.
  induction keys as [| k0 rest IH]; cbn; [auto |].
  intros [H | H]; [left; exact H |]. apply filter_In in H. right. apply IH, H.
Qed.

Lemma first_occurrences_NoDup keys : NoDup (first_occurrences keys).
Proof.
  induction keys as [| k rest IH]; cbn; constructor.
  - intros Hin. apply filter_In in Hin. destruct Hin as [_ Hne].
    rewrite String.eqb_refl in Hne. discriminate.
  - apply NoDup_filter. exact IH.
Qed.

Lemma find_hd_filter {X : Type} (p : X -> bool) (l : list X) :
  find p l = hd_error (filter p l).
Proof.
  induction l as [| x l IH]; cbn; [reflexivity |]. destruct (p x); [reflexivity | exact IH].
Qed.

(** C8. Two stations of the pre-merge list whose names are equal up to
    case and surrounding white space end up in a single station of the
    merged list. That station stands where the name first occurs and keeps
    the id and name of the first station of the name; its routes are the
    routes of the stations of the name, one per route id; no station of the
    name is closer than it, and its distance and coordinate are those of
    one of them; it is accessible exactly when one of them is. *)
Theorem mergeStations_merges_namesakes :
  forall (l l1 l2 l3 : list Station.t) (a b : Station.t),
    l = (l1 ++ a :: l2 ++ b :: l3)%list ->
    nameKey a = nameKey b ->
    map nameKey (mergeStations l) = first_occurrences (map nameKey l) /\
    NoDup (map nameKey (mergeStations l)) /\
    exists m first,
      In m (mergeStations l) /\ nameKey m = nameKey a /\
      find (fun s => nameKey s =? nameKey a) l = Some first /\
      Station.id m = Station.id first /\ Station.name m = Station.name first /\
      (* routes: the union, one per id *)
      (forall i, In i (routeIds m) <-> exists s, namesake_in l a s /\ In i (routeIds s)) /\
      (forall route, In route (Station.routes m) ->
                     exists s, namesake_in l a s /\ In route (Station.routes s)) /\
      NoDup (routeIds m) /\
      (* distance and coordinate: those of the closest *)
      (forall s, namesake_in l a s ->
                 num_ltb (Station.distance s) (Station.distance m) = false) /\
      (exists s, namesake_in l a s /\
                 Station.distance m = Station.distance s /\
                 Station.latitude m = Station.latitude s /\
                 Station.longitude m = Station.longitude s) /\
      (* accessibility: the disjunction *)
      (Station.wheelchair_accessible m = true <->
       exists s, namesake_in l a s /\ Station.wheelchair_accessible s = true).
Proof.
  intros l l1 l2 l3 a b Hl Hab.
  split; [apply keys_mergeStations |].
  split; [rewrite keys_mergeStations; apply first_occurrences_NoDup |].
  pose proof (lookupName_mergeStations (nameKey a) l) as Hlook.
  unfold mergedFor in Hlook.
  assert (Hsame : forall s, In s (namesakes (nameKey a) l) <-> namesake_in l a s).
  { intros s. unfold namesakes, namesake_in. rewrite filter_In.
    split; intros [H1 H2]; (split; [exact H1 |]);
      [apply String.eqb_eq; exact H2 | apply String.eqb_eq; exact H2]. }
  assert (Hlen : (2 <= List.length (namesakes (nameKey a) l))%nat).
  { unfold namesakes. rewrite Hl, filter_app. cbn [filter].
    rewrite String.eqb_refl, filter_app. cbn [filter].
    rewrite <- Hab, String.eqb_refl.
    rewrite length_app. cbn [List.length]. rewrite length_app. cbn [List.length]. lia. }
  pose proof (find_hd_filter (fun s => nameKey s =? nameKey a) l) as Hfirst.
  fold (namesakes (nameKey a) l) in Hfirst.
  destruct (namesakes (nameKey a) l) as [| first later] eqn:Hns; [cbn in Hlen; lia |].
  assert (Hlater : later <> []) by (intros ->; cbn in Hlen; lia).
  destruct (merge_fold_spec later first)
    as [[Hid [Hname _]] [Hwa [[_ Hnone] [Hfrom [Hids [Hroutes Hnd]]]]]].
  set (m := fold_left mergeStation later first) in *.
  unfold lookupName in Hlook. apply find_some in Hlook. destruct Hlook as [Hin Hkey].
  exists m, first.
  split; [exact Hin |].
  split; [apply String.eqb_eq; exact Hkey |].
  split; [exact Hfirst |].
  split; [exact Hid |]. split; [exact Hname |].
  split; [| split; [| split; [| split; [| split]]]].
  - intros i. rewrite Hids. split; intros [s [Hs Hi]]; exists s; (split; [apply Hsame; exact Hs | exact Hi]).
  - intros route Hr. destruct (Hroutes route Hr) as [s [Hs Hi]].
    exists s. split; [apply Hsame; exact Hs | exact Hi].
  - apply Hnd. exact Hlater.
  - intros s Hs. apply Hnone. apply Hsame. exact Hs.
  - destruct Hfrom as [s [Hs Heqs]]. exists s. split; [apply Hsame; exact Hs | exact Heqs].
  - rewrite Hwa. rewrite orb_true_iff, existsb_exists. split.
    + intros [H | [s [Hs H]]].
      * exists first. split; [apply Hsame; left; reflexivity | exact H].
      * exists s. split; [apply Hsame; right; exact Hs | exact H].
    + intros [s [Hs H]]. apply Hsame in Hs. destruct Hs as [<- | Hs].
      * left. exact H.
      * right. exists s. split; assumption.
Qed.

Lemma mergeStations_merges_namesakes_witness :
  map nameKey (mergeStations [park_street_upper; park_street_lower]) = ["park street"] /\
  map routeIds (mergeStations [park_street_upper; park_street_lower]) = [["Red"; "Green-B"]] /\
  map Station.distance (mergeStations [park_street_upper; park_street_lower])
  = [Num (40 # 100)] /\
  map Station.wheelchair_accessible (mergeStations [park_street_upper; park_street_lower])
  = [true].
Proof.
  pose proof (mergeStations_merges_namesakes
                [park_street_upper; park_street_lower] [] [] []
                park_street_upper park_street_lower eq_refl eq_refl) as H.
  cbn zeta in H. destruct H as [Hkeys _].
  split; [rewrite Hkeys; reflexivity |].
  repeat split; reflexivity.
Defined.

(** ** Sorting by distance *)

Lemma compares_greater_sub x y :
  (compares_greater (num_sub (Num x) (Num y)) = false -> num_leb (Num x) (Num y) = true) /\
  (compares_greater (num_sub (Num x) (Num y)) = true -> num_leb (Num y) (Num x) = true).
Proof.
  unfold compares_greater. cbn [num_sub num_ltb num_leb].
  assert (H1 : x - y + y == x) by ring.
  assert (H2 : 0 + y == y) by ring.
  split; intros H.
  - apply negb_false_iff in H. apply Qle_bool_iff in H. apply Qle_bool_iff.
    apply (Qplus_le_l _ _ y) in H. rewrite H1, H2 in H. exact H.
  - apply negb_true_iff in H. apply Qle_bool_iff.
    destruct (Qlt_le_dec y x) as [Hlt | Hle].
    + apply Qlt_le_weak. exact Hlt.
    + exfalso. assert (Hc : Qle_bool (x - y) 0 = true).
      { apply Qle_bool_iff. apply (Qplus_le_l _ _ y). rewrite H1, H2. exact Hle. }
      congruence.
Qed.

Lemma firstn_In_incl {A : Type} n (l : list A) y : In y (firstn n l) -> In y l.
Proof.
  revert n. induction l as [| x l IH]; intros [| n]; cbn [firstn In]; try tauto.
  intros [H | H]; [left; exact H | right; apply (IH n); exact H].
Qed.

Section SortByDistance.

Context {A : Type}.
Variable distanceOf : A -> number.

Lemma sort_insert_In x l y :
  In y (sort_insert (by_distance distanceOf) x l) <-> y = x \/ In y l.
Proof.
  induction l as [| z l IH]; cbn [sort_insert sort In List.length firstn].
  - split; [intros [H | []]; left; symmetry; exact H | intros [H | []]; left; symmetry; exact H].
  - destruct (compares_greater ((by_distance distanceOf) x z)); cbn [sort_insert sort In List.length firstn].
    + rewrite IH. split.
      * intros [H | [H | H]]; [right; left; exact H | left; exact H | right; right; exact H].
      * intros [H | [H | H]]; [right; left; exact H | left; exact H | right; right; exact H].
    + split.
      * intros [H | H]; [left; symmetry; exact H | right; exact H].
      * intros [H | H]; [left; symmetry; exact H | right; exact H].
Qed.

Lemma sort_In l y : In y (sort (by_distance distanceOf) l) <-> In y l.
Proof.
  induction l as [| x l IH]; cbn [sort_insert sort In List.length firstn]; [reflexivity |].
  rewrite sort_insert_In, IH. split; intros [H | H]; auto.
Qed.

Lemma sort_insert_length x l :
  List.length (sort_insert (by_distance distanceOf) x l) = S (List.length l).
Proof.
  induction l as [| z l IH]; cbn [sort_insert sort In List.length firstn]; [reflexivity |].
  destruct (compares_greater ((by_distance distanceOf) x z)); cbn [sort_insert sort In List.length firstn]; [rewrite IH |]; reflexivity.
Qed.

Lemma sort_insert_ascending x l :
  is_Num (distanceOf x) ->
  Forall (fun a => is_Num (distanceOf a)) l ->
  ascending distanceOf l ->
  ascending distanceOf (sort_insert (by_distance distanceOf) x l).
Proof.
  unfold ascending. intros [qx Hx] Hnum Hsorted.
  induction Hsorted as [| z l Hl IH Hz]; cbn [sort_insert sort In List.length firstn].
  - constructor; [constructor | constructor].
  - inversion Hnum as [| ? ? [qz Hqz] Hnum']; subst.
    unfold by_distance at 1. rewrite Hx, Hqz.
    destruct (compares_greater (num_sub (Num qx) (Num qz))) eqn:E.
    + apply (proj2 (compares_greater_sub qx qz)) in E.
      constructor; [apply IH; exact Hnum' |].
      apply Forall_forall. intros y Hy. apply sort_insert_In in Hy.
      destruct Hy as [-> | Hy].
      * rewrite Hx, Hqz. exact E.
      * rewrite Forall_forall in Hz. apply Hz. exact Hy.
    + apply (proj1 (compares_greater_sub qx qz)) in E.
      constructor; [constructor; assumption |].
      constructor; [rewrite Hx, Hqz; exact E |].
      apply Forall_forall. intros y Hy. rewrite Forall_forall in Hz.
      apply (num_leb_trans _ (distanceOf z)); [rewrite Hx, Hqz; exact E | apply Hz; exact Hy].
Qed.

(** Sorting a list of distances that are numbers puts it in ascending
    order. *)
Lemma sort_ascending l :
  Forall (fun a => is_Num (distanceOf a)) l ->
  ascending distanceOf (sort (by_distance distanceOf) l).
Proof.
  induction l as [| x l IH]; intros Hnum; cbn [sort_insert sort In List.length firstn].
  - constructor.
  - inversion Hnum as [| ? ? Hx Hl]; subst.
    apply sort_insert_ascending; [exact Hx | | apply IH; exact Hl].
    apply Forall_forall. intros y Hy. apply (proj1 (sort_In l y)) in Hy.
    rewrite Forall_forall in Hl. apply Hl. exact Hy.
Qed.

Lemma firstn_ascending n l :
  ascending distanceOf l -> ascending distanceOf (firstn n l).
Proof.
  unfold ascending. intros H. revert n.
  induction H as [| x l Hl IH Hx]; intros [| n]; cbn [sort_insert sort In List.length firstn]; try constructor.
  - apply IH.
  - apply Forall_forall. intros y Hy. rewrite Forall_forall in Hx.
    apply Hx. apply (firstn_In_incl n l y). exact Hy.
Qed.

End SortByDistance.

(** ** Per-stop route detail *)

Section StopRoutes.

Variable w : World.

(** The body of the loop always completes: whatever the request does, the
    stop gets an entry. *)
Lemma fetchStopRoutes_returns allStopIds stopRoutesMap stopId st :
  exists routes st',
    fetchStopRoutes w allStopIds stopRoutesMap stopId st
    = (Returned (JsMap.set stopRoutesMap stopId routes), st').
Proof.
  unfold fetchStopRoutes, try_catch, bind.
  set (call := makeApiCall (stop_routes_endpoint w stopId) (stopRoutesUrl stopId) 2).
  destruct (match hd_error allStopIds with
            | Some first => negb (stopId =? first)
            | None => true
            end); unfold delay, ret, throw; cbv beta iota.
  - destruct (call (after_delay 500 st)) as [[[body |] | e] st1].
    + destruct (data body); eexists; eexists; reflexivity.
    + eexists; eexists; reflexivity.
    + eexists; eexists; reflexivity.
  - destruct (call st) as [[[body |] | e] st1].
    + destruct (data body); eexists; eexists; reflexivity.
    + eexists; eexists; reflexivity.
    + eexists; eexists; reflexivity.
Qed.


(** The loop always completes, with an entry for every stop id. *)
Lemma fetchAllStopRoutes_returns allStopIds todo :
  forall stopRoutesMap st,
  exists stopRoutesMap' st',
    fetchAllStopRoutes w allStopIds todo stopRoutesMap st
    = (Returned stopRoutesMap', st') /\
    (forall k, JsMap.has stopRoutesMap k = true \/ In k todo ->
               JsMap.has stopRoutesMap' k = true).
Proof.
  induction todo as [| stopId rest IH]; intros stopRoutesMap st; cbn [fetchAllStopRoutes].
  - exists stopRoutesMap, st. split; [reflexivity |]. intros k [H | []]. exact H.
  - unfold bind.
    destruct (fetchStopRoutes_returns allStopIds stopRoutesMap stopId st)
      as [routes [st1 ->]].
    destruct (IH (JsMap.set stopRoutesMap stopId routes) st1) as [m' [st' [Hrun Hhas]]].
    exists m', st'. split; [exact Hrun |].
    intros k [H | [<- | H]]; apply Hhas.
    + left. apply JsMap_has_set_mono. exact H.
    + left. apply JsMap_has_set_same.
    + right. exact H.
Qed.

End StopRoutes.

(** ** Stations of the ranked groups *)

Lemma buildStations_spec stopRoutesMap ranked :
  Forall (fun r => StationGroup.stops (stationGroup r) <> []) ranked ->
  exists stations,
    buildStations stopRoutesMap ranked = Returned stations /\
    map Station.distance stations = map distance ranked /\
    ((forall k, In k (collectStopIds ranked) -> JsMap.has stopRoutesMap k = true) ->
     Forall (fun s => Station.hasRouteData s = true) stations).
Proof.
  induction ranked as [| r rest IH]; intros Hinh; cbn [buildStations].
  - exists []. repeat split. constructor.
  - inversion Hinh as [| ? ? Hr Hrest]; subst.
    destruct (IH Hrest) as [stations [-> [Hd Hflags]]].
    unfold buildStation.
    destruct (StationGroup.stops (stationGroup r)) as [| first others] eqn:Hstops;
      [contradiction |].
    eexists. split; [reflexivity |]. split; [cbn; rewrite Hd; reflexivity |].
    intros Hhas. constructor.
    + cbn. rewrite Hhas; [reflexivity |].
      unfold collectStopIds. cbn [flat_map]. apply in_or_app. left.
      rewrite Hstops. left. reflexivity.
    + apply Hflags. intros k Hk. apply Hhas.
      unfold collectStopIds. cbn [flat_map]. apply in_or_app. right. exact Hk.
Qed.

Section Ranking.

Variable calcDist : Q -> Q -> Q -> Q -> number.

(** The ranked groups: at most 3, within the radius, in ascending order of
    distance, each one a group of the map. *)
Lemma rankStations_spec latitude longitude radius stationGroups :
  let ranked := rankStations calcDist latitude longitude radius stationGroups in
  (List.length ranked <= 3)%nat /\
  Forall (fun r => num_leb (distance r) radius = true) ranked /\
  ascending distance ranked /\
  Forall (fun r => In (stationGroup r) (JsMap.values stationGroups)) ranked.
Proof.
  cbn zeta. unfold rankStations, slice0.
  set (mapped := map _ (JsMap.values stationGroups)).
  set (within := filter _ mapped).
  assert (Hin : forall r, In r within ->
                          num_leb (distance r) radius = true /\
                          In (stationGroup r) (JsMap.values stationGroups)).
  { intros r Hr. subst within. apply filter_In in Hr. destruct Hr as [Hr Hle].
    split; [exact Hle |]. subst mapped. apply in_map_iff in Hr.
    destruct Hr as [g [<- Hg]]. exact Hg. }
  assert (Hsorted : forall r, In r (firstn 3 (sort (by_distance distance) within)) ->
                              In r within).
  { intros r Hr. apply firstn_In_incl in Hr. apply (proj1 (sort_In distance within r)). exact Hr. }
  split; [apply firstn_le_length |].
  split; [apply Forall_forall; intros r Hr; apply Hin, Hsorted, Hr |].
  split; [| apply Forall_forall; intros r Hr; apply Hin, Hsorted, Hr].
  apply firstn_ascending. apply (sort_ascending distance).
  apply Forall_forall. intros r Hr. destruct (Hin r Hr) as [Hle _].
  apply num_leb_true in Hle. destruct Hle as [x [y [Hx _]]]. exists x. exact Hx.
Qed.

End Ranking.

(** ** The merge of a list in ascending order *)

Lemma ascending_map {A : Type} (f : A -> number) (l : list A) :
  ascending f l <-> StronglySorted leN (map f l).
Proof.
  unfold ascending. induction l as [| x l IH]; cbn.
  - split; constructor.
  - split; intros H; inversion H as [| ? ? Hl Hx]; subst; constructor.
    + apply IH. exact Hl.
    + rewrite Forall_map. exact Hx.
    + apply IH. exact Hl.
    + rewrite Forall_map in Hx. exact Hx.
Qed.

Lemma StronglySorted_remove {X : Type} (R : X -> X -> Prop) l1 x l2 :
  StronglySorted R (l1 ++ x :: l2) -> StronglySorted R (l1 ++ l2).
Proof.
  induction l1 as [| y l1 IH]; cbn; intros H; inversion H as [| ? ? Hl Hy]; subst.
  - exact Hl.
  - constructor; [apply IH; exact Hl |].
    apply Forall_app in Hy. destruct Hy as [H1 H2]. apply Forall_app. split; [exact H1 |].
    inversion H2; assumption.
Qed.

Lemma StronglySorted_app_left {X : Type} (R : X -> X -> Prop) l1 x l2 :
  StronglySorted R (l1 ++ x :: l2) -> Forall (fun y => R y x) l1.
Proof.
  induction l1 as [| y l1 IH]; cbn; intros H; [constructor |].
  inversion H as [| ? ? Hl Hy]; subst. constructor; [| apply IH; exact Hl].
  apply Forall_app in Hy. destruct Hy as [_ H2]. inversion H2; assumption.
Qed.

(** Merging a station no closer than those already there leaves their
    distances as they are. *)
Lemma distances_mergeInto unique station :
  Forall (fun e => num_ltb (Station.distance station) (Station.distance e) = false) unique ->
  map Station.distance (mergeInto unique station) = map Station.distance unique \/
  map Station.distance (mergeInto unique station)
  = (map Station.distance unique ++ [Station.distance station])%list.
Proof.
  induction unique as [| e rest IH]; intros Hfar; cbn [mergeInto].
  - right. reflexivity.
  - inversion Hfar as [| ? ? He Hrest]; subst.
    destruct (nameKey e =? nameKey station).
    + left. cbn. rewrite He. reflexivity.
    + destruct (IH Hrest) as [H | H]; [left | right]; cbn; rewrite H; reflexivity.
Qed.

Lemma flags_mergeInto unique station :
  Forall (fun s => Station.hasRouteData s = true) unique ->
  Station.hasRouteData station = true ->
  Forall (fun s => Station.hasRouteData s = true) (mergeInto unique station).
Proof.
  induction unique as [| e rest IH]; intros Hall Hs; cbn [mergeInto].
  - constructor; [exact Hs | constructor].
  - inversion Hall as [| ? ? He Hrest]; subst.
    destruct (nameKey e =? nameKey station); constructor; try assumption.
    apply IH; assumption.
Qed.

Lemma flags_mergeStations l :
  Forall (fun s => Station.hasRouteData s = true) l ->
  Forall (fun s => Station.hasRouteData s = true) (mergeStations l).
Proof.
  unfold mergeStations. assert (H0 : Forall (fun s => Station.hasRouteData s = true) [])
    by constructor.
  revert H0. generalize (@nil Station.t) as unique.
  induction l as [| s l IH]; intros unique Hu Hl; cbn [fold_left]; [exact Hu |].
  inversion Hl; subst. apply IH; [apply flags_mergeInto; assumption | assumption].
Qed.

Lemma fold_mergeInto_ascending rest :
  forall unique,
    StronglySorted leN (map Station.distance unique ++ map Station.distance rest) ->
    let merged := map Station.distance (fold_left mergeInto rest unique) in
    StronglySorted leN merged /\
    (forall d, In d merged ->
               In d (map Station.distance unique ++ map Station.distance rest)) /\
    (List.length merged <= List.length unique + List.length rest)%nat.
Proof.
  induction rest as [| s rest IH]; intros unique Hsorted; cbn [fold_left map] in *.
  - rewrite app_nil_r in Hsorted. cbn zeta. rewrite length_map.
    split; [exact Hsorted |]. split; [| lia].
    intros d Hd. rewrite app_nil_r. exact Hd.
  - assert (Hfar : Forall (fun e => num_ltb (Station.distance s) (Station.distance e) = false)
                          unique).
    { pose proof (StronglySorted_app_left _ _ _ _ Hsorted) as Hleft.
      rewrite Forall_map in Hleft. apply Forall_forall. intros e He.
      rewrite Forall_forall in Hleft. apply num_leb_not_ltb. apply Hleft. exact He. }
    destruct (distances_mergeInto unique s Hfar) as [Hd | Hd].
    + destruct (IH (mergeInto unique s)) as [H1 [H2 H3]].
      { rewrite Hd. apply (StronglySorted_remove _ _ _ _ Hsorted). }
      cbn zeta in *. split; [exact H1 |]. split.
      * intros d Hin. apply H2 in Hin. rewrite Hd in Hin.
        apply in_app_or in Hin. apply in_or_app.
        destruct Hin as [Hin | Hin]; [left; exact Hin | right; right; exact Hin].
      * apply (f_equal (@List.length number)) in Hd. rewrite !length_map in Hd.
        cbn [List.length]. lia.
    + destruct (IH (mergeInto unique s)) as [H1 [H2 H3]].
      { rewrite Hd, <- app_assoc. exact Hsorted. }
      cbn zeta in *. split; [exact H1 |]. split.
      * intros d Hin. apply H2 in Hin. rewrite Hd, <- app_assoc in Hin. exact Hin.
      * apply (f_equal (@List.length number)) in Hd.
        rewrite length_app, !length_map in Hd. cbn [List.length] in *. lia.
Qed.

(** Merging the stations of a list in ascending order of distance leaves
    a list in ascending order, no longer, with no new distance. *)
Lemma mergeStations_ascending l :
  ascending Station.distance l ->
  ascending Station.distance (mergeStations l) /\
  (forall s, In s (mergeStations l) ->
             In (Station.distance s) (map Station.distance l)) /\
  (List.length (mergeStations l) <= List.length l)%nat.
Proof.
  intros Hasc. apply ascending_map in Hasc.
  destruct (fold_mergeInto_ascending l [] Hasc) as [H1 [H2 H3]].
  cbn zeta in *. fold (mergeStations l) in H1, H2, H3.
  split; [apply ascending_map; exact H1 |]. split.
  - intros s Hs. apply H2. apply in_map. exact Hs.
  - rewrite length_map in H3. exact H3.
Qed.

(** ** The resolver *)

Section ResolverFacts.

Variable w : World.
Variable calcDist : Q -> Q -> Q -> Q -> number.

(** From the stop list on, the resolver always completes: it returns the
    merge of the stations built from the ranked groups, all of them with
    route data. *)
Lemma resolveStations_spec latitude longitude radius stops st :
  exists stationGroups stopRoutesMap pre st',
    groupStops stops = Returned stationGroups /\
    buildStations stopRoutesMap
      (rankStations calcDist latitude longitude radius stationGroups) = Returned pre /\
    resolveStations w calcDist latitude longitude radius stops st
    = (Returned (mergeStations pre), st') /\
    map Station.distance pre
    = map distance (rankStations calcDist latitude longitude radius stationGroups) /\
    Forall (fun s => Station.hasRouteData s = true) pre.
Proof.
  destruct (groupStops_defined stops) as [stationGroups [Hgroups Hinh]].
  pose proof (rankStations_spec calcDist latitude longitude radius stationGroups) as Hrank.
  cbn zeta in Hrank. destruct Hrank as [_ [_ [_ Hfrom]]].
  set (ranked := rankStations calcDist latitude longitude radius stationGroups) in *.
  assert (Hslice : slice0 3 ranked = ranked).
  { subst ranked. unfold rankStations, slice0. rewrite firstn_firstn. reflexivity. }
  destruct (fetchAllStopRoutes_returns w (collectStopIds ranked) (collectStopIds ranked)
              JsMap.empty st) as [stopRoutesMap [st' [Hloop Hhas]]].
  destruct (buildStations_spec stopRoutesMap ranked) as [pre [Hbuild [Hd Hflags]]].
  { apply Forall_forall. intros r Hr. rewrite Forall_forall in Hfrom.
    apply Hinh. apply Hfrom. exact Hr. }
  exists stationGroups, stopRoutesMap, pre, st'.
  split; [exact Hgroups |]. split; [exact Hbuild |].
  split; [| split; [exact Hd |]].
  - unfold resolveStations, bind, lift. rewrite Hgroups. cbv beta iota zeta.
    fold ranked. rewrite Hslice, Hloop, Hbuild. reflexivity.
  - apply Hflags. intros k Hk. apply Hhas. right. exact Hk.
Qed.

(** A list returned by [fetchNearbyStations] is one returned by the
    resolver for the stop list that was fetched. *)
Lemma fetchNearbyStations_returned latitude longitude radius st stations st' :
  fetchNearbyStations w calcDist latitude longitude radius st = (Returned stations, st') ->
  exists stops st1,
    resolveStations w calcDist latitude longitude radius stops st1 = (Returned stations, st').
Proof.
  unfold fetchNearbyStations, try_catch, bind, throw.
  destruct (getRoutesData w st) as [[[routes |] | e] st0]; try discriminate.
  destruct (makeApiCall (stops_endpoint w) _ 2 st0) as [[[body |] | e] st1]; try discriminate.
  destruct (data body) as [stops |]; try discriminate.
  destruct (resolveStations w calcDist latitude longitude radius stops st1)
    as [[result | e] st2] eqn:Hres; try discriminate.
  intros H. injection H as <- <-. exists stops, st1. exact Hres.
Qed.

End ResolverFacts.

(** C10. A stop whose latitude or longitude is missing, null or 0 is
    dropped by the filter before grouping: the groups are those of the
    list without it, the key construction only meets numbers (other than
    0), grouping never throws and the resolver returns. A stop on the
    equator (latitude 0) or on the prime meridian (longitude 0) is dropped
    in the same way. *)
Theorem stops_without_coordinates_are_dropped :
  forall (before after : list Stop) (stop : Stop),
    lacks_value (latitude (attributes stop)) \/
    lacks_value (longitude (attributes stop)) ->
    has_coordinates stop = false /\
    groupStops (before ++ stop :: after) = groupStops (before ++ after) /\
    (exists stationGroups, groupStops (before ++ stop :: after) = Returned stationGroups) /\
    (forall kept, In kept (filter has_coordinates (before ++ stop :: after)) ->
       exists lat lon key,
         latitude (attributes kept) = Number lat /\ ~ lat == 0 /\
         longitude (attributes kept) = Number lon /\ ~ lon == 0 /\
         createStationKey kept = Returned key) /\
    (forall w calcDist latitude longitude radius st,
     exists stations st',
       resolveStations w calcDist latitude longitude radius (before ++ stop :: after) st
       = (Returned stations, st') /\
       resolveStations w calcDist latitude longitude radius (before ++ after) st
       = (Returned stations, st')).
Proof.
  intros before after stop Hlacks.
  apply has_coordinates_false_iff in Hlacks.
  assert (Hsame : groupStops (before ++ stop :: after) = groupStops (before ++ after)).
  { unfold groupStops. rewrite !filter_app. cbn. rewrite Hlacks. reflexivity. }
  split; [exact Hlacks |]. split; [exact Hsame |]. split; [| split].
  - destruct (groupStops_defined (before ++ stop :: after)) as [m [Hm _]].
    exists m. exact Hm.
  - intros kept Hin. apply filter_In in Hin. destruct Hin as [_ Hc].
    destruct (createStationKey_defined kept Hc) as [key Hkey].
    unfold has_coordinates in Hc. apply andb_true_iff in Hc. destruct Hc as [Hlat Hlon].
    destruct (truthy_number _ Hlat) as [lat [Elat Nlat]].
    destruct (truthy_number _ Hlon) as [lon [Elon Nlon]].
    exists lat, lon, key. repeat split; assumption.
  - intros w calcDist latitude longitude radius st.
    destruct (resolveStations_spec w calcDist latitude longitude radius
                (before ++ stop :: after) st)
      as [groups [m [pre [st' [_ [_ [Hrun _]]]]]]].
    exists (mergeStations pre), st'. split; [exact Hrun |].
    rewrite <- Hrun. unfold resolveStations. rewrite Hsame. reflexivity.
Qed.

Lemma stops_without_coordinates_are_dropped_witness :
  lacks_value (latitude (attributes equator_stop)) /\
  has_coordinates equator_stop = false /\
  groupStops ([park_street_accessible] ++ equator_stop :: [])
  = groupStops ([park_street_accessible] ++ []).
Proof.
  assert (Hlacks : lacks_value (latitude (attributes equator_stop))).
  { right. right. exists 0. split; reflexivity. }
  destruct (stops_without_coordinates_are_dropped [park_street_accessible] [] equator_stop
              (or_introl Hlacks)) as [Hdrop [Hsame _]].
  split; [exact Hlacks |]. split; [exact Hdrop | exact Hsame].
Defined.

(** C1. A list returned by [fetchNearbyStations] has at most 3 stations,
    each at a distance at most the radius, in ascending order of distance;
    and the name merge keeps a list that is in ascending order of distance
    in ascending order. *)
Theorem fetchNearbyStations_nearest_three :
  forall (w : World) (calcDist : Q -> Q -> Q -> Q -> number)
         (latitude longitude : Q) (radius : number) (st st' : State)
         (stations : list Station.t),
    fetchNearbyStations w calcDist latitude longitude radius st = (Returned stations, st') ->
    (List.length stations <= 3)%nat /\
    Forall (fun s => num_leb (Station.distance s) radius = true) stations /\
    ascending Station.distance stations /\
    (forall stationsWithRoutes,
       ascending Station.distance stationsWithRoutes ->
       ascending Station.distance (mergeStations stationsWithRoutes)).
Proof.
  intros w calcDist latitude longitude radius st st' stations Hrun.
  apply fetchNearbyStations_returned in Hrun. destruct Hrun as [stops [st1 Hres]].
  destruct (resolveStations_spec w calcDist latitude longitude radius stops st1)
    as [stationGroups [stopRoutesMap [pre [st2 [_ [_ [Hspec [Hd _]]]]]]]].
  rewrite Hspec in Hres. injection Hres as <- _.
  pose proof (rankStations_spec calcDist latitude longitude radius stationGroups) as Hrank.
  cbn zeta in Hrank. destruct Hrank as [Hlen [Hwithin [Hasc _]]].
  set (ranked := rankStations calcDist latitude longitude radius stationGroups) in *.
  assert (Hpre : ascending Station.distance pre).
  { apply (proj2 (ascending_map Station.distance pre)). rewrite Hd.
    apply (proj1 (ascending_map distance ranked)). exact Hasc. }
  destruct (mergeStations_ascending pre Hpre) as [Hm1 [Hm2 Hm3]].
  split; [| split; [| split]].
  - apply (f_equal (@List.length number)) in Hd. rewrite !length_map in Hd. lia.
  - apply Forall_forall. intros s Hs. apply Hm2 in Hs. rewrite Hd in Hs.
    apply in_map_iff in Hs. destruct Hs as [r [<- Hr]].
    rewrite Forall_forall in Hwithin. apply Hwithin. exact Hr.
  - exact Hm1.
  - intros l Hl. apply (mergeStations_ascending l Hl).
Qed.

Lemma fetchNearbyStations_nearest_three_witness :
  exists stations st',
    fetchNearbyStations downtown_world grid_distance
      query_latitude query_longitude (Num (125 # 100)) (initial_state 0)
    = (Returned stations, st') /\
    map Station.name stations = ["Government Center"; "State"; "Haymarket"] /\
    (List.length stations <= 3)%nat /\
    Forall (fun s => num_leb (Station.distance s) (Num (125 # 100)) = true) stations /\
    ascending Station.distance stations.
Proof.
  eassert (Hrun : fetchNearbyStations downtown_world grid_distance
                    query_latitude query_longitude (Num (125 # 100)) (initial_state 0)
                  = (Returned _, _)) by (vm_compute; reflexivity).
  eexists. eexists. split; [exact Hrun |]. split; [reflexivity |].
  destruct (fetchNearbyStations_nearest_three _ _ _ _ _ _ _ _ Hrun) as [H1 [H2 [H3 _]]].
  repeat split; assumption.
Defined.

(** ** Partial failure of the route detail *)








(** With the route detail of every stop failing, the example still
    resolves to its one station, without routes. *)
Example park_street_without_route_detail :
  fst (fetchNearbyStations park_street_world_no_detail grid_distance
         query_latitude query_longitude (Num (125 # 100)) (initial_state 0))
  = Returned
      [Station.make "70075" "Park Street" (Number park_street_latitude)
         (Number park_street_longitude)
         (grid_distance query_latitude query_longitude
            park_street_latitude park_street_longitude)
         true [] true].
Proof. vm_compute. reflexivity. Qed.


(** ** Accessibility of a group *)

(** C2, where the code departs from it. The accessibility of a group is
    that of the stop that creates it: with the stop reporting
    wheelchair_boarding = 0 listed before the one reporting 1, the station
    is returned as not accessible; with the order swapped, as accessible. *)
Theorem accessibility_follows_the_first_stop :
  (exists g, groupStops [park_street_inaccessible; park_street_accessible]
             = Returned [("Park Street_42.355400_-71.064000", g)] /\
             StationGroup.stops g = [park_street_inaccessible; park_street_accessible] /\
             StationGroup.wheelchair_accessible g = false) /\
  (exists s st,
     fetchNearbyStations park_street_world_swapped grid_distance
       query_latitude query_longitude (Num (125 # 100)) (initial_state 0)
     = (Returned [s], st) /\
     Station.wheelchair_accessible s = false) /\
  (exists s st,
     fetchNearbyStations park_street_world grid_distance
       query_latitude query_longitude (Num (125 # 100)) (initial_state 0)
     = (Returned [s], st) /\
     Station.wheelchair_accessible s = true).
Proof.
  split; [| split].
  - eexists. split; [vm_compute; reflexivity |]. split; reflexivity.
  - eexists. eexists. split; [vm_compute; reflexivity | reflexivity].
  - eexists. eexists. split; [vm_compute; reflexivity | reflexivity].
Qed.

(** In general: a stop that joins a group already there leaves the
    accessibility of the group as it was. *)
Lemma joined_group_keeps_accessibility g stop :
  StationGroup.wheelchair_accessible (joined_group (Some g) stop)
  = StationGroup.wheelchair_accessible g.
Proof. reflexivity. Qed.

(** ** The distance formula *)

Section HaversineExample.
Local Open Scope R_scope.

(** The formula gives 0 from a point to itself, and the same distance
    both ways. *)
Lemma calculateDistance_same_point lat lon :
  calculateDistance lat lon lat lon = 0.
Proof.
  unfold calculateDistance. cbv zeta.
  replace ((lat - lat) * PI / 180 / 2) with 0 by lra.
  replace ((lon - lon) * PI / 180 / 2) with 0 by lra.
  rewrite sin_0.
  replace (0 * 0 + cos (lat * PI / 180) * cos (lat * PI / 180) * 0 * 0) with 0 by ring.
  rewrite sqrt_0, Rminus_0_r, sqrt_1.
  unfold atan2. destruct (Rlt_dec 0 1) as [_ | H]; [| exfalso; lra].
  replace (0 / 1) with 0 by lra. rewrite atan_0. lra.
Qed.

Lemma calculateDistance_symmetric lat1 lon1 lat2 lon2 :
  calculateDistance lat1 lon1 lat2 lon2 = calculateDistance lat2 lon2 lat1 lon1.
Proof.
  unfold calculateDistance. cbv zeta.
  replace ((lat1 - lat2) * PI / 180 / 2) with (- ((lat2 - lat1) * PI / 180 / 2)) by lra.
  replace ((lon1 - lon2) * PI / 180 / 2) with (- ((lon2 - lon1) * PI / 180 / 2)) by lra.
  rewrite !sin_neg.
  set (s1 := sin ((lat2 - lat1) * PI / 180 / 2)).
  set (s2 := sin ((lon2 - lon1) * PI / 180 / 2)).
  set (c1 := cos (lat1 * PI / 180)). set (c2 := cos (lat2 * PI / 180)).
  replace (- s1 * - s1 + c2 * c1 * - s2 * - s2) with (s1 * s1 + c1 * c2 * s2 * s2) by ring.
  reflexivity.
Qed.

Lemma PI_bounds : 3.14159 < PI < 3.1416.
Proof.
  destruct (PI_2_3_7_ineq 3) as [Hlo Hhi].
  unfold sum_f_R0, tg_alt, PI_2_3_7_tg, Ratan_seq in Hlo, Hhi.
  simpl in Hlo, Hhi.
  split; lra.
Qed.

Lemma INR_fact_values :
  INR (fact 2) = 2 /\ INR (fact 3) = 6 /\ INR (fact 4) = 24 /\ INR (fact 6) = 720.
Proof.
  repeat split; rewrite INR_IZR_INZ; reflexivity.
Qed.

Lemma cos_poly a :
  0 <= a <= 2 ->
  1 - a^2/2 + a^4/24 - a^6/720 <= cos a <= 1 - a^2/2 + a^4/24.
Proof.
  intros [H0 H2].
  destruct (pre_cos_bound a 1) as [Hlo _]; [lra | lra |].
  destruct (pre_cos_bound a 0) as [_ Hhi]; [lra | lra |].
  destruct INR_fact_values as [F2 [F3 [F4 F6]]].
  unfold cos_approx, cos_term in Hlo, Hhi.
  cbn [sum_f_R0 Nat.mul Nat.add] in Hlo, Hhi.
  rewrite F2, F4 in Hhi. rewrite F2, F4, F6 in Hlo.
  change (fact 0) with 1%nat in Hlo, Hhi. cbn [INR] in Hlo, Hhi.
  split; lra.
Qed.

Lemma sin_poly a :
  0 <= a <= 4 -> a - a^3/6 <= sin a <= a.
Proof.
  intros [H0 H4]. split.
  - destruct (pre_sin_bound a 0 H0 H4) as [Hlo _].
    destruct INR_fact_values as [F2 [F3 [F4 F6]]].
    unfold sin_approx, sin_term in Hlo.
    cbn [sum_f_R0 Nat.mul Nat.add] in Hlo.
    rewrite F3 in Hlo. change (fact 1) with 1%nat in Hlo. cbn [INR] in Hlo. lra.
  - destruct (Req_dec a 0) as [-> | Hne].
    + rewrite sin_0. lra.
    + left. apply sin_lt_x. lra.
Qed.

Lemma atan_le x y : x <= y -> atan x <= atan y.
Proof.
  intros [Hlt | ->]; [left; apply atan_increasing; exact Hlt | right; reflexivity].
Qed.

(** An enclosure of [atan t] for a small positive [t]. *)
Lemma atan_enclosure t L U :
  0 < L <= 1 -> 0 < U <= 1 ->
  L <= t * (1 - L^2/2) ->
  t <= U - U^3/6 ->
  L <= atan t <= U.
Proof.
  intros [HL0 HL1] [HU0 HU1] Hlow Hup.
  pose proof PI2_1 as Hpi.
  split.
  - rewrite <- (atan_tan L) by lra. apply atan_le.
    destruct (cos_poly L) as [Hc _]; [lra |].
    destruct (sin_poly L) as [_ Hs]; [lra |].
    assert (Hcpos : 0 < 1 - L^2/2) by nra.
    assert (Hcos : 0 < cos L) by nra.
    assert (Hc' : 1 - L^2/2 <= cos L) by nra.
    assert (Ht : 0 < t) by nra.
    unfold tan. apply (Rmult_le_reg_r (cos L)); [exact Hcos |].
    unfold Rdiv. rewrite Rmult_assoc, Rinv_l, Rmult_1_r by lra.
    apply Rle_trans with (2 := Rmult_le_compat_l t _ _ (Rlt_le _ _ Ht) Hc'). lra.
  - rewrite <- (atan_tan U) by lra. apply atan_le.
    destruct (sin_poly U) as [Hs _]; [lra |].
    assert (Hcos : 0 < cos U) by (apply cos_gt_0; lra).
    pose proof (COS_bound U) as [_ Hc1].
    unfold tan. apply (Rmult_le_reg_r (cos U)); [exact Hcos |].
    unfold Rdiv. rewrite Rmult_assoc, Rinv_l, Rmult_1_r by lra.
    assert (Ht : 0 <= t \/ t < 0) by lra. destruct Ht as [Ht | Ht].
    + apply Rle_trans with (t * 1); [apply Rmult_le_compat_l; lra | lra].
    + assert (0 <= sin U) by nra. nra.
Qed.

Lemma mul_enclosure a x b c y d :
  0 <= a <= x -> x <= b -> 0 <= c <= y -> y <= d ->
  0 <= a * c <= x * y /\ x * y <= b * d.
Proof. intros. nra. Qed.

Lemma sqrt_enclosure lo hi x :
  0 <= lo -> 0 <= hi -> lo * lo <= x -> x <= hi * hi -> lo <= sqrt x <= hi.
Proof.
  intros Hlo Hhi H1 H2. split.
  - rewrite <- (sqrt_square lo Hlo). apply sqrt_le_1_alt. exact H1.
  - rewrite <- (sqrt_square hi Hhi). apply sqrt_le_1_alt. exact H2.
Qed.

(** The cosine of an angle of the first quadrant enclosed between
    rational bounds. *)
Lemma cos_enclosure x lo hi :
  0 <= lo <= x -> x <= hi -> hi <= 3/2 ->
  1 - hi^2/2 + hi^4/24 - hi^6/720 <= cos x <= 1 - lo^2/2 + lo^4/24.
Proof.
  intros [H0 H1] H2 H3. pose proof PI_bounds as [Hpi _].
  destruct (cos_poly hi) as [Hhi _]; [lra |].
  destruct (cos_poly lo) as [_ Hlo]; [lra |].
  split.
  - apply Rle_trans with (1 := Hhi). apply cos_decr_1; lra.
  - apply Rle_trans with (2 := Hlo). apply cos_decr_1; lra.
Qed.

(** The sine of a small positive angle enclosed between rational bounds. *)
Lemma sin_enclosure h lo hi :
  0 <= lo <= h -> h <= hi -> hi <= 1 ->
  lo - hi^3/6 <= sin h <= hi.
Proof.
  intros [H0 H1] H2 H3.
  destruct (sin_poly h) as [Hlo Hhi]; [lra |].
  assert (Hcube : h^3 <= hi^3) by (apply pow_incr; lra).
  split; lra.
Qed.

(** The formula at the points of the example: between 0.4162 and 0.4164
    miles. *)
Lemma haversine_example :
  0.4162 < calculateDistance 42.3601 (-71.0589) 42.3554 (-71.0640) < 0.4164.
Proof.
  unfold calculateDistance. cbv zeta.
  pose proof PI_bounds as [Hpl Hpu].
  replace ((42.3554 - 42.3601) * PI / 180 / 2) with (- (0.0047 * PI / 360)) by lra.
  replace ((-71.0640 - -71.0589) * PI / 180 / 2) with (- (0.0051 * PI / 360)) by lra.
  rewrite !sin_neg.
  set (h1 := 0.0047 * PI / 360). set (h2 := 0.0051 * PI / 360).
  set (x1 := 42.3601 * PI / 180). set (x2 := 42.3554 * PI / 180).
  destruct (sin_enclosure h1 0.0000410152 0.0000410154) as [Hs1lo Hs1hi];
    [unfold h1; lra | unfold h1; lra | lra |].
  destruct (sin_enclosure h2 0.0000445058 0.0000445060) as [Hs2lo Hs2hi];
    [unfold h2; lra | unfold h2; lra | lra |].
  destruct (cos_enclosure x1 0.73932 0.73933) as [Hc1lo Hc1hi];
    [unfold x1; lra | unfold x1; lra | lra |].
  destruct (cos_enclosure x2 0.73924 0.73925) as [Hc2lo Hc2hi];
    [unfold x2; lra | unfold x2; lra | lra |].
  set (s1 := sin h1) in *. set (s2 := sin h2) in *.
  set (c1 := cos x1) in *. set (c2 := cos x2) in *.
  assert (B1 : 0.0000410151 <= s1 <= 0.0000410154) by lra.
  assert (B2 : 0.0000445057 <= s2 <= 0.0000445060) by lra.
  assert (B3 : 0.73891 <= c1 <= 0.73916) by lra.
  assert (B4 : 0.73896 <= c2 <= 0.73922) by lra.
  clear Hs1lo Hs1hi Hs2lo Hs2hi Hc1lo Hc1hi Hc2lo Hc2hi.
  replace (- s1 * - s1 + c1 * c2 * - s2 * - s2) with (s1 * s1 + (c1 * c2) * (s2 * s2)) by ring.
  destruct (mul_enclosure 0.0000410151 s1 0.0000410154 0.0000410151 s1 0.0000410154)
    as [[_ E1lo] E1hi]; try lra.
  destruct (mul_enclosure 0.0000445057 s2 0.0000445060 0.0000445057 s2 0.0000445060)
    as [[_ E2lo] E2hi]; try lra.
  destruct (mul_enclosure 0.73891 c1 0.73916 0.73896 c2 0.73922)
    as [[_ E3lo] E3hi]; try lra.
  destruct (mul_enclosure (0.73891 * 0.73896) (c1 * c2) (0.73916 * 0.73922)
              (0.0000445057 * 0.0000445057) (s2 * s2) (0.0000445060 * 0.0000445060))
    as [[_ E4lo] E4hi]; try lra.
  set (a := s1 * s1 + c1 * c2 * (s2 * s2)) in *.
  assert (Ha : 0.000052571 * 0.000052571 <= a <= 0.000052580 * 0.000052580)
    by (unfold a; split; lra).
  destruct (sqrt_enclosure 0.000052571 0.000052580 a) as [Hrlo Hrhi]; try lra.
  destruct (sqrt_enclosure 0.999999 1 (1 - a)) as [Hqlo Hqhi]; try lra.
  set (sa := sqrt a) in *. set (sq := sqrt (1 - a)) in *.
  unfold atan2. destruct (Rlt_dec 0 sq) as [Hsq | Hsq]; [| exfalso; lra].
  set (t := sa / sq).
  assert (Ht : 0.000052571 <= t <= 0.000052580 / 0.999999).
  { unfold t. split.
    - apply (Rmult_le_reg_r sq); [exact Hsq |].
      unfold Rdiv. rewrite Rmult_assoc, Rinv_l, Rmult_1_r by lra. nra.
    - apply (Rmult_le_reg_r sq); [exact Hsq |].
      unfold Rdiv at 1. rewrite Rmult_assoc, Rinv_l, Rmult_1_r by lra.
      apply Rle_trans with (0.000052580 / 0.999999 * 0.999999); [lra |].
      apply Rmult_le_compat_l; lra. }
  destruct (atan_enclosure t 0.0000525709 0.0000525802) as [HL HU]; lra.
Qed.

End HaversineExample.

(** ** The example of the specification, run *)

Lemma example_coordinates :
  (Q2R query_latitude = 42.3601 /\ Q2R query_longitude = -71.0589 /\
   Q2R park_street_latitude = 42.3554 /\ Q2R park_street_longitude = -71.0640)%R.
Proof.
  unfold Q2R, query_latitude, query_longitude, park_street_latitude,
    park_street_longitude. cbn [Qnum Qden]. repeat split; lra.
Qed.

(** The ranking of the one group of the example, for a distance function
    that puts it within the radius. *)
Lemma park_street_ranked calcDist dist g :
  calcDist query_latitude query_longitude park_street_latitude park_street_longitude
  = dist ->
  num_leb dist (Num (125 # 100)) = true ->
  StationGroup.latitude g = Number park_street_latitude ->
  StationGroup.longitude g = Number park_street_longitude ->
  rankStations calcDist query_latitude query_longitude (Num (125 # 100))
               [("Park Street_42.355400_-71.064000", g)]
  = [mkRanked g dist].
Proof.
  intros Hd Hle Hlat Hlon. unfold rankStations, slice0, JsMap.values, distanceTo.
  cbn [map snd]. rewrite Hlat, Hlon. cbn [toNumber]. rewrite Hd.
  cbn [filter distance]. rewrite Hle. reflexivity.
Qed.

(** The run of the example, for such a distance function. *)
Lemma park_street_run calcDist dist :
  calcDist query_latitude query_longitude park_street_latitude park_street_longitude
  = dist ->
  num_leb dist (Num (125 # 100)) = true ->
  exists station st',
    fetchNearbyStations park_street_world calcDist query_latitude query_longitude
                        (Num (125 # 100)) (initial_state 0)
    = (Returned [station], st') /\
    Station.id station = "70075" /\
    Station.name station = "Park Street" /\
    Station.distance station = dist /\
    Station.wheelchair_accessible station = true /\
    Station.hasRouteData station = true /\
    routeIds station = ["Red"; "Green-B"; "Green-C"; "Green-D"; "Green-E"].
Proof.
  intros Hd Hle.
  unfold fetchNearbyStations, try_catch.
  unfold bind at 1.
  match goal with
  | |- context [getRoutesData ?w ?s] => run_closed (getRoutesData w s)
  end.
  cbv beta iota. unfold bind at 1.
  match goal with
  | |- context [makeApiCall ?e ?u ?n ?s] => run_closed (makeApiCall e u n s)
  end.
  cbv beta iota. cbn [data].
  unfold resolveStations. unfold bind at 1. unfold lift.
  match goal with
  | |- context [groupStops ?stops] => run_closed (groupStops stops)
  end.
  cbv beta iota zeta.
  erewrite (park_street_ranked calcDist dist);
    [| exact Hd | exact Hle | reflexivity | reflexivity].
  cbn [slice0 firstn collectStopIds flat_map stationGroup StationGroup.stops map app id].
  unfold bind at 1.
  match goal with
  | |- context [fetchAllStopRoutes ?w ?a ?b ?m ?s] =>
      run_closed (fetchAllStopRoutes w a b m s)
  end.
  cbv beta iota. unfold bind, lift, ret.
  eexists. eexists. split; [vm_compute; reflexivity |].
  repeat split; reflexivity.
Qed.

(** C4, as the code has it. In the example (query (42.3601, -71.0589),
    radius 1.25 miles, two platform stops named "Park Street" at
    (42.3554, -71.0640), the one with wheelchair_boarding = 1 listed
    first), and for a machine distance function within a thousandth of a
    mile of the haversine formula there, [fetchNearbyStations] returns
    exactly one station, "Park Street", accessible, at a distance between
    0.415 and 0.418 miles: about 0.42 miles, the stop being about 0.67 km
    away. *)
Theorem park_street_example :
  forall calcDist : Q -> Q -> Q -> Q -> number,
    agrees_with_formula calcDist (1 / 1000)
      query_latitude query_longitude park_street_latitude park_street_longitude ->
    exists station st' d,
      fetchNearbyStations park_street_world calcDist query_latitude query_longitude
                          (Num (125 # 100)) (initial_state 0)
      = (Returned [station], st') /\
      Station.name station = "Park Street" /\
      Station.wheelchair_accessible station = true /\
      Station.distance station = Num d /\
      (0.415 < Q2R d < 0.418)%R.
Proof.
  intros calcDist [d [Hd Hclose]].
  destruct example_coordinates as [E1 [E2 [E3 E4]]].
  rewrite E1, E2, E3, E4 in Hclose.
  pose proof haversine_example as [Hlo Hhi].
  assert (Hd_range : (0.415 < Q2R d < 0.418)%R).
  { unfold Rabs in Hclose.
    destruct (Rcase_abs (Q2R d - calculateDistance 42.3601 (-71.0589) 42.3554 (-71.0640)));
      lra. }
  assert (Hle : num_leb (Num d) (Num (125 # 100)) = true).
  { cbn. apply Qle_bool_iff. apply Rle_Qle.
    replace (Q2R (125 # 100)) with 1.25%R by (unfold Q2R; cbn [Qnum Qden]; lra). lra. }
  destruct (park_street_run calcDist (Num d) Hd Hle)
    as [station [st' [Hrun [_ [Hname [Hdist [Hwa _]]]]]]].
  exists station, st', d. repeat split; try assumption; apply Hd_range.
Qed.

Lemma reported_distance_agrees :
  agrees_with_formula reported_distance (1 / 1000)
    query_latitude query_longitude park_street_latitude park_street_longitude.
Proof.
  exists (41624 # 100000). split; [reflexivity |].
  destruct example_coordinates as [E1 [E2 [E3 E4]]]. rewrite E1, E2, E3, E4.
  pose proof haversine_example as [Hlo Hhi].
  replace (Q2R (41624 # 100000)) with 0.41624%R by (unfold Q2R; cbn [Qnum Qden]; lra).
  apply Rabs_le. lra.
Qed.

Lemma park_street_example_witness :
  agrees_with_formula reported_distance (1 / 1000)
    query_latitude query_longitude park_street_latitude park_street_longitude /\
  exists station st' d,
    fetchNearbyStations park_street_world reported_distance query_latitude
                        query_longitude (Num (125 # 100)) (initial_state 0)
    = (Returned [station], st') /\
    Station.name station = "Park Street" /\
    Station.wheelchair_accessible station = true /\
    Station.distance station = Num d /\
    (0.415 < Q2R d < 0.418)%R.
Proof.
  split; [exact reported_distance_agrees |].
  apply (park_street_example reported_distance). exact reported_distance_agrees.
Defined.

(** C4 as stated fails: the haversine distance of the example is not
    0.62 miles to two decimals, nor is the stop 1.0 km away; the formula
    gives less than 0.4164 miles, that is less than 0.68 km. *)
Lemma park_street_is_not_062_miles_away :
  (~ (0.615 <= calculateDistance 42.3601 (-71.0589) 42.3554 (-71.0640) <= 0.625) /\
   calculateDistance 42.3601 (-71.0589) 42.3554 (-71.0640) / 0.621371 < 0.68)%R.
Proof.
  pose proof haversine_example as [Hlo Hhi]. split; [intros [H _]; lra | lra].
Qed.

(** * Further properties *)

(** ** The retrying fetcher, outcome by outcome *)

(** A response is a 429, a failure for good, or a 2xx response with a body
    that parses. *)
Lemma outcome_cases {A : Type} (o : FetchOutcome A) :
  (exists json, o = Response 429 json) \/
  (exists e, hard_failure o = Some e) \/
  (exists status body, o = Response status (Some body) /\ ok status = true).
Proof.
  destruct o as [message | status json].
  - right. left. eexists. reflexivity.
  - destruct (Z.eqb_spec status 429) as [-> | Hne].
    + left. exists json. reflexivity.
    + right. unfold hard_failure.
      destruct (status =? 429)%Z eqn:E; [apply Z.eqb_eq in E; contradiction |].
      destruct (ok status) eqn:Hok; cbn.
      * destruct json as [body |].
        -- right. exists status, body. split; reflexivity || assumption.
        -- left. eexists. reflexivity.
      * left. eexists. reflexivity.
Qed.

Lemma backoff_total_nonneg n : forall attempt, (0 <= backoff_total attempt n)%Z.
Proof.
  induction n as [| n IH]; intros attempt; cbn [backoff_total]; [lia |].
  specialize (IH (S attempt)).
  assert (0 <= 2 ^ Z.of_nat attempt)%Z by (apply Z.pow_nonneg; lia). lia.
Qed.

Lemma backoff_total_mono n : forall attempt m,
  (n <= m)%nat -> (backoff_total attempt n <= backoff_total attempt m)%Z.
Proof.
  induction n as [| n IH]; intros attempt m Hle.
  - cbn. apply backoff_total_nonneg.
  - destruct m as [| m]; [lia |]. cbn [backoff_total].
    specialize (IH (S attempt) m). lia.
Qed.

Lemma backoff_total_closed n : forall attempt,
  backoff_total attempt n = ((2 ^ Z.of_nat (attempt + n) - 2 ^ Z.of_nat attempt) * 1000)%Z.
Proof.
  induction n as [| n IH]; intros attempt; cbn [backoff_total].
  - rewrite Nat.add_0_r. lia.
  - rewrite IH. replace (attempt + S n)%nat with (S attempt + n)%nat by lia.
    replace (Z.of_nat (S attempt)) with (Z.of_nat attempt + 1)%Z by lia.
    rewrite Z.pow_add_r by lia. lia.
Qed.

Section FetcherRuns.

Context {A : Type}.
Variable endpoint : nat -> FetchOutcome A.
Variable url : string.
Variable maxRetries : nat.

(** A pass that ends in a wait, followed by what the rest of the loop
    leaves. *)
Lemma loop_leaves_after_wait remaining attempt st r st' :
  loop_leaves endpoint url remaining (S attempt)
    (after_delay (2 ^ Z.of_nat attempt * 1000) (after_fetch url st)) r st' ->
  ((exists json, endpoint (requests st) = Response 429 json) \/ remaining <> O) ->
  loop_leaves endpoint url (S remaining) attempt st r st'.
Proof.
  unfold loop_leaves. cbn [routesCache routesCacheTimestamp requests trace now
                           after_delay after_fetch].
  intros [Hc [Ht Hr]] Hlast. split; [exact Hc |]. split; [exact Ht |].
  destruct r as [[body |] | e].
  - destruct Hr as [j [status [Hj [Hreq [Htr [Hnow [Hend Hok]]]]]]].
    exists (S j), status. repeat split; try assumption.
    + lia.
    + lia.
    + rewrite Htr. cbn [backoff_schedule]. rewrite <- !app_assoc. reflexivity.
    + rewrite Hnow. cbn [backoff_total]. lia.
    + replace (requests st + S j)%nat with (S (requests st) + j)%nat by lia. exact Hend.
  - destruct Hr as [Hreq [Htr [Hnow Hend]]]. repeat split.
    + lia.
    + rewrite Htr. cbn [backoff_schedule]. rewrite <- !app_assoc. reflexivity.
    + rewrite Hnow. cbn [backoff_total]. lia.
    + right. destruct Hend as [-> | [json Hjson]].
      * destruct Hlast as [H429 | Hne]; [| contradiction].
        replace (requests st + 1 - 1)%nat with (requests st) by lia. exact H429.
      * exists json.
        replace (requests st + S remaining - 1)%nat
          with (S (requests st) + remaining - 1)%nat by lia. exact Hjson.
  - destruct Hr as [j [Hj [Hreq [Htr [Hnow Hend]]]]].
    exists (S j). repeat split.
    + lia.
    + lia.
    + rewrite Htr. cbn [backoff_schedule]. rewrite <- !app_assoc. reflexivity.
    + rewrite Hnow. cbn [backoff_total]. lia.
    + replace (requests st + S j)%nat with (S (requests st) + j)%nat by lia. exact Hend.
Qed.

(** The loop after its first pass. *)
Lemma loop_unfold remaining attempt st :
  makeApiCall_loop endpoint url maxRetries (S remaining) attempt st
  = match try_catch (attempt_try endpoint url attempt)
                    (attempt_catch maxRetries attempt) st with
    | (Returned (Done data), st1) => (Returned (Some data), st1)
    | (Returned Retry, st1) =>
        makeApiCall_loop endpoint url maxRetries remaining (S attempt) st1
    | (Thrown e, st1) => (Thrown e, st1)
    end.
Proof.
  cbn [makeApiCall_loop]. unfold bind.
  destruct (try_catch (attempt_try endpoint url attempt)
                      (attempt_catch maxRetries attempt) st) as [[[data |] | e] st1];
    reflexivity.
Qed.

(** Every run of the loop ends in one of the three ways. *)
Lemma loop_run remaining :
  forall attempt st,
    (attempt + remaining = S maxRetries)%nat ->
    loop_leaves endpoint url remaining attempt st
      (fst (makeApiCall_loop endpoint url maxRetries remaining attempt st))
      (snd (makeApiCall_loop endpoint url maxRetries remaining attempt st)).
Proof.
  induction remaining as [| remaining IH]; intros attempt st Hsum.
  - cbn. unfold loop_leaves. cbn. rewrite !Nat.add_0_r, Z.add_0_r, app_nil_r.
    repeat split. left. reflexivity.
  - rewrite loop_unfold.
    destruct (outcome_cases (endpoint (requests st)))
      as [[json H429] | [[e Hfail] | [status [body [Hbody Hok]]]]].
    + rewrite (pass_rate_limited endpoint url maxRetries attempt st json H429).
      apply loop_leaves_after_wait; [apply IH; lia | left; exists json; exact H429].
    + rewrite (pass_hard_failure endpoint url maxRetries attempt st e Hfail).
      destruct (Nat.eqb_spec attempt maxRetries) as [Heq | Hne].
      * assert (remaining = O) by lia. subst remaining.
        cbn [fst snd]. unfold loop_leaves. cbn. repeat split.
        exists O. cbn. rewrite Nat.add_0_r, Z.add_0_r. repeat split; try lia.
        exact Hfail.
      * apply loop_leaves_after_wait; [apply IH; lia | right; lia].
    + rewrite (pass_success endpoint url maxRetries attempt st status body Hbody Hok).
      cbn [fst snd]. unfold loop_leaves. cbn. repeat split.
      exists O, status. cbn. rewrite Nat.add_0_r, Z.add_0_r.
      repeat split; try lia; assumption.
Qed.

End FetcherRuns.

(** X1. Whatever the server does, [makeApiCall] issues at most
    [maxRetries] requests, waits no longer than 2 + 4 + ... +
    2^maxRetries seconds in all, and leaves the route cache alone. *)
Theorem makeApiCall_budget :
  forall (A : Type) (endpoint : nat -> FetchOutcome A) (url : string)
         (maxRetries : nat) (st : State),
    (requests st <= requests (snd (makeApiCall endpoint url maxRetries st))
     <= requests st + maxRetries)%nat /\
    (now st <= now (snd (makeApiCall endpoint url maxRetries st))
     <= now st + (2 ^ Z.of_nat (S maxRetries) - 2) * 1000)%Z /\
    routesCache (snd (makeApiCall endpoint url maxRetries st)) = routesCache st /\
    routesCacheTimestamp (snd (makeApiCall endpoint url maxRetries st))
    = routesCacheTimestamp st.
Proof.
  intros A endpoint url maxRetries st. unfold makeApiCall.
  pose proof (loop_run endpoint url maxRetries maxRetries 1 st eq_refl) as H.
  destruct H as [Hc [Ht Hr]].
  pose proof (backoff_total_closed maxRetries 1) as Hclosed.
  change (2 ^ Z.of_nat 1)%Z with 2%Z in Hclosed.
  replace (1 + maxRetries)%nat with (S maxRetries) in Hclosed by lia.
  split; [| split; [| split; assumption]];
    destruct (fst (makeApiCall_loop endpoint url maxRetries maxRetries 1 st))
      as [[body |] | e].
  - destruct Hr as [j [status [Hj [Hreq _]]]]. lia.
  - destruct Hr as [Hreq _]. lia.
  - destruct Hr as [j [Hj [Hreq _]]]. lia.
  - destruct Hr as [j [status [Hj [_ [_ [Hnow _]]]]]].
    pose proof (backoff_total_nonneg j 1).
    pose proof (backoff_total_mono j 1 maxRetries). lia.
  - destruct Hr as [_ [_ [Hnow _]]]. pose proof (backoff_total_nonneg maxRetries 1). lia.
  - destruct Hr as [j [Hj [_ [_ [Hnow _]]]]].
    pose proof (backoff_total_nonneg j 1).
    pose proof (backoff_total_mono j 1 maxRetries). lia.
Qed.

(** X2. A body returned by [makeApiCall] is the parsed body of the last
    request it issued, and that request was answered with a 2xx status;
    before it, each request was followed by its wait of 2, 4, ... seconds. *)
Theorem makeApiCall_returns_last_response :
  forall (A : Type) (endpoint : nat -> FetchOutcome A) (url : string)
         (maxRetries : nat) (st st' : State) (body : A),
    makeApiCall endpoint url maxRetries st = (Returned (Some body), st') ->
    exists waits status,
      (waits < maxRetries)%nat /\
      requests st' = (requests st + waits + 1)%nat /\
      endpoint (requests st' - 1)%nat = Response status (Some body) /\
      ok status = true /\
      trace st' = (trace st ++ backoff_schedule url 1 waits ++ [Fetched url])%list /\
      now st' = (now st + backoff_total 1 waits)%Z.
Proof.
  intros A endpoint url maxRetries st st' body Hrun. unfold makeApiCall in Hrun.
  pose proof (loop_run endpoint url maxRetries maxRetries 1 st eq_refl) as H.
  rewrite Hrun in H. destruct H as [_ [_ [j [status [Hj [Hreq [Htr [Hnow [Hend Hok]]]]]]]]].
  cbn [fst snd] in *. exists j, status. repeat split; try assumption.
  - lia.
  - replace (requests st' - 1)%nat with (requests st + j)%nat by lia. exact Hend.
Qed.

Lemma makeApiCall_returns_last_response_witness :
  exists waits status,
    (waits < 2)%nat /\
    requests (mkState None 0 2000 2 [Fetched routesUrl; Delayed 2000; Fetched routesUrl])
    = (requests (initial_state 0) + waits + 1)%nat /\
    (fun n : nat => match n with
                    | O => Response 429 None
                    | S _ => answer subway_routes
                    end)
      (requests (mkState None 0 2000 2
                   [Fetched routesUrl; Delayed 2000; Fetched routesUrl]) - 1)%nat
    = Response status (Some (mkBody (Some subway_routes))) /\
    ok status = true /\
    trace (mkState None 0 2000 2 [Fetched routesUrl; Delayed 2000; Fetched routesUrl])
    = (trace (initial_state 0) ++ backoff_schedule routesUrl 1 waits
         ++ [Fetched routesUrl])%list /\
    now (mkState None 0 2000 2 [Fetched routesUrl; Delayed 2000; Fetched routesUrl])
    = (now (initial_state 0) + backoff_total 1 waits)%Z.
Proof.
  apply (makeApiCall_returns_last_response (Body Route)
           (fun n : nat => match n with
                           | O => Response 429 None
                           | S _ => answer subway_routes
                           end)
           routesUrl 2 (initial_state 0)).
  vm_compute. reflexivity.
Defined.

(** X3. [makeApiCall] throws only when all [maxRetries] attempts are used
    up, and what it throws is the failure of the last attempt: the errors
    of the attempts before are swallowed, each followed by its wait. *)
Theorem makeApiCall_throws_last_failure :
  forall (A : Type) (endpoint : nat -> FetchOutcome A) (url : string)
         (maxRetries : nat) (st st' : State) (e : Error),
    makeApiCall endpoint url maxRetries st = (Thrown e, st') ->
    (0 < maxRetries)%nat /\
    requests st' = (requests st + maxRetries)%nat /\
    hard_failure (endpoint (requests st' - 1)%nat) = Some e /\
    trace st' = (trace st ++ backoff_schedule url 1 (maxRetries - 1)
                   ++ [Fetched url])%list /\
    now st' = (now st + backoff_total 1 (maxRetries - 1))%Z.
Proof.
  intros A endpoint url maxRetries st st' e Hrun. unfold makeApiCall in Hrun.
  pose proof (loop_run endpoint url maxRetries maxRetries 1 st eq_refl) as H.
  rewrite Hrun in H. destruct H as [_ [_ [j [Hj [Hreq [Htr [Hnow Hend]]]]]]].
  cbn [fst snd] in *. subst maxRetries.
  replace (S j - 1)%nat with j by lia. repeat split; try assumption.
  - lia.
  - replace (requests st' - 1)%nat with (requests st + j)%nat by lia. exact Hend.
Qed.

Lemma makeApiCall_throws_last_failure_witness :
  (0 < 2)%nat /\
  requests state_after_failed_detail
  = (requests (before_stop_request ["70075"; "70076"] "70076" (initial_state 0)) + 2)%nat /\
  hard_failure (stop_routes_endpoint park_street_world_no_detail "70076"
                  (requests state_after_failed_detail - 1)%nat)
  = Some (HttpError 500) /\
  trace state_after_failed_detail
  = (trace (before_stop_request ["70075"; "70076"] "70076" (initial_state 0))
       ++ backoff_schedule (stopRoutesUrl "70076") 1 (2 - 1)
       ++ [Fetched (stopRoutesUrl "70076")])%list /\
  now state_after_failed_detail
  = (now (before_stop_request ["70075"; "70076"] "70076" (initial_state 0))
     + backoff_total 1 (2 - 1))%Z.
Proof.
  apply (makeApiCall_throws_last_failure (Body Route)
           (stop_routes_endpoint park_street_world_no_detail "70076")
           (stopRoutesUrl "70076") 2).
  vm_compute. reflexivity.
Defined.

(** X4. [makeApiCall] returns [undefined] only when no attempt was
    allowed, or when all attempts are used up and the last one was
    answered 429; every request was then followed by its wait, the last
    one too. *)
Theorem makeApiCall_undefined_only_after_429 :
  forall (A : Type) (endpoint : nat -> FetchOutcome A) (url : string)
         (maxRetries : nat) (st st' : State),
    makeApiCall endpoint url maxRetries st = (Returned None, st') ->
    requests st' = (requests st + maxRetries)%nat /\
    trace st' = (trace st ++ backoff_schedule url 1 maxRetries)%list /\
    now st' = (now st + backoff_total 1 maxRetries)%Z /\
    (maxRetries = O \/
     exists json, endpoint (requests st' - 1)%nat = Response 429 json).
Proof.
  intros A endpoint url maxRetries st st' Hrun. unfold makeApiCall in Hrun.
  pose proof (loop_run endpoint url maxRetries maxRetries 1 st eq_refl) as H.
  rewrite Hrun in H. destruct H as [_ [_ [Hreq [Htr [Hnow Hend]]]]].
  cbn [fst snd] in *. repeat split; try assumption.
  destruct Hend as [H0 | [json Hjson]]; [left; exact H0 | right].
  exists json. rewrite Hreq. exact Hjson.
Qed.

Lemma makeApiCall_undefined_only_after_429_witness :
  requests (mkState None 0 6000 2
              [Fetched routesUrl; Delayed 2000; Fetched routesUrl; Delayed 4000])
  = (requests (initial_state 0) + 2)%nat /\
  trace (mkState None 0 6000 2
           [Fetched routesUrl; Delayed 2000; Fetched routesUrl; Delayed 4000])
  = (trace (initial_state 0) ++ backoff_schedule routesUrl 1 2)%list /\
  now (mkState None 0 6000 2
         [Fetched routesUrl; Delayed 2000; Fetched routesUrl; Delayed 4000])
  = (now (initial_state 0) + backoff_total 1 2)%Z /\
  (2%nat = O \/
   exists json,
     routes_endpoint rate_limiting_world
       (requests (mkState None 0 6000 2
                    [Fetched routesUrl; Delayed 2000; Fetched routesUrl; Delayed 4000]) - 1)%nat
     = Response 429 json).
Proof.
  apply (makeApiCall_undefined_only_after_429 (Body Route)
           (routes_endpoint rate_limiting_world) routesUrl 2 (initial_state 0)).
  vm_compute. reflexivity.
Defined.

(** ** The route cache over several calls *)

(** [makeApiCall] does not touch the cache. *)
Lemma makeApiCall_keeps_cache {A : Type} (endpoint : nat -> FetchOutcome A) url maxRetries st :
  routesCache (snd (makeApiCall endpoint url maxRetries st)) = routesCache st /\
  routesCacheTimestamp (snd (makeApiCall endpoint url maxRetries st))
  = routesCacheTimestamp st.
Proof.
  unfold makeApiCall.
  destruct (loop_run endpoint url maxRetries maxRetries 1 st eq_refl) as [Hc [Ht _]].
  split; assumption.
Qed.

(** [getRoutesData], by the freshness of the cache. *)
Lemma getRoutesData_unfold w st :
  getRoutesData w st =
    if cache_fresh st then (Returned (routesCache st), st)
    else match makeApiCall (routes_endpoint w) routesUrl 2 st with
         | (Returned routesData, st') =>
             (Returned routesData, with_routesCache routesData (now st) st')
         | (Thrown e, st') => (Thrown e, st')
         end.
Proof.
  unfold getRoutesData, cache_fresh, bind, Date_now, get_routesCache, cache_hit.
  fold routesUrl.
  destruct (routesCache st) as [cached |].
  - destruct (now st - routesCacheTimestamp st <? CACHE_DURATION)%Z; [reflexivity |].
    destruct (makeApiCall (routes_endpoint w) routesUrl 2 st) as [[d | e] st1]; reflexivity.
  - destruct (makeApiCall (routes_endpoint w) routesUrl 2 st) as [[d | e] st1]; reflexivity.
Qed.

(** C7. [getRoutesData] answers from the cache, with no request and no
    change of state, exactly when a prior fetch is stored and its age is
    strictly below the TTL of 5 minutes; otherwise it calls the retrying
    fetcher, and what the fetcher returns is returned and is then what the
    cache holds, under the time read at the start of the call, the clock,
    the requests and the trace being those the fetcher left (an error of
    the fetcher goes to the caller, the cache and its time untouched). *)
Theorem getRoutesData_cache_or_fetch :
  forall (w : World) (st : State),
    (cache_fresh st = true <->
       exists cached, routesCache st = Some cached /\
                      (now st - routesCacheTimestamp st < 5 * 60 * 1000)%Z) /\
    (cache_fresh st = true ->
     getRoutesData w st = (Returned (routesCache st), st)) /\
    (cache_fresh st = false ->
     fst (getRoutesData w st) = fst (makeApiCall (routes_endpoint w) routesUrl 2 st) /\
     now (snd (getRoutesData w st))
     = now (snd (makeApiCall (routes_endpoint w) routesUrl 2 st)) /\
     requests (snd (getRoutesData w st))
     = requests (snd (makeApiCall (routes_endpoint w) routesUrl 2 st)) /\
     trace (snd (getRoutesData w st))
     = trace (snd (makeApiCall (routes_endpoint w) routesUrl 2 st)) /\
     (exists rest,
        trace (snd (getRoutesData w st)) = (trace st ++ Fetched routesUrl :: rest)%list) /\
     match fst (getRoutesData w st) with
     | Returned routesData =>
         routesCache (snd (getRoutesData w st)) = routesData /\
         routesCacheTimestamp (snd (getRoutesData w st)) = now st
     | Thrown _ =>
         routesCache (snd (getRoutesData w st)) = routesCache st /\
         routesCacheTimestamp (snd (getRoutesData w st)) = routesCacheTimestamp st
     end) /\
    (cache_fresh st = true <-> trace (snd (getRoutesData w st)) = trace st).
Proof.
  intros w st.
  assert (Hissued : exists rest,
             trace (snd (makeApiCall (routes_endpoint w) routesUrl 2 st))
             = (trace st ++ Fetched routesUrl :: rest)%list)
    by (apply makeApiCall_issues_request; lia).
  destruct (makeApiCall_keeps_cache (routes_endpoint w) routesUrl 2 st) as [Hc Ht].
  split; [| split; [| split; [| split]]].
  - unfold cache_fresh. destruct (routesCache st) as [cached |].
    + rewrite Z.ltb_lt. change CACHE_DURATION with (5 * 60 * 1000)%Z. split.
      * intros H. exists cached. split; [reflexivity | exact H].
      * intros [c [_ H]]. exact H.
    + split; [discriminate |]. intros [c [H _]]. discriminate.
  - intros Hfresh. rewrite getRoutesData_unfold, Hfresh. reflexivity.
  - intros Hstale. rewrite getRoutesData_unfold, Hstale.
    destruct (makeApiCall (routes_endpoint w) routesUrl 2 st) as [[routesData | e] st1];
      cbn [fst snd] in *; repeat split; try reflexivity; assumption.
  - intros Hfresh. rewrite getRoutesData_unfold, Hfresh. reflexivity.
  - intros Htrace. destruct (cache_fresh st) eqn:Hfresh; [reflexivity | exfalso].
    rewrite getRoutesData_unfold, Hfresh in Htrace. destruct Hissued as [rest Hrest].
    destruct (makeApiCall (routes_endpoint w) routesUrl 2 st) as [[d | e] st1];
      cbn in Htrace, Hrest; rewrite Hrest in Htrace;
      apply (f_equal (@List.length Event)) in Htrace;
      rewrite length_app in Htrace; cbn in Htrace; lia.
Qed.

Lemma getRoutesData_cache_or_fetch_witness :
  cache_fresh state_with_expired_cache = false /\
  fst (getRoutesData downtown_world state_with_expired_cache)
  = Returned (Some (mkBody (Some subway_routes))) /\
  routesCache (snd (getRoutesData downtown_world state_with_expired_cache))
  = Some (mkBody (Some subway_routes)) /\
  routesCacheTimestamp (snd (getRoutesData downtown_world state_with_expired_cache))
  = now state_with_expired_cache /\
  trace (snd (getRoutesData downtown_world state_with_expired_cache)) = [Fetched routesUrl].
Proof.
  assert (Hstale : cache_fresh state_with_expired_cache = false) by reflexivity.
  assert (Hfst : fst (getRoutesData downtown_world state_with_expired_cache)
                 = Returned (Some (mkBody (Some subway_routes))))
    by (vm_compute; reflexivity).
  destruct (getRoutesData_cache_or_fetch downtown_world state_with_expired_cache)
    as [_ [_ [Hfetch _]]].
  destruct (Hfetch Hstale) as [_ [_ [_ [_ [_ Hstored]]]]].
  rewrite Hfst in Hstored. destruct Hstored as [Hcache Hstamp].
  split; [exact Hstale |]. split; [exact Hfst |]. split; [exact Hcache |].
  split; [exact Hstamp | vm_compute; reflexivity].
Defined.

(** X5. After [getRoutesData] returns, the cache holds exactly what it
    returned (be it [undefined]); when it throws, the cache and its
    timestamp are as they were. *)
Theorem getRoutesData_cache_holds_result :
  forall (w : World) (st : State),
    match getRoutesData w st with
    | (Returned routesData, st') => routesCache st' = routesData
    | (Thrown _, st') =>
        routesCache st' = routesCache st /\
        routesCacheTimestamp st' = routesCacheTimestamp st
    end.
Proof.
  intros w st. rewrite getRoutesData_unfold.
  destruct (cache_fresh st); [reflexivity |].
  destruct (makeApiCall_keeps_cache (routes_endpoint w) routesUrl 2 st) as [Hc Ht].
  destruct (makeApiCall (routes_endpoint w) routesUrl 2 st) as [[d | e] st1];
    cbn [snd] in *; [reflexivity | split; assumption].
Qed.

(** X6. A route list fetched by a call that started at time [t] is
    stamped [t]; as long as the cache is not written again, every call
    before [t] + 5 minutes returns that list without a request and without
    a change of state, and every call from [t] + 5 minutes on issues a
    request. *)
Theorem getRoutesData_serves_for_five_minutes :
  forall (w : World) (st st1 : State) (routesData : Body Route),
    cache_fresh st = false ->
    getRoutesData w st = (Returned (Some routesData), st1) ->
    routesCacheTimestamp st1 = now st /\
    forall st2,
      routesCache st2 = routesCache st1 ->
      routesCacheTimestamp st2 = routesCacheTimestamp st1 ->
      ((now st2 - now st < 5 * 60 * 1000)%Z ->
       getRoutesData w st2 = (Returned (Some routesData), st2)) /\
      ((5 * 60 * 1000 <= now st2 - now st)%Z ->
       exists rest,
         trace (snd (getRoutesData w st2))
         = (trace st2 ++ Fetched routesUrl :: rest)%list).
Proof.
  intros w st st1 routesData Hstale Hrun.
  rewrite getRoutesData_unfold, Hstale in Hrun.
  destruct (makeApiCall (routes_endpoint w) routesUrl 2 st) as [[d | e] st0];
    [| discriminate].
  injection Hrun as -> <-. cbn [routesCache routesCacheTimestamp with_routesCache].
  split; [reflexivity |].
  intros st2 Hc Ht. cbn [routesCache routesCacheTimestamp with_routesCache] in Hc, Ht.
  split; intros Hage.
  - rewrite getRoutesData_unfold. unfold cache_fresh. rewrite Hc, Ht.
    change CACHE_DURATION with (5 * 60 * 1000)%Z.
    destruct (Z.ltb_spec (now st2 - now st) (5 * 60 * 1000)); [| lia].
    reflexivity.
  - rewrite getRoutesData_unfold. unfold cache_fresh. rewrite Hc, Ht.
    change CACHE_DURATION with (5 * 60 * 1000)%Z.
    destruct (Z.ltb_spec (now st2 - now st) (5 * 60 * 1000)); [lia |].
    destruct (makeApiCall_issues_request (routes_endpoint w) routesUrl 2 st2) as [rest Hrest];
      [lia |].
    exists rest.
    destruct (makeApiCall (routes_endpoint w) routesUrl 2 st2) as [[d | e] st3];
      exact Hrest.
Qed.

Lemma getRoutesData_serves_for_five_minutes_witness :
  routesCacheTimestamp
    (mkState (Some (mkBody (Some subway_routes))) 1000 1000 1 [Fetched routesUrl])
  = now (initial_state 1000) /\
  getRoutesData park_street_world
    (mkState (Some (mkBody (Some subway_routes))) 1000 300999 7 [])
  = (Returned (Some (mkBody (Some subway_routes))),
     mkState (Some (mkBody (Some subway_routes))) 1000 300999 7 []).
Proof.
  destruct (getRoutesData_serves_for_five_minutes park_street_world
              (initial_state 1000)
              (mkState (Some (mkBody (Some subway_routes))) 1000 1000 1 [Fetched routesUrl])
              (mkBody (Some subway_routes)) eq_refl eq_refl) as [Hstamp Hlater].
  split; [exact Hstamp |].
  apply (Hlater (mkState (Some (mkBody (Some subway_routes))) 1000 300999 7 [])
                eq_refl eq_refl).
  reflexivity.
Defined.

(** ** The groups, key by key *)

Lemma JsMap_get_set {V : Type} (m : JsMap.t V) k k' v :
  JsMap.get (JsMap.set m k v) k' = if k =? k' then Some v else JsMap.get m k'.
Proof.
  destruct (String.eqb_spec k k') as [<- | Hne].
  - apply JsMap_get_set_same.
  - apply JsMap_get_set_other. exact Hne.
Qed.

Lemma JsMap_keys_set_order {V : Type} (m : JsMap.t V) k v :
  JsMap.keys (JsMap.set m k v)
  = if absent (JsMap.keys m) k then (JsMap.keys m ++ [k])%list else JsMap.keys m.
Proof.
  unfold JsMap.keys, absent. induction m as [| [k0 v0] m IH]; cbn [JsMap.set map existsb].
  - reflexivity.
  - destruct (k0 =? k) eqn:E; cbn [map fst existsb]; rewrite E; cbn [orb negb].
    + apply String.eqb_eq in E. subst k0. reflexivity.
    + rewrite IH. destruct (negb (existsb (fun k' => k' =? k) (map fst m))); reflexivity.
Qed.

Lemma JsMap_get_In {V : Type} (m : JsMap.t V) k v :
  JsMap.get m k = Some v -> In (k, v) m.
Proof.
  induction m as [| [k0 v0] m IH]; cbn; [discriminate |].
  destruct (String.eqb_spec k0 k) as [-> | Hne].
  - intros H. injection H as ->. left. reflexivity.
  - intros H. right. apply IH. exact H.
Qed.

Lemma JsMap_In_get {V : Type} (m : JsMap.t V) k v :
  NoDup (JsMap.keys m) -> In (k, v) m -> JsMap.get m k = Some v.
Proof.
  unfold JsMap.keys. induction m as [| [k0 v0] m IH]; cbn; [intros _ [] |].
  intros Hnd [Heq | Hin]; inversion Hnd as [| ? ? Hnotin Hrest]; subst.
  - injection Heq as -> ->. rewrite String.eqb_refl. reflexivity.
  - destruct (String.eqb_spec k0 k) as [-> | Hne].
    + exfalso. apply Hnotin. apply (in_map fst) in Hin. exact Hin.
    + apply IH; assumption.
Qed.

Lemma extend_group_joined existing stop rest :
  extend_group (Some (joined_group existing stop)) rest
  = extend_group existing (stop :: rest).
Proof.
  destruct existing as [g |]; cbn; [rewrite <- app_assoc |]; reflexivity.
Qed.

(** The groups after more stops have been added: under each key, the
    group there was, joined by the stops of that key; the keys in the
    order in which they first came. *)
Lemma addStops_groups stops :
  forall stationGroups stationGroups',
    addStops stationGroups stops = Returned stationGroups' ->
    (forall key,
       JsMap.get stationGroups' key
       = extend_group (JsMap.get stationGroups key) (filter (has_key key) stops)) /\
    JsMap.keys stationGroups'
    = (JsMap.keys stationGroups ++
       filter (absent (JsMap.keys stationGroups))
              (first_occurrences (map key_of stops)))%list.
Proof.
  induction stops as [| stop rest IH]; intros m m' Hrun; cbn [addStops] in Hrun.
  - injection Hrun as <-. split.
    + intros key. cbn. destruct (JsMap.get m key) as [[ss n la lo wa] |]; cbn;
        [rewrite app_nil_r |]; reflexivity.
    + cbn. rewrite app_nil_r. reflexivity.
  - destruct (createStationKey stop) as [k | e] eqn:Hkey;
      [| unfold addStop in Hrun; rewrite Hkey in Hrun; discriminate].
    rewrite (addStop_spec m stop k Hkey) in Hrun.
    destruct (IH _ _ Hrun) as [Hget Hkeys]. split.
    + intros key. rewrite Hget, JsMap_get_set. cbn [filter].
      unfold has_key at 2. rewrite Hkey.
      destruct (String.eqb_spec k key) as [-> | Hne].
      * apply extend_group_joined.
      * reflexivity.
    + assert (Hk : key_of stop = k) by (unfold key_of; rewrite Hkey; reflexivity).
      rewrite Hkeys, JsMap_keys_set_order. cbn [map first_occurrences filter].
      rewrite Hk. destruct (absent (JsMap.keys m) k) eqn:E.
      * rewrite <- app_assoc. cbn [app]. rewrite filter_absent_snoc. reflexivity.
      * rewrite <- (filter_absent_present _ _ _ E). reflexivity.
Qed.

(** X9. The grouping makes one group per station key, in the order in
    which the keys first occur among the stops kept by the filter; the
    group of a key holds exactly the kept stops of that key, in their
    order, and takes its name, coordinate and accessibility from the first
    of them. *)
Theorem groupStops_one_group_per_key :
  forall stops : list Stop,
    exists stationGroups,
      groupStops stops = Returned stationGroups /\
      JsMap.keys stationGroups
      = first_occurrences (map key_of (filter has_coordinates stops)) /\
      NoDup (JsMap.keys stationGroups) /\
      (forall key,
         JsMap.get stationGroups key
         = extend_group None (filter (has_key key) (filter has_coordinates stops))) /\
      (forall key g,
         In (key, g) stationGroups <-> JsMap.get stationGroups key = Some g).
Proof.
  intros stops. destruct (groupStops_defined stops) as [m [Hrun _]].
  exists m. split; [exact Hrun |].
  destruct (addStops_groups _ _ _ Hrun) as [Hget Hkeys].
  assert (Hk : JsMap.keys m = first_occurrences (map key_of (filter has_coordinates stops))).
  { rewrite Hkeys. cbn. clear Hkeys.
    induction (first_occurrences (map key_of (filter has_coordinates stops)))
      as [| k ks IHk]; cbn; [reflexivity | f_equal; exact IHk]. }
  assert (Hnd : NoDup (JsMap.keys m)) by (rewrite Hk; apply first_occurrences_NoDup).
  split; [exact Hk |]. split; [exact Hnd |]. split.
  - intros key. rewrite Hget. reflexivity.
  - intros key g. split; [apply JsMap_In_get; exact Hnd | apply JsMap_get_In].
Qed.

(** ** The three nearest groups *)

Lemma sort_length {A : Type} (distanceOf : A -> number) (l : list A) :
  List.length (sort (by_distance distanceOf) l) = List.length l.
Proof.
  induction l as [| x l IH]; cbn [sort List.length]; [reflexivity |].
  rewrite sort_insert_length, IH. reflexivity.
Qed.

Lemma StronglySorted_app_cross {A : Type} (R : A -> A -> Prop) (l1 l2 : list A) :
  StronglySorted R (l1 ++ l2) ->
  forall x y, In x l1 -> In y l2 -> R x y.
Proof.
  induction l1 as [| a l1 IH]; cbn [app]; intros Hs x y Hx Hy; [destruct Hx |].
  inversion Hs as [| ? ? Hrest Hall]; subst.
  destruct Hx as [<- | Hx].
  - rewrite Forall_forall in Hall. apply Hall. apply in_or_app. right. exact Hy.
  - apply IH; assumption.
Qed.

Lemma candidates_are_numbers calcDist latitude longitude radius stationGroups :
  Forall (fun r => is_Num (distance r))
         (candidates calcDist latitude longitude radius stationGroups).
Proof.
  apply Forall_forall. intros r Hr. unfold candidates in Hr.
  apply filter_In in Hr. destruct Hr as [_ Hle].
  apply num_leb_true in Hle. destruct Hle as [x [y [Hx _]]]. exists x. exact Hx.
Qed.

(** X10. The ranked groups are the nearest of the groups within the
    radius: there are three of them, or all the groups within the radius if
    these are fewer; each is a group within the radius; and a group within
    the radius that is left out is at least as far as every ranked one. *)
Theorem rankStations_keeps_the_nearest :
  forall (calcDist : Q -> Q -> Q -> Q -> number) (latitude longitude : Q)
         (radius : number) (stationGroups : JsMap.t StationGroup.t),
    List.length (rankStations calcDist latitude longitude radius stationGroups)
    = Nat.min 3 (List.length (candidates calcDist latitude longitude radius stationGroups)) /\
    (forall r,
       In r (rankStations calcDist latitude longitude radius stationGroups) ->
       In r (candidates calcDist latitude longitude radius stationGroups)) /\
    (forall candidate r,
       In candidate (candidates calcDist latitude longitude radius stationGroups) ->
       In r (rankStations calcDist latitude longitude radius stationGroups) ->
       In candidate (rankStations calcDist latitude longitude radius stationGroups) \/
       num_leb (distance r) (distance candidate) = true).
Proof.
  intros calcDist latitude longitude radius stationGroups.
  assert (Hrank : rankStations calcDist latitude longitude radius stationGroups
                  = firstn 3 (sort (by_distance distance)
                                (candidates calcDist latitude longitude radius stationGroups)))
    by reflexivity.
  rewrite Hrank.
  pose proof (candidates_are_numbers calcDist latitude longitude radius stationGroups) as Hnum.
  set (within := candidates calcDist latitude longitude radius stationGroups) in *.
  split; [rewrite length_firstn, sort_length; reflexivity |].
  split.
  - intros r Hr. apply firstn_In_incl in Hr.
    apply (proj1 (sort_In distance within r)). exact Hr.
  - intros candidate r Hc Hr.
    apply (proj2 (sort_In distance within candidate)) in Hc.
    pose proof (sort_ascending distance within Hnum) as Hsorted.
    unfold ascending in Hsorted.
    rewrite <- (firstn_skipn 3 (sort (by_distance distance) within)) in Hc, Hsorted.
    apply in_app_or in Hc. destruct Hc as [Hc | Hc]; [left; exact Hc | right].
    exact (StronglySorted_app_cross _ _ _ Hsorted r candidate Hr Hc).
Qed.

(** ** The routes of the returned stations *)

Lemma getLineInfo_in_table route line :
  getLineInfo route = Some line -> exists key, MBTA_LINES key = Some line.
Proof.
  unfold getLineInfo. destruct route as [route |]; [| discriminate].
  destruct (attributes route) as [attrs |]; [| discriminate].
  cbv zeta.
  repeat match goal with
         | |- (if ?c then _ else _) = _ -> _ => destruct c
         end;
    try discriminate; intros H; eexists; exact H.
Qed.

Lemma classifyRoutes_lines routes : Forall is_line (classifyRoutes routes).
Proof.
  induction routes as [| route rest IH]; cbn [classifyRoutes]; [constructor |].
  destruct (getLineInfo (Some route)) as [line |] eqn:E; [| exact IH].
  constructor; [| exact IH].
  destruct (getLineInfo_in_table _ _ E) as [key Hkey].
  exists key, line. split; [exact Hkey |]. split; reflexivity.
Qed.

Lemma JsMap_get_values {V : Type} (m : JsMap.t V) k v :
  JsMap.get m k = Some v -> In v (JsMap.values m).
Proof.
  intros H. apply JsMap_get_In in H. unfold JsMap.values.
  apply (in_map snd) in H. exact H.
Qed.

Section RoutesOfStations.

Variable w : World.

(** What the loop body enters for a stop: nothing, or classified routes. *)
Lemma fetchStopRoutes_lines allStopIds stopRoutesMap stopId st stopRoutesMap' st' :
  fetchStopRoutes w allStopIds stopRoutesMap stopId st = (Returned stopRoutesMap', st') ->
  exists routes,
    stopRoutesMap' = JsMap.set stopRoutesMap stopId routes /\ Forall is_line routes.
Proof.
  unfold fetchStopRoutes, try_catch, bind.
  set (call := makeApiCall (stop_routes_endpoint w stopId) (stopRoutesUrl stopId) 2).
  destruct (match hd_error allStopIds with
            | Some first => negb (stopId =? first)
            | None => true
            end); unfold delay, ret, throw; cbv beta iota.
  - destruct (call (after_delay 500 st)) as [[[body |] | e] st1].
    + destruct (data body) as [routes |]; intros H; injection H as <- _; eexists;
        (split; [reflexivity |]); [apply classifyRoutes_lines | constructor].
    + intros H; injection H as <- _; eexists; split; [reflexivity | constructor].
    + intros H; injection H as <- _; eexists; split; [reflexivity | constructor].
  - destruct (call st) as [[[body |] | e] st1].
    + destruct (data body) as [routes |]; intros H; injection H as <- _; eexists;
        (split; [reflexivity |]); [apply classifyRoutes_lines | constructor].
    + intros H; injection H as <- _; eexists; split; [reflexivity | constructor].
    + intros H; injection H as <- _; eexists; split; [reflexivity | constructor].
Qed.

Lemma fetchAllStopRoutes_lines allStopIds todo :
  forall stopRoutesMap st stopRoutesMap' st',
    fetchAllStopRoutes w allStopIds todo stopRoutesMap st = (Returned stopRoutesMap', st') ->
    (forall routes, In routes (JsMap.values stopRoutesMap) -> Forall is_line routes) ->
    forall routes, In routes (JsMap.values stopRoutesMap') -> Forall is_line routes.
Proof.
  induction todo as [| stopId rest IH]; intros m st m' st' Hrun Hm;
    cbn [fetchAllStopRoutes] in Hrun.
  - injection Hrun as <- _. exact Hm.
  - unfold bind in Hrun.
    destruct (fetchStopRoutes w allStopIds m stopId st) as [[m1 | e] st1] eqn:Hbody;
      [| discriminate].
    destruct (fetchStopRoutes_lines _ _ _ _ _ _ Hbody) as [entered [-> Hentered]].
    apply (IH _ _ _ _ Hrun). intros routes Hin.
    apply JsMap_values_set in Hin. destruct Hin as [-> | Hin]; [exact Hentered | apply Hm, Hin].
Qed.

End RoutesOfStations.

(** The routes of a group: one per route id, each from the map. *)
Lemma groupRoutes_lines stopRoutesMap stops :
  (forall routes, In routes (JsMap.values stopRoutesMap) -> Forall is_line routes) ->
  NoDup (map RouteInfo.id (groupRoutes stopRoutesMap stops)) /\
  Forall is_line (groupRoutes stopRoutesMap stops).
Proof.
  intros Hm. unfold groupRoutes. cbv zeta.
  set (step := fun (allRoutes : JsMap.t RouteInfo.t) (stop : Stop) =>
                 fold_left (fun m route => JsMap.set m (RouteInfo.id route) route)
                   match JsMap.get stopRoutesMap (id stop) with
                   | Some routes => routes
                   | None => []
                   end allRoutes).
  assert (Hinv : forall allRoutes,
             NoDup (JsMap.keys allRoutes) -> well_keyed allRoutes ->
             Forall is_line (JsMap.values allRoutes) ->
             NoDup (JsMap.keys (fold_left step stops allRoutes)) /\
             well_keyed (fold_left step stops allRoutes) /\
             Forall is_line (JsMap.values (fold_left step stops allRoutes))).
  { induction stops as [| stop rest IH]; intros m Hnd Hwk Hl; cbn [fold_left].
    - repeat split; assumption.
    - assert (Hstop : Forall is_line match JsMap.get stopRoutesMap (id stop) with
                                     | Some routes => routes
                                     | None => []
                                     end).
      { destruct (JsMap.get stopRoutesMap (id stop)) as [routes |] eqn:E; [| constructor].
        apply Hm. apply (JsMap_get_values _ _ _ E). }
      destruct (enter_routes false
                  match JsMap.get stopRoutesMap (id stop) with
                  | Some routes => routes
                  | None => []
                  end m) as [H1 [H2 [_ H4]]].
      cbn [andb] in H1, H2, H4.
      apply IH; [apply H1, Hnd | apply H2, Hwk |].
      apply Forall_forall. intros v Hv. apply H4 in Hv.
      rewrite Forall_forall in Hl, Hstop. destruct Hv as [Hv | Hv]; auto. }
  destruct (Hinv JsMap.empty) as [Hnd [Hwk Hl]].
  - constructor.
  - intros k v [].
  - constructor.
  - split; [| exact Hl]. rewrite well_keyed_ids; assumption.
Qed.

Lemma buildStations_lines stopRoutesMap ranked :
  forall pre,
    buildStations stopRoutesMap ranked = Returned pre ->
    (forall routes, In routes (JsMap.values stopRoutesMap) -> Forall is_line routes) ->
    Forall distinct_lines pre.
Proof.
  induction ranked as [| r rest IH]; intros pre Hrun Hm; cbn [buildStations] in Hrun.
  - injection Hrun as <-. constructor.
  - destruct (buildStation stopRoutesMap r) as [station | e] eqn:Hone; [| discriminate].
    destruct (buildStations stopRoutesMap rest) as [stations | e]; [| discriminate].
    injection Hrun as <-. constructor; [| apply IH; [reflexivity | exact Hm]].
    unfold buildStation in Hone. cbv zeta in Hone.
    destruct (StationGroup.stops (stationGroup r)) as [| first others] eqn:Hstops;
      [discriminate |].
    injection Hone as <-. unfold distinct_lines, routeIds. cbn [Station.routes].
    match goal with |- context [if ?c then _ else _] => destruct c end.
    + apply groupRoutes_lines. exact Hm.
    + split; constructor.
Qed.

Lemma mergeStation_lines e s :
  distinct_lines e -> distinct_lines s -> distinct_lines (mergeStation e s).
Proof.
  unfold distinct_lines, routeIds, mergeStation. cbv zeta. cbn [Station.routes].
  intros [_ He] [_ Hs].
  destruct (mergeRoutes_union (Station.routes e) (Station.routes s)) as [Hnd [_ Hfrom]].
  split; [exact Hnd |]. apply Forall_forall. intros route Hin.
  rewrite Forall_forall in He, Hs. destruct (Hfrom route Hin); auto.
Qed.

Lemma mergeInto_lines unique station :
  Forall distinct_lines unique -> distinct_lines station ->
  Forall distinct_lines (mergeInto unique station).
Proof.
  intros Hu Hs. induction Hu as [| s rest Hfirst Hrest IH]; cbn [mergeInto].
  - constructor; [exact Hs | constructor].
  - destruct (nameKey s =? nameKey station).
    + constructor; [apply mergeStation_lines; assumption | exact Hrest].
    + constructor; assumption.
Qed.

Lemma mergeStations_lines l :
  Forall distinct_lines l -> Forall distinct_lines (mergeStations l).
Proof.
  unfold mergeStations.
  assert (H : forall unique, Forall distinct_lines unique -> Forall distinct_lines l ->
                             Forall distinct_lines (fold_left mergeInto l unique)).
  { induction l as [| s rest IH]; intros unique Hu Hl; cbn [fold_left]; [exact Hu |].
    inversion Hl as [| ? ? Hs Hrest]; subst.
    apply IH; [apply mergeInto_lines; assumption | exact Hrest]. }
  apply H. constructor.
Qed.

(** The steps of a run of the resolver that returns. *)
Lemma resolveStations_inv w calcDist latitude longitude radius stops st stations st' :
  resolveStations w calcDist latitude longitude radius stops st = (Returned stations, st') ->
  exists stationGroups stopRoutesMap pre,
    groupStops stops = Returned stationGroups /\
    fetchAllStopRoutes w
      (collectStopIds (rankStations calcDist latitude longitude radius stationGroups))
      (collectStopIds (rankStations calcDist latitude longitude radius stationGroups))
      JsMap.empty st = (Returned stopRoutesMap, st') /\
    buildStations stopRoutesMap
      (rankStations calcDist latitude longitude radius stationGroups) = Returned pre /\
    stations = mergeStations pre.
Proof.
  unfold resolveStations, bind, lift, ret. cbv zeta.
  destruct (groupStops stops) as [stationGroups | e]; [| discriminate].
  set (ranked := rankStations calcDist latitude longitude radius stationGroups).
  assert (Hslice : slice0 3 ranked = ranked).
  { subst ranked. unfold rankStations, slice0. rewrite firstn_firstn. reflexivity. }
  rewrite Hslice.
  destruct (fetchAllStopRoutes w (collectStopIds ranked) (collectStopIds ranked)
              JsMap.empty st) as [[stopRoutesMap | e] st1] eqn:Hloop; [| discriminate].
  destruct (buildStations stopRoutesMap ranked) as [pre | e] eqn:Hbuild; [| discriminate].
  intros H. injection H as <- <-.
  exists stationGroups, stopRoutesMap, pre.
  split; [reflexivity |]. split; [exact Hloop |]. split; [exact Hbuild | reflexivity].
Qed.

(** X11. In a list returned by [fetchNearbyStations], no station lists a
    route id twice, and every listed route shows the symbol and colour of
    one of the lines of the table. *)
Theorem returned_routes_are_distinct_lines :
  forall (w : World) (calcDist : Q -> Q -> Q -> Q -> number)
         (latitude longitude : Q) (radius : number) (st st' : State)
         (stations : list Station.t),
    fetchNearbyStations w calcDist latitude longitude radius st = (Returned stations, st') ->
    forall station,
      In station stations ->
      NoDup (routeIds station) /\
      (forall route, In route (Station.routes station) -> is_line route).
Proof.
  intros w calcDist latitude longitude radius st st' stations Hrun station Hin.
  apply fetchNearbyStations_returned in Hrun. destruct Hrun as [stops [st1 Hres]].
  apply resolveStations_inv in Hres.
  destruct Hres as [stationGroups [stopRoutesMap [pre [_ [Hloop [Hbuild ->]]]]]].
  assert (Hm : forall routes, In routes (JsMap.values stopRoutesMap) -> Forall is_line routes).
  { apply (fetchAllStopRoutes_lines _ _ _ _ _ _ _ Hloop). intros routes []. }
  pose proof (mergeStations_lines pre (buildStations_lines _ _ _ Hbuild Hm)) as Hall.
  rewrite Forall_forall in Hall. destruct (Hall station Hin) as [Hnd Hlines].
  split; [exact Hnd |]. intros route Hroute.
  rewrite Forall_forall in Hlines. apply Hlines. exact Hroute.
Qed.

Lemma returned_routes_are_distinct_lines_witness :
  exists stations st',
    fetchNearbyStations downtown_world grid_distance
      query_latitude query_longitude (Num (125 # 100)) (initial_state 0)
    = (Returned stations, st') /\
    map routeIds stations
    = [ ["Red"; "Green-B"; "Green-C"; "Green-D"; "Green-E"];
        ["Red"; "Green-B"; "Green-C"; "Green-D"; "Green-E"];
        ["Red"; "Green-B"; "Green-C"; "Green-D"; "Green-E"] ] /\
    forall station,
      In station stations ->
      NoDup (routeIds station) /\
      (forall route, In route (Station.routes station) -> is_line route).
Proof.
  eassert (Hrun : fetchNearbyStations downtown_world grid_distance
                    query_latitude query_longitude (Num (125 # 100)) (initial_state 0)
                  = (Returned _, _)) by (vm_compute; reflexivity).
  eexists. eexists. split; [exact Hrun |]. split; [vm_compute; reflexivity |].
  exact (returned_routes_are_distinct_lines _ _ _ _ _ _ _ _ Hrun).
Defined.

(** ** Where the returned stations come from *)

(** A group of the grouping starts with a kept stop, which gives it its
    name and coordinate. *)
Lemma groupStops_first_stop stops stationGroups g :
  groupStops stops = Returned stationGroups ->
  In g (JsMap.values stationGroups) ->
  exists first rest,
    StationGroup.stops g = first :: rest /\
    In first stops /\ has_coordinates first = true /\
    StationGroup.name g = name (attributes first) /\
    StationGroup.latitude g = latitude (attributes first) /\
    StationGroup.longitude g = longitude (attributes first).
Proof.
  intros Hrun Hin. destruct (addStops_groups _ _ _ Hrun) as [Hget Hkeys].
  assert (Hnd : NoDup (JsMap.keys stationGroups)).
  { rewrite Hkeys. cbn.
    assert (Hall : forall ks : list string, filter (absent []) ks = ks).
    { induction ks as [| k ks IH]; cbn; [reflexivity | f_equal; exact IH]. }
    rewrite Hall. apply first_occurrences_NoDup. }
  unfold JsMap.values in Hin. apply in_map_iff in Hin.
  destruct Hin as [[key g'] [Heq Hin]]. cbn in Heq. subst g'.
  apply (JsMap_In_get _ _ _ Hnd) in Hin. rewrite Hget in Hin. cbn in Hin.
  destruct (filter (has_key key) (filter has_coordinates stops)) as [| first rest] eqn:Hf;
    [discriminate |].
  injection Hin as <-. exists first, rest. cbn.
  assert (Hfirst : In first (filter (has_key key) (filter has_coordinates stops)))
    by (rewrite Hf; left; reflexivity).
  apply filter_In in Hfirst. destruct Hfirst as [Hfirst _].
  apply filter_In in Hfirst. destruct Hfirst as [Hfirst Hcoord].
  repeat split; assumption.
Qed.

Lemma rankStations_distance calcDist lat lon radius stationGroups r :
  In r (rankStations calcDist lat lon radius stationGroups) ->
  In (stationGroup r) (JsMap.values stationGroups) /\
  distance r = distanceTo calcDist lat lon
                 (StationGroup.latitude (stationGroup r))
                 (StationGroup.longitude (stationGroup r)).
Proof.
  unfold rankStations, slice0. intros Hr. apply firstn_In_incl in Hr.
  apply (proj1 (sort_In distance _ r)) in Hr. apply filter_In in Hr.
  destruct Hr as [Hr _]. apply in_map_iff in Hr. destruct Hr as [g [<- Hg]].
  split; [exact Hg | reflexivity].
Qed.

Lemma buildStations_from stopRoutesMap ranked :
  forall pre,
    buildStations stopRoutesMap ranked = Returned pre ->
    forall s, In s pre ->
      exists r first others,
        In r ranked /\
        StationGroup.stops (stationGroup r) = first :: others /\
        Station.id s = id first /\
        Station.name s = StationGroup.name (stationGroup r) /\
        Station.latitude s = StationGroup.latitude (stationGroup r) /\
        Station.longitude s = StationGroup.longitude (stationGroup r) /\
        Station.distance s = distance r.
Proof.
  induction ranked as [| r rest IH]; intros pre Hrun s Hs; cbn [buildStations] in Hrun.
  - injection Hrun as <-. destruct Hs.
  - destruct (buildStation stopRoutesMap r) as [station | e] eqn:Hone; [| discriminate].
    destruct (buildStations stopRoutesMap rest) as [stations | e]; [| discriminate].
    injection Hrun as <-. destruct Hs as [<- | Hs].
    + unfold buildStation in Hone. cbv zeta in Hone.
      destruct (StationGroup.stops (stationGroup r)) as [| first others] eqn:Hstops;
        [discriminate |].
      injection Hone as <-. exists r, first, others.
      split; [left; reflexivity |]. split; [exact Hstops |].
      cbn. repeat split.
    + destruct (IH stations eq_refl s Hs) as [r' [first [others [Hr' Hrest]]]].
      exists r', first, others. split; [right; exact Hr' | exact Hrest].
Qed.

Lemma same_place_refl s : same_place s s.
Proof. repeat split. Qed.

(** Later stations that are no closer leave the first where it is. *)
Lemma fold_mergeStation_place later :
  forall first,
    Forall (fun x => num_ltb (Station.distance x) (Station.distance first) = false) later ->
    same_place (fold_left mergeStation later first) first.
Proof.
  induction later as [| x later IH]; intros first Hfar; cbn [fold_left].
  - apply same_place_refl.
  - inversion Hfar as [| ? ? Hx Hrest]; subst.
    assert (Hstep : same_place (mergeStation first x) first).
    { unfold same_place, mergeStation. cbn. rewrite Hx. repeat split. }
    destruct Hstep as [H1 [H2 [H3 [H4 H5]]]].
    destruct (IH (mergeStation first x)) as [K1 [K2 [K3 [K4 K5]]]].
    { rewrite H5. exact Hrest. }
    unfold same_place. rewrite K1, K2, K3, K4, K5. repeat split; assumption.
Qed.

Lemma lookupName_In l :
  NoDup (map nameKey l) ->
  forall s, In s l -> lookupName (nameKey s) l = Some s.
Proof.
  unfold lookupName. induction l as [| x l IH]; cbn [map find]; intros Hnd s Hs;
    [destruct Hs |].
  inversion Hnd as [| ? ? Hnotin Hrest]; subst.
  destruct Hs as [<- | Hs].
  - rewrite String.eqb_refl. reflexivity.
  - destruct (String.eqb_spec (nameKey x) (nameKey s)) as [Heq | Hne].
    + exfalso. apply Hnotin. rewrite Heq. apply in_map. exact Hs.
    + apply IH; assumption.
Qed.

Lemma StronglySorted_filter {X : Type} (R : X -> X -> Prop) (p : X -> bool) l :
  StronglySorted R l -> StronglySorted R (filter p l).
Proof.
  induction 1 as [| x l Hl IH Hx]; cbn [filter]; [constructor |].
  destruct (p x); [| exact IH]. constructor; [exact IH |].
  apply Forall_forall. intros y Hy. apply filter_In in Hy.
  rewrite Forall_forall in Hx. apply Hx. apply Hy.
Qed.

(** In a list in ascending order of distance the merge moves no station:
    each merged station is where the first station of its name was. *)
Lemma mergeStations_first_place l :
  ascending Station.distance l ->
  forall s, In s (mergeStations l) ->
    exists first later,
      namesakes (nameKey s) l = first :: later /\ same_place s first.
Proof.
  intros Hasc s Hs.
  assert (Hnd : NoDup (map nameKey (mergeStations l)))
    by (rewrite keys_mergeStations; apply first_occurrences_NoDup).
  pose proof (lookupName_In _ Hnd s Hs) as Hlook.
  rewrite lookupName_mergeStations in Hlook. unfold mergedFor in Hlook.
  pose proof (StronglySorted_filter _ (fun x => nameKey x =? nameKey s) l Hasc) as Hsorted.
  fold (namesakes (nameKey s) l) in Hsorted.
  destruct (namesakes (nameKey s) l) as [| first later]; [discriminate |].
  injection Hlook as <-. exists first, later. split; [reflexivity |].
  apply fold_mergeStation_place.
  inversion Hsorted as [| ? ? _ Hfirst]; subst.
  apply Forall_forall. intros x Hx. rewrite Forall_forall in Hfirst.
  apply num_leb_not_ltb. apply Hfirst. exact Hx.
Qed.

(** X12. The resolver invents no station: from any stop list it returns,
    and each returned station has the id, name and coordinate of one of the
    stops that have a latitude and a longitude, at the distance of the
    query point to that stop, which is within the radius. And the name
    merge moves no station of a list in ascending order of distance: each
    merged station has the id, name, coordinate and distance of the first
    station of its name. *)
Theorem returned_stations_show_fetched_stops :
  forall (w : World) (calcDist : Q -> Q -> Q -> Q -> number) (lat lon : Q)
         (radius : number) (stops : list Stop) (st : State),
    (exists stations st',
       resolveStations w calcDist lat lon radius stops st = (Returned stations, st') /\
       forall station,
         In station stations ->
         exists stop,
           In stop stops /\ has_coordinates stop = true /\
           shows_stop calcDist lat lon station stop /\
           num_leb (Station.distance station) radius = true) /\
    (forall stationsWithRoutes,
       ascending Station.distance stationsWithRoutes ->
       forall station,
         In station (mergeStations stationsWithRoutes) ->
         exists first later,
           namesakes (nameKey station) stationsWithRoutes = first :: later /\
           same_place station first).
Proof.
  intros w calcDist lat lon radius stops st.
  split; [| intros l Hl station Hin; apply (mergeStations_first_place l Hl station Hin)].
  destruct (resolveStations_spec w calcDist lat lon radius stops st)
    as [stationGroups [stopRoutesMap [pre [st' [Hgroups [Hbuild [Hrun [Hd _]]]]]]]].
  exists (mergeStations pre), st'. split; [exact Hrun |].
  pose proof (rankStations_spec calcDist lat lon radius stationGroups) as Hrank.
  cbn zeta in Hrank. destruct Hrank as [_ [Hwithin [Hasc _]]].
  assert (Hpre : ascending Station.distance pre).
  { apply (proj2 (ascending_map Station.distance pre)). rewrite Hd.
    apply (proj1 (ascending_map distance _)). exact Hasc. }
  intros station Hin.
  destruct (mergeStations_first_place pre Hpre station Hin)
    as [first [later [Hnames [P1 [P2 [P3 [P4 P5]]]]]]].
  assert (Hfirst : In first pre).
  { assert (H : In first (namesakes (nameKey station) pre))
      by (rewrite Hnames; left; reflexivity).
    apply filter_In in H. apply H. }
  destruct (buildStations_from _ _ _ Hbuild first Hfirst)
    as [r [stop [others [Hr [Hstops [B1 [B2 [B3 [B4 B5]]]]]]]]].
  destruct (rankStations_distance _ _ _ _ _ _ Hr) as [Hg Hdist].
  destruct (groupStops_first_stop _ _ _ Hgroups Hg)
    as [stop' [rest [Hstops' [Hstop [Hcoord [G1 [G2 G3]]]]]]].
  rewrite Hstops in Hstops'. injection Hstops' as <- <-.
  exists stop. split; [exact Hstop |]. split; [exact Hcoord |]. split.
  - unfold shows_stop. rewrite P1, P2, P3, P4, P5, B1, B2, B3, B4, B5, Hdist, G1, G2, G3.
    repeat split.
  - rewrite P5, B5. rewrite Forall_forall in Hwithin. apply Hwithin. exact Hr.
Qed.

Lemma returned_stations_show_fetched_stops_witness :
  ascending Station.distance [park_street_lower; park_street_upper] /\
  map Station.id (mergeStations [park_street_lower; park_street_upper]) = ["70200"] /\
  forall station,
    In station (mergeStations [park_street_lower; park_street_upper]) ->
    exists first later,
      namesakes (nameKey station) [park_street_lower; park_street_upper] = first :: later /\
      same_place station first.
Proof.
  assert (Hasc : ascending Station.distance [park_street_lower; park_street_upper]).
  { repeat constructor. }
  split; [exact Hasc |]. split; [reflexivity |].
  exact (proj2 (returned_stations_show_fetched_stops downtown_world grid_distance
                  query_latitude query_longitude (Num (125 # 100)) downtown_stops
                  (initial_state 0))
           [park_street_lower; park_street_upper] Hasc).
Defined.

(** ** Nothing within the radius *)

(** X13. When no stop with a coordinate is within the radius, the
    resolver returns the empty list and asks for no route detail: the state
    is left as it was. *)
Theorem resolveStations_nothing_within_radius :
  forall (w : World) (calcDist : Q -> Q -> Q -> Q -> number) (lat lon : Q)
         (radius : number) (stops : list Stop) (st : State),
    (forall stop,
       In stop stops -> has_coordinates stop = true ->
       num_leb (distanceTo calcDist lat lon
                  (latitude (attributes stop)) (longitude (attributes stop)))
               radius = false) ->
    resolveStations w calcDist lat lon radius stops st = (Returned [], st).
Proof.
  intros w calcDist lat lon radius stops st Hfar.
  destruct (groupStops_defined stops) as [stationGroups [Hgroups _]].
  assert (Hnone : rankStations calcDist lat lon radius stationGroups = []).
  { destruct (rankStations calcDist lat lon radius stationGroups) as [| r rest] eqn:E;
      [reflexivity | exfalso].
    assert (Hr : In r (rankStations calcDist lat lon radius stationGroups))
      by (rewrite E; left; reflexivity).
    pose proof (rankStations_spec calcDist lat lon radius stationGroups) as Hspec.
    cbn zeta in Hspec. destruct Hspec as [_ [Hwithin _]].
    rewrite Forall_forall in Hwithin. pose proof (Hwithin r Hr) as Hle.
    destruct (rankStations_distance _ _ _ _ _ _ Hr) as [Hg Hd].
    destruct (groupStops_first_stop _ _ _ Hgroups Hg)
      as [first [others [_ [Hin [Hcoord [_ [G2 G3]]]]]]].
    rewrite Hd, G2, G3, (Hfar first Hin Hcoord) in Hle. discriminate. }
  unfold resolveStations, bind, lift, ret. rewrite Hgroups. cbv zeta.
  rewrite Hnone. reflexivity.
Qed.

Lemma resolveStations_nothing_within_radius_witness :
  (forall stop,
     In stop downtown_stops -> has_coordinates stop = true ->
     num_leb (distanceTo grid_distance query_latitude query_longitude
                (latitude (attributes stop)) (longitude (attributes stop)))
             (Num (1 # 100)) = false) /\
  resolveStations downtown_world grid_distance query_latitude query_longitude
    (Num (1 # 100)) downtown_stops (initial_state 0)
  = (Returned [], initial_state 0).
Proof.
  assert (Hfar : forall stop,
             In stop downtown_stops -> has_coordinates stop = true ->
             num_leb (distanceTo grid_distance query_latitude query_longitude
                        (latitude (attributes stop)) (longitude (attributes stop)))
                     (Num (1 # 100)) = false).
  { intros stop Hin _. unfold downtown_stops in Hin.
    repeat (destruct Hin as [<- | Hin]; [vm_compute; reflexivity |]). destruct Hin. }
  split; [exact Hfar |].
  exact (resolveStations_nothing_within_radius downtown_world grid_distance
           query_latitude query_longitude (Num (1 # 100)) downtown_stops
           (initial_state 0) Hfar).
Defined.

(** ** What a resolution costs *)

Lemma spent_refl st : spent 0 0 0 st st.
Proof. unfold spent. repeat split; lia. Qed.

Lemma spent_trans l1 m1 t1 l2 m2 t2 st st1 st2 :
  spent l1 m1 t1 st st1 -> spent l2 m2 t2 st1 st2 ->
  spent (l1 + l2) (m1 + m2) (t1 + t2) st st2.
Proof.
  unfold spent. intros [H1 [H2 [H3 H4]]] [K1 [K2 [K3 K4]]].
  repeat split; try lia; congruence.
Qed.

(** A call with two tries: one or two requests, at most 2 + 4 seconds of
    waiting. *)
Lemma makeApiCall_two_tries {A : Type} (endpoint : nat -> FetchOutcome A) url st :
  spent 1 2 6000 st (snd (makeApiCall endpoint url 2 st)).
Proof.
  unfold makeApiCall.
  pose proof (loop_run endpoint url 2 2 1 st eq_refl) as H.
  destruct H as [Hc [Ht Hr]]. unfold spent.
  split; [| split; [| split; assumption]];
    destruct (fst (makeApiCall_loop endpoint url 2 2 1 st)) as [[body |] | e].
  - destruct Hr as [j [status [Hj [Hreq _]]]]. lia.
  - destruct Hr as [Hreq _]. lia.
  - destruct Hr as [j [Hj [Hreq _]]]. lia.
  - destruct Hr as [j [status [Hj [_ [_ [Hnow _]]]]]].
    assert (Hcases : j = 0%nat \/ j = 1%nat) by lia.
    destruct Hcases as [-> | ->];
      [change (backoff_total 1 0) with 0%Z in Hnow
      | change (backoff_total 1 1) with 2000%Z in Hnow]; lia.
  - destruct Hr as [_ [_ [Hnow _]]]. change (backoff_total 1 2) with 6000%Z in Hnow. lia.
  - destruct Hr as [j [Hj [_ [_ [Hnow _]]]]].
    assert (j = 1%nat) by lia. subst j. change (backoff_total 1 1) with 2000%Z in Hnow. lia.
Qed.

Section ResolutionCost.

Variable w : World.

Lemma fetchStopRoutes_cost allStopIds stopRoutesMap stopId st :
  spent 1 2 6500 st (snd (fetchStopRoutes w allStopIds stopRoutesMap stopId st)).
Proof.
  assert (Hbefore : spent 0 0 500 st (before_stop_request allStopIds stopId st)).
  { unfold before_stop_request.
    destruct (match hd_error allStopIds with
              | Some first => negb (stopId =? first)
              | None => true
              end); unfold spent; cbn; repeat split; lia. }
  pose proof (makeApiCall_two_tries (stop_routes_endpoint w stopId) (stopRoutesUrl stopId)
                (before_stop_request allStopIds stopId st)) as Hcall.
  pose proof (spent_trans _ _ _ _ _ _ _ _ _ Hbefore Hcall) as Hboth.
  cbn in Hboth.
  assert (Hsnd : snd (fetchStopRoutes w allStopIds stopRoutesMap stopId st)
                 = snd (makeApiCall (stop_routes_endpoint w stopId) (stopRoutesUrl stopId) 2
                          (before_stop_request allStopIds stopId st))).
  { unfold fetchStopRoutes, before_stop_request, try_catch, bind.
    set (call := makeApiCall (stop_routes_endpoint w stopId) (stopRoutesUrl stopId) 2).
    destruct (match hd_error allStopIds with
              | Some first => negb (stopId =? first)
              | None => true
              end); unfold delay, ret, throw; cbv beta iota.
    - destruct (call (after_delay 500 st)) as [[[body |] | e] st1];
        [destruct (data body) | |]; reflexivity.
    - destruct (call st) as [[[body |] | e] st1];
        [destruct (data body) | |]; reflexivity. }
  rewrite Hsnd. exact Hboth.
Qed.

Lemma fetchAllStopRoutes_cost allStopIds todo :
  forall stopRoutesMap st,
    spent (List.length todo) (2 * List.length todo)
          (6500 * Z.of_nat (List.length todo)) st
          (snd (fetchAllStopRoutes w allStopIds todo stopRoutesMap st)).
Proof.
  induction todo as [| stopId rest IH]; intros m st; cbn [fetchAllStopRoutes].
  - cbn. apply spent_refl.
  - unfold bind.
    pose proof (fetchStopRoutes_cost allStopIds m stopId st) as Hone.
    destruct (fetchStopRoutes_returns w allStopIds m stopId st) as [routes [st1 Hret]].
    rewrite Hret in Hone |- *. cbn [snd] in Hone.
    pose proof (spent_trans _ _ _ _ _ _ _ _ _ Hone (IH (JsMap.set m stopId routes) st1)) as H.
    replace (List.length (stopId :: rest)) with (1 + List.length rest)%nat by reflexivity.
    replace (2 * (1 + List.length rest))%nat with (2 + 2 * List.length rest)%nat by lia.
    replace (6500 * Z.of_nat (1 + List.length rest))%Z
      with (6500 + 6500 * Z.of_nat (List.length rest))%Z by lia.
    exact H.
Qed.

End ResolutionCost.


(** ** The merge, applied again *)

Lemma mergeInto_new unique station :
  ~ In (nameKey station) (map nameKey unique) ->
  mergeInto unique station = (unique ++ [station])%list.
Proof.
  induction unique as [| s rest IH]; cbn [mergeInto map app]; intros Hnew; [reflexivity |].
  destruct (String.eqb_spec (nameKey s) (nameKey station)) as [Heq | Hne].
  - exfalso. apply Hnew. left. exact Heq.
  - rewrite IH; [reflexivity |]. intros Hin. apply Hnew. right. exact Hin.
Qed.

Lemma fold_mergeInto_distinct l :
  forall unique,
    NoDup (map nameKey (unique ++ l)) ->
    fold_left mergeInto l unique = (unique ++ l)%list.
Proof.
  induction l as [| s rest IH]; intros unique Hnd; cbn [fold_left].
  - rewrite app_nil_r. reflexivity.
  - assert (Hnew : ~ In (nameKey s) (map nameKey unique)).
    { rewrite map_app in Hnd. cbn [map] in Hnd.
      apply NoDup_remove_2 in Hnd. intros Hin. apply Hnd.
      apply in_or_app. left. exact Hin. }
    rewrite (mergeInto_new unique s Hnew), IH; rewrite <- app_assoc; [reflexivity |].
    exact Hnd.
Qed.

(** X15. The merge leaves a list alone exactly when no two of its
    stations have the same name up to case and surrounding white space; so
    merging a merged list changes nothing. *)
Theorem mergeStations_idempotent :
  forall l : list Station.t,
    (mergeStations l = l <-> NoDup (map nameKey l)) /\
    mergeStations (mergeStations l) = mergeStations l.
Proof.
  intros l.
  assert (Hfix : forall l', NoDup (map nameKey l') -> mergeStations l' = l').
  { intros l' Hnd. unfold mergeStations. rewrite fold_mergeInto_distinct; [reflexivity |].
    exact Hnd. }
  split; [split |].
  - intros Heq. rewrite <- Heq, keys_mergeStations. apply first_occurrences_NoDup.
  - apply Hfix.
  - apply Hfix. rewrite keys_mergeStations. apply first_occurrences_NoDup.
Qed.

(** ** The Green branches *)

Lemma prefix_first c rest s :
  String.prefix (String c rest) s = true ->
  String.prefix (String c EmptyString) s = true.
Proof.
  destruct s as [| c' s']; cbn; [discriminate |].
  destruct (Ascii.ascii_dec c c'); [| discriminate].
  intros _. destruct s'; reflexivity.
Qed.

(** A string that holds a word holds the first letter of the word. *)
Lemma includes_first c rest s :
  includes s (String c rest) = true -> includes s (String c EmptyString) = true.
Proof.
  induction s as [| c' s' IH]; intros H.
  - cbn in H. discriminate.
  - cbn [includes] in H |- *.
    destruct (String.prefix (String c rest) (String c' s')) eqn:E.
    + rewrite (prefix_first _ _ _ E). reflexivity.
    + destruct (String.prefix (String c EmptyString) (String c' s')); [reflexivity |].
      apply IH. exact H.
Qed.

(** X16. The rule for branch B takes every Green route whose name holds
    a capital B, the B of "Branch" included: a route named
    "Green Line C Branch" is classified as Green-B, and a route is
    classified as branch C, D or E only if its name holds no capital B. *)
Theorem getLineInfo_branch_B_takes_every_Branch :
  (forall (rid : string) (attrs : RouteAttributes),
     includes (routeNameOf attrs) "Green" = true ->
     includes (routeNameOf attrs) "Branch" = true ->
     In (getLineInfo (Some (mkResource rid (Some attrs))))
        [MBTA_LINES "Red"; MBTA_LINES "Orange"; MBTA_LINES "Blue"; MBTA_LINES "Green-B"]) /\
  (forall (rid : string) (attrs : RouteAttributes),
     In (getLineInfo (Some (mkResource rid (Some attrs))))
        [MBTA_LINES "Green-C"; MBTA_LINES "Green-D"; MBTA_LINES "Green-E"] ->
     includes (routeNameOf attrs) "B" = false) /\
  getLineInfo (Some (named_route "Green-C" "Green Line C Branch")) = MBTA_LINES "Green-B" /\
  getLineInfo (Some (named_route "Green-C" "Green Line C")) = MBTA_LINES "Green-C".
Proof.
  split; [| split; [| split; reflexivity]].
  - intros rid attrs Hgreen Hbranch.
    apply includes_first in Hbranch.
    unfold getLineInfo. cbn [attributes id]. cbv zeta.
    fold (routeNameOf attrs). rewrite Hgreen, Hbranch. cbn [andb].
    destruct (includes (routeNameOf attrs) "Red" || includes rid "Red");
      [left; reflexivity |].
    destruct (includes (routeNameOf attrs) "Orange" || includes rid "Orange");
      [right; left; reflexivity |].
    destruct (includes (routeNameOf attrs) "Blue" || includes rid "Blue");
      [right; right; left; reflexivity |].
    right; right; right; left; reflexivity.
  - intros rid attrs. unfold getLineInfo. cbn [attributes id]. cbv zeta.
    fold (routeNameOf attrs).
    destruct (includes (routeNameOf attrs) "B") eqn:HB; [| reflexivity].
    destruct (includes (routeNameOf attrs) "Red" || includes rid "Red");
      [intros [H | [H | [H | []]]]; discriminate |].
    destruct (includes (routeNameOf attrs) "Orange" || includes rid "Orange");
      [intros [H | [H | [H | []]]]; discriminate |].
    destruct (includes (routeNameOf attrs) "Blue" || includes rid "Blue");
      [intros [H | [H | [H | []]]]; discriminate |].
    destruct (includes (routeNameOf attrs) "Green"); cbn [andb].
    + intros [H | [H | [H | []]]]; discriminate.
    + destruct (includes (routeNameOf attrs) "Mattapan" || includes rid "Mattapan");
        [intros [H | [H | [H | []]]]; discriminate |].
      cbn [orb]. destruct (includes rid "Green");
        intros [H | [H | [H | []]]]; discriminate.
Qed.

(** ** How the resolver fails *)

(** The resolver, stage by stage. *)
Lemma fetchNearbyStations_unfold w calcDist lat lon radius st :
  fetchNearbyStations w calcDist lat lon radius st
  = match getRoutesData w st with
    | (Returned (Some _), st0) =>
        match makeApiCall (stops_endpoint w) stopsUrl 2 st0 with
        | (Returned (Some body), st1) =>
            match data body with
            | Some stops => resolveStations w calcDist lat lon radius stops st1
            | None => (Thrown NoStationData, st1)
            end
        | (Returned None, st1) => (Thrown undefined_data, st1)
        | (Thrown e, st1) => (Thrown e, st1)
        end
    | (Returned None, st0) => (Thrown undefined_data, st0)
    | (Thrown e, st0) => (Thrown e, st0)
    end.
Proof.
  unfold fetchNearbyStations, try_catch, bind, throw. fold stopsUrl. fold undefined_data.
  destruct (getRoutesData w st) as [[[routes |] | e] st0]; try reflexivity.
  destruct (makeApiCall (stops_endpoint w) stopsUrl 2 st0) as [[[body |] | e] st1];
    try reflexivity.
  destruct (data body) as [stops |]; [| reflexivity].
  destruct (resolveStations w calcDist lat lon radius stops st1) as [[stations | e] st2];
    reflexivity.
Qed.

Lemma backoff_schedule_effects url n :
  forall attempt, Forall (call_effect url) (backoff_schedule url attempt n).
Proof.
  induction n as [| n IH]; intros attempt; cbn [backoff_schedule]; [constructor |].
  constructor; [left; reflexivity |].
  constructor; [right; eexists; reflexivity | apply IH].
Qed.

(** A call with two tries, by its outcome: what it did, and the request
    that decided. *)
Lemma two_tries_outcome {A : Type} (endpoint : nat -> FetchOutcome A) url st :
  (requests st < requests (snd (makeApiCall endpoint url 2 st)) <= requests st + 2)%nat /\
  (exists events,
     trace (snd (makeApiCall endpoint url 2 st)) = (trace st ++ events)%list /\
     Forall (call_effect url) events) /\
  match fst (makeApiCall endpoint url 2 st) with
  | Returned (Some body) =>
      (exists status,
         endpoint (requests (snd (makeApiCall endpoint url 2 st)) - 1)%nat
         = Response status (Some body) /\ ok status = true) /\
      exists before,
        trace (snd (makeApiCall endpoint url 2 st)) = (before ++ [Fetched url])%list
  | Returned None =>
      (exists json,
         endpoint (requests (snd (makeApiCall endpoint url 2 st)) - 1)%nat
         = Response 429 json) /\
      exists before,
        trace (snd (makeApiCall endpoint url 2 st))
        = (before ++ [Fetched url; Delayed 4000])%list
  | Thrown e =>
      hard_failure (endpoint (requests (snd (makeApiCall endpoint url 2 st)) - 1)%nat)
      = Some e /\
      exists before,
        trace (snd (makeApiCall endpoint url 2 st)) = (before ++ [Fetched url])%list
  end.
Proof.
  pose proof (loop_run endpoint url 2 2 1 st eq_refl) as Hrun.
  fold (makeApiCall endpoint url 2) in Hrun.
  destruct (makeApiCall endpoint url 2 st) as [[[body |] | e] st1];
    cbn [fst snd] in *; destruct Hrun as [_ [_ Hr]].
  - destruct Hr as [j [status [Hj [Hrq [Htr [_ [Hend Hok]]]]]]].
    split; [lia |]. split; [| split].
    + eexists. split; [exact Htr |]. apply Forall_app. split.
      * apply backoff_schedule_effects.
      * constructor; [left; reflexivity | constructor].
    + exists status. split; [| exact Hok].
      replace (requests st1 - 1)%nat with (requests st + j)%nat by lia. exact Hend.
    + exists (trace st ++ backoff_schedule url 1 j)%list. rewrite Htr, app_assoc. reflexivity.
  - destruct Hr as [Hrq [Htr [_ Hlast]]].
    split; [lia |]. split; [| split].
    + eexists. split; [exact Htr |]. apply backoff_schedule_effects.
    + destruct Hlast as [Hz | [json Hjson]]; [discriminate |].
      exists json. replace (requests st1 - 1)%nat with (requests st + 2 - 1)%nat by lia.
      exact Hjson.
    + exists (trace st ++ [Fetched url; Delayed 2000])%list.
      rewrite Htr, <- app_assoc. reflexivity.
  - destruct Hr as [j [Hj [Hrq [Htr [_ Hfail]]]]].
    split; [lia |]. split; [| split].
    + eexists. split; [exact Htr |]. apply Forall_app. split.
      * apply backoff_schedule_effects.
      * constructor; [left; reflexivity | constructor].
    + replace (requests st1 - 1)%nat with (requests st + j)%nat by lia. exact Hfail.
    + exists (trace st ++ backoff_schedule url 1 j)%list. rewrite Htr, app_assoc. reflexivity.
Qed.

(** No request for the route detail of a stop is a request for one of the
    two lists. *)
Lemma list_effect_no_detail event stopId :
  list_effect event -> event <> Fetched (stopRoutesUrl stopId).
Proof.
  intros [[-> | [ms ->]] | [-> | [ms ->]]] H; discriminate H.
Qed.

Lemma list_effects_no_detail events stopId :
  Forall list_effect events -> ~ In (Fetched (stopRoutesUrl stopId)) events.
Proof.
  intros Hall Hin. rewrite Forall_forall in Hall.
  apply (list_effect_no_detail _ stopId (Hall _ Hin)). reflexivity.
Qed.

(** X17. [fetchNearbyStations] fails only before it asks for any route
    detail: it has then issued between one and four requests, all of them
    for the list of routes or the list of stops, and it fails in one of
    four ways, each decided by its last request: with the failure of a
    request for the routes, with the failure of a request for the stops,
    with a TypeError on [undefined] after an answer 429 to one of these
    and the wait of 4 s that follows it, or with "No station data
    received" after a 2xx answer for the stops whose body has no
    [data]. *)
Theorem fetchNearbyStations_failures :
  forall (w : World) (calcDist : Q -> Q -> Q -> Q -> number) (lat lon : Q)
         (radius : number) (st st' : State) (e : Error),
    fetchNearbyStations w calcDist lat lon radius st = (Thrown e, st') ->
    (requests st < requests st' <= requests st + 4)%nat /\
    (exists events,
       trace st' = (trace st ++ events)%list /\
       Forall list_effect events /\
       forall stopId, ~ In (Fetched (stopRoutesUrl stopId)) events) /\
    ((hard_failure (routes_endpoint w (requests st' - 1)%nat) = Some e /\
      exists before, trace st' = (before ++ [Fetched routesUrl])%list) \/
     (hard_failure (stops_endpoint w (requests st' - 1)%nat) = Some e /\
      exists before, trace st' = (before ++ [Fetched stopsUrl])%list) \/
     (e = undefined_data /\
      (((exists json, routes_endpoint w (requests st' - 1)%nat = Response 429 json) /\
        exists before, trace st' = (before ++ [Fetched routesUrl; Delayed 4000])%list) \/
       ((exists json, stops_endpoint w (requests st' - 1)%nat = Response 429 json) /\
        exists before, trace st' = (before ++ [Fetched stopsUrl; Delayed 4000])%list))) \/
     (e = NoStationData /\
      (exists status,
         stops_endpoint w (requests st' - 1)%nat = Response status (Some (mkBody None)) /\
         ok status = true) /\
      exists before, trace st' = (before ++ [Fetched stopsUrl])%list)).
Proof.
  intros w calcDist lat lon radius st st' e.
  rewrite fetchNearbyStations_unfold, getRoutesData_unfold.
  (* the stage of the stops, begun in a state reached by requests for the routes *)
  assert (Hstage : forall st0 events0,
             (requests st <= requests st0 <= requests st + 2)%nat ->
             trace st0 = (trace st ++ events0)%list ->
             Forall list_effect events0 ->
             match makeApiCall (stops_endpoint w) stopsUrl 2 st0 with
             | (Returned (Some body), st1) =>
                 match data body with
                 | Some stops => resolveStations w calcDist lat lon radius stops st1
                 | None => (Thrown NoStationData, st1)
                 end
             | (Returned None, st1) => (Thrown undefined_data, st1)
             | (Thrown e, st1) => (Thrown e, st1)
             end = (Thrown e, st') ->
             (requests st < requests st' <= requests st + 4)%nat /\
             (exists events,
                trace st' = (trace st ++ events)%list /\
                Forall list_effect events /\
                forall stopId, ~ In (Fetched (stopRoutesUrl stopId)) events) /\
             ((hard_failure (stops_endpoint w (requests st' - 1)%nat) = Some e /\
               exists before, trace st' = (before ++ [Fetched stopsUrl])%list) \/
              (e = undefined_data /\
               (exists json, stops_endpoint w (requests st' - 1)%nat = Response 429 json) /\
               exists before,
                 trace st' = (before ++ [Fetched stopsUrl; Delayed 4000])%list) \/
              (e = NoStationData /\
               (exists status,
                  stops_endpoint w (requests st' - 1)%nat
                  = Response status (Some (mkBody None)) /\
                  ok status = true) /\
               exists before, trace st' = (before ++ [Fetched stopsUrl])%list))).
  { intros st0 events0 Hreq Htrace0 Hall0.
    destruct (two_tries_outcome (stops_endpoint w) stopsUrl st0)
      as [Hn [[events [Htr Hall]] Hout]].
    assert (Hevents : forall st1,
               st1 = snd (makeApiCall (stops_endpoint w) stopsUrl 2 st0) ->
               exists events1,
                 trace st1 = (trace st ++ events1)%list /\
                 Forall list_effect events1 /\
                 forall stopId, ~ In (Fetched (stopRoutesUrl stopId)) events1).
    { intros st1 ->. exists (events0 ++ events)%list.
      assert (Hboth : Forall list_effect (events0 ++ events)).
      { apply Forall_app. split; [exact Hall0 |].
        apply Forall_forall. intros ev Hev. rewrite Forall_forall in Hall.
        right. apply Hall. exact Hev. }
      split; [rewrite Htr, Htrace0, app_assoc; reflexivity |].
      split; [exact Hboth |]. intros stopId. apply list_effects_no_detail. exact Hboth. }
    destruct (makeApiCall (stops_endpoint w) stopsUrl 2 st0) as [[[body |] | e0] st1];
      cbn [fst snd] in *.
    - destruct body as [[stops |]]; cbn [data].
      + destruct (resolveStations_spec w calcDist lat lon radius stops st1)
          as [g [m [pre [st2 [_ [_ [Hrun _]]]]]]].
        rewrite Hrun. discriminate.
      + intros H. injection H as <- <-. split; [lia |].
        split; [apply Hevents; reflexivity |]. right. right.
        destruct Hout as [Hlast Hend]. split; [reflexivity |]. split; assumption.
    - intros H. injection H as <- <-. split; [lia |].
      split; [apply Hevents; reflexivity |]. right. left.
      destruct Hout as [Hlast Hend]. split; [reflexivity |]. split; assumption.
    - intros H. injection H as <- <-. split; [lia |].
      split; [apply Hevents; reflexivity |]. left. exact Hout. }
  assert (Hlift : forall st0 events0,
             (requests st <= requests st0 <= requests st + 2)%nat ->
             trace st0 = (trace st ++ events0)%list ->
             Forall list_effect events0 ->
             match makeApiCall (stops_endpoint w) stopsUrl 2 st0 with
             | (Returned (Some body), st1) =>
                 match data body with
                 | Some stops => resolveStations w calcDist lat lon radius stops st1
                 | None => (Thrown NoStationData, st1)
                 end
             | (Returned None, st1) => (Thrown undefined_data, st1)
             | (Thrown e, st1) => (Thrown e, st1)
             end = (Thrown e, st') ->
             (requests st < requests st' <= requests st + 4)%nat /\
             (exists events,
                trace st' = (trace st ++ events)%list /\
                Forall list_effect events /\
                forall stopId, ~ In (Fetched (stopRoutesUrl stopId)) events) /\
             ((hard_failure (routes_endpoint w (requests st' - 1)%nat) = Some e /\
               exists before, trace st' = (before ++ [Fetched routesUrl])%list) \/
              (hard_failure (stops_endpoint w (requests st' - 1)%nat) = Some e /\
               exists before, trace st' = (before ++ [Fetched stopsUrl])%list) \/
              (e = undefined_data /\
               (((exists json,
                    routes_endpoint w (requests st' - 1)%nat = Response 429 json) /\
                 exists before,
                   trace st' = (before ++ [Fetched routesUrl; Delayed 4000])%list) \/
                ((exists json,
                    stops_endpoint w (requests st' - 1)%nat = Response 429 json) /\
                 exists before,
                   trace st' = (before ++ [Fetched stopsUrl; Delayed 4000])%list))) \/
              (e = NoStationData /\
               (exists status,
                  stops_endpoint w (requests st' - 1)%nat
                  = Response status (Some (mkBody None)) /\
                  ok status = true) /\
               exists before, trace st' = (before ++ [Fetched stopsUrl])%list))).
  { intros st0 events0 Hreq Htrace0 Hall0 H.
    destruct (Hstage st0 events0 Hreq Htrace0 Hall0 H) as [Hn [Hev Hcases]].
    split; [exact Hn |]. split; [exact Hev |].
    destruct Hcases as [Hc | [[He Hc] | Hc]].
    - right. left. exact Hc.
    - right. right. left. split; [exact He | right; exact Hc].
    - right. right. right. exact Hc. }
  destruct (cache_fresh st) eqn:Hfresh.
  - unfold cache_fresh in Hfresh.
    destruct (routesCache st) as [cached |]; [| discriminate].
    apply (Hlift st []); [lia | rewrite app_nil_r; reflexivity | constructor].
  - destruct (two_tries_outcome (routes_endpoint w) routesUrl st)
      as [Hn [[events [Htr Hall]] Hout]].
    assert (Hroutes : Forall list_effect events).
    { apply Forall_forall. intros ev Hev. rewrite Forall_forall in Hall.
      left. apply Hall. exact Hev. }
    destruct (makeApiCall (routes_endpoint w) routesUrl 2 st) as [[[body |] | e0] st1];
      cbn [fst snd] in *.
    + apply (Hlift _ events); [cbn; lia | exact Htr | exact Hroutes].
    + intros H. injection H as <- <-. cbn [requests trace with_routesCache].
      split; [lia |].
      split; [exists events; split; [exact Htr |]; split;
              [exact Hroutes | intros stopId; apply list_effects_no_detail; exact Hroutes] |].
      right. right. left. split; [reflexivity |]. left. exact Hout.
    + intros H. injection H as <- <-. split; [lia |].
      split; [exists events; split; [exact Htr |]; split;
              [exact Hroutes | intros stopId; apply list_effects_no_detail; exact Hroutes] |].
      left. exact Hout.
Qed.

Lemma fetchNearbyStations_failures_witness :
  exists st',
    fetchNearbyStations rate_limiting_world grid_distance
      query_latitude query_longitude (Num (125 # 100)) (initial_state 0)
    = (Thrown undefined_data, st') /\
    requests st' = 2%nat /\
    trace st' = [Fetched routesUrl; Delayed 2000; Fetched routesUrl; Delayed 4000] /\
    (exists events,
       trace st' = (trace (initial_state 0) ++ events)%list /\
       Forall list_effect events /\
       forall stopId, ~ In (Fetched (stopRoutesUrl stopId)) events).
Proof.
  eassert (Hrun : fetchNearbyStations rate_limiting_world grid_distance
                    query_latitude query_longitude (Num (125 # 100)) (initial_state 0)
                  = (Thrown undefined_data, _)) by (vm_compute; reflexivity).
  eexists. split; [exact Hrun |]. split; [reflexivity |]. split; [reflexivity |].
  exact (proj1 (proj2 (fetchNearbyStations_failures _ _ _ _ _ _ _ _ Hrun))).
Defined.

(** ** Station details *)

(** X18. [getStationDetails] issues one or two requests and leaves the
    route cache alone; what it returns is the [data] member of the body of
    its last request, answered with a 2xx status; it throws the failure of
    its last request, or, after a last answer 429, a TypeError on
    [undefined]. *)
Theorem getStationDetails_outcomes :
  forall (A : Type) (stop_endpoint : string -> nat -> FetchOutcome (Document A))
         (stationId : string) (st : State),
    spent 1 2 6000 st (snd (getStationDetails stop_endpoint stationId st)) /\
    match fst (getStationDetails stop_endpoint stationId st) with
    | Returned details =>
        exists status document,
          stop_endpoint stationId
            (requests (snd (getStationDetails stop_endpoint stationId st)) - 1)%nat
          = Response status (Some document) /\
          ok status = true /\
          details = document_data document
    | Thrown e =>
        hard_failure
          (stop_endpoint stationId
             (requests (snd (getStationDetails stop_endpoint stationId st)) - 1)%nat)
        = Some e \/
        (e = undefined_data /\
         exists json,
           stop_endpoint stationId
             (requests (snd (getStationDetails stop_endpoint stationId st)) - 1)%nat
           = Response 429 json)
    end.
Proof.
  intros A stop_endpoint stationId st.
  pose proof (makeApiCall_two_tries (stop_endpoint stationId) (stationUrl stationId) st)
    as Hcost.
  pose proof (loop_run (stop_endpoint stationId) (stationUrl stationId) 2 2 1 st eq_refl)
    as Hrun.
  fold (makeApiCall (stop_endpoint stationId) (stationUrl stationId) 2) in Hrun.
  unfold getStationDetails, try_catch, bind, throw, ret.
  destruct (makeApiCall (stop_endpoint stationId) (stationUrl stationId) 2 st)
    as [[[document |] | e] st1]; cbn [fst snd] in *; destruct Hrun as [_ [_ Hr]];
    (split; [exact Hcost |]).
  - destruct Hr as [j [status [Hj [Hrq [_ [_ [Hend Hok]]]]]]].
    exists status, document. split; [| split; [exact Hok | reflexivity]].
    replace (requests st1 - 1)%nat with (requests st + j)%nat by lia. exact Hend.
  - destruct Hr as [Hrq [_ [_ Hlast]]]. right. split; [reflexivity |].
    destruct Hlast as [Hz | [json Hjson]]; [discriminate |].
    exists json. replace (requests st1 - 1)%nat with (requests st + 2 - 1)%nat by lia.
    exact Hjson.
  - destruct Hr as [j [Hj [Hrq [_ [_ Hfail]]]]]. left.
    replace (requests st1 - 1)%nat with (requests st + j)%nat by lia. exact Hfail.
Qed.

(** ** The list of all routes is not used *)

Lemma same_but_routes_refl st : same_but_routes st st.
Proof. unfold same_but_routes. repeat split; auto. Qed.

Lemma same_but_routes_after_fetch url st1 st2 :
  same_but_routes st1 st2 -> same_but_routes (after_fetch url st1) (after_fetch url st2).
Proof.
  unfold same_but_routes, after_fetch. cbn. intros [H1 [H2 [H3 [H4 H5]]]].
  rewrite H2, H3, H4, H5. repeat split; apply H1.
Qed.

Lemma same_but_routes_after_delay ms st1 st2 :
  same_but_routes st1 st2 -> same_but_routes (after_delay ms st1) (after_delay ms st2).
Proof.
  unfold same_but_routes, after_delay. cbn. intros [H1 [H2 [H3 [H4 H5]]]].
  rewrite H2, H3, H4, H5. repeat split; apply H1.
Qed.

Lemma outcome_rel_cases {A : Type} (R : A -> A -> Prop) (o1 o2 : FetchOutcome A) :
  outcome_rel R o1 o2 ->
  (exists j1 j2, o1 = Response 429 j1 /\ o2 = Response 429 j2) \/
  (exists e, hard_failure o1 = Some e /\ hard_failure o2 = Some e) \/
  (exists status b1 b2,
     o1 = Response status (Some b1) /\ o2 = Response status (Some b2) /\
     ok status = true /\ R b1 b2).
Proof.
  intros Hrel. destruct (outcome_cases o1) as [[j1 ->] | [[e He] | [status [b1 [-> Hok]]]]].
  - left. destruct o2 as [m2 | s2 [b2 |]]; destruct j1 as [b1 |]; cbn in Hrel;
      try contradiction.
    + destruct Hrel as [<- _]. eexists. eexists. split; reflexivity.
    + subst s2. eexists. eexists. split; reflexivity.
  - right. left. exists e. split; [exact He |].
    destruct o1 as [m1 | s1 [b1 |]]; destruct o2 as [m2 | s2 [b2 |]]; cbn in Hrel;
      try contradiction.
    + subst m2. exact He.
    + destruct Hrel as [<- _]. unfold hard_failure in *.
      destruct (s1 =? 429)%Z; [discriminate |]. destruct (negb (ok s1)); [exact He | discriminate].
    + subst s2. exact He.
  - right. right. destruct o2 as [m2 | s2 [b2 |]]; cbn in Hrel; try contradiction.
    destruct Hrel as [<- Hb]. exists status, b1, b2. repeat split; assumption.
Qed.

Section AlikeCalls.

Context {A : Type}.
Variable R : A -> A -> Prop.
Variables endpoint1 endpoint2 : nat -> FetchOutcome A.
Variable url : string.
Variable maxRetries : nat.
Hypothesis alike : forall n, outcome_rel R (endpoint1 n) (endpoint2 n).

(** Against answers that are alike, from states that are alike, the loop
    of [makeApiCall] ends alike. *)
Lemma loop_alike remaining :
  forall attempt st1 st2,
    same_but_routes st1 st2 ->
    result_rel R
      (fst (makeApiCall_loop endpoint1 url maxRetries remaining attempt st1))
      (fst (makeApiCall_loop endpoint2 url maxRetries remaining attempt st2)) /\
    same_but_routes
      (snd (makeApiCall_loop endpoint1 url maxRetries remaining attempt st1))
      (snd (makeApiCall_loop endpoint2 url maxRetries remaining attempt st2)).
Proof.
  induction remaining as [| remaining IH]; intros attempt st1 st2 Hst.
  - cbn. split; [exact I | exact Hst].
  - rewrite !loop_unfold.
    pose proof (alike (requests st1)) as Hrel.
    assert (Hreq : requests st1 = requests st2) by apply Hst.
    destruct (outcome_rel_cases R _ _ Hrel)
      as [[j1 [j2 [H1 H2]]] | [[e [H1 H2]] | [status [b1 [b2 [H1 [H2 [Hok Hb]]]]]]]].
    + rewrite Hreq in H2.
      rewrite (pass_rate_limited endpoint1 url maxRetries attempt st1 j1 H1),
              (pass_rate_limited endpoint2 url maxRetries attempt st2 j2 H2).
      apply IH. apply same_but_routes_after_delay, same_but_routes_after_fetch, Hst.
    + rewrite Hreq in H2.
      rewrite (pass_hard_failure endpoint1 url maxRetries attempt st1 e H1),
              (pass_hard_failure endpoint2 url maxRetries attempt st2 e H2).
      destruct (attempt =? maxRetries)%nat.
      * cbn. split; [reflexivity | apply same_but_routes_after_fetch, Hst].
      * apply IH. apply same_but_routes_after_delay, same_but_routes_after_fetch, Hst.
    + rewrite Hreq in H2.
      rewrite (pass_success endpoint1 url maxRetries attempt st1 status b1 H1 Hok),
              (pass_success endpoint2 url maxRetries attempt st2 status b2 H2 Hok).
      cbn. split; [exact Hb | apply same_but_routes_after_fetch, Hst].
Qed.

End AlikeCalls.

(** The same endpoint, from states that are alike: the same result. *)
Lemma makeApiCall_frame {A : Type} (endpoint1 endpoint2 : nat -> FetchOutcome A) url st1 st2 :
  (forall n, endpoint1 n = endpoint2 n) ->
  same_but_routes st1 st2 ->
  fst (makeApiCall endpoint1 url 2 st1) = fst (makeApiCall endpoint2 url 2 st2) /\
  same_but_routes (snd (makeApiCall endpoint1 url 2 st1))
                  (snd (makeApiCall endpoint2 url 2 st2)).
Proof.
  intros Hsame Hst. unfold makeApiCall.
  assert (Hrel : forall n, outcome_rel eq (endpoint1 n) (endpoint2 n)).
  { intros n. rewrite Hsame. destruct (endpoint2 n) as [m | s [b |]]; cbn; auto. }
  destruct (loop_alike eq endpoint1 endpoint2 url 2 Hrel 2 1 st1 st2 Hst) as [Hres Hst'].
  split; [| exact Hst'].
  destruct (fst (makeApiCall_loop endpoint1 url 2 2 1 st1)) as [[a1 |] | e1];
    destruct (fst (makeApiCall_loop endpoint2 url 2 2 1 st2)) as [[a2 |] | e2];
    cbn in Hres; try contradiction; subst; reflexivity.
Qed.

Section RouteListUnused.

Variables w1 w2 : World.
Variable calcDist : Q -> Q -> Q -> Q -> number.
Hypothesis alike : same_but_route_lists w1 w2.

Lemma fetchStopRoutes_alike allStopIds stopRoutesMap stopId st1 st2 :
  same_but_routes st1 st2 ->
  fst (fetchStopRoutes w1 allStopIds stopRoutesMap stopId st1)
  = fst (fetchStopRoutes w2 allStopIds stopRoutesMap stopId st2) /\
  same_but_routes (snd (fetchStopRoutes w1 allStopIds stopRoutesMap stopId st1))
                  (snd (fetchStopRoutes w2 allStopIds stopRoutesMap stopId st2)).
Proof.
  intros Hst. destruct alike as [_ [_ Hdetail]].
  assert (Hcall : forall s1 s2, same_but_routes s1 s2 ->
            fst (makeApiCall (stop_routes_endpoint w1 stopId) (stopRoutesUrl stopId) 2 s1)
            = fst (makeApiCall (stop_routes_endpoint w2 stopId) (stopRoutesUrl stopId) 2 s2) /\
            same_but_routes
              (snd (makeApiCall (stop_routes_endpoint w1 stopId) (stopRoutesUrl stopId) 2 s1))
              (snd (makeApiCall (stop_routes_endpoint w2 stopId) (stopRoutesUrl stopId) 2 s2)))
    by (intros s1 s2 Hs; apply makeApiCall_frame; [apply Hdetail | exact Hs]).
  unfold fetchStopRoutes, try_catch, bind.
  destruct (match hd_error allStopIds with
            | Some first => negb (stopId =? first)
            | None => true
            end); unfold delay, ret, throw; cbv beta iota.
  - destruct (Hcall _ _ (same_but_routes_after_delay 500 _ _ Hst)) as [Hres Hst'].
    destruct (makeApiCall (stop_routes_endpoint w1 stopId) _ 2 (after_delay 500 st1))
      as [r1 s1];
      destruct (makeApiCall (stop_routes_endpoint w2 stopId) _ 2 (after_delay 500 st2))
      as [r2 s2].
    cbn [fst snd] in Hres, Hst'. subst r2.
    destruct r1 as [[body |] | e]; [destruct (data body) | |]; cbn; split;
      reflexivity || exact Hst'.
  - destruct (Hcall _ _ Hst) as [Hres Hst'].
    destruct (makeApiCall (stop_routes_endpoint w1 stopId) _ 2 st1) as [r1 s1];
      destruct (makeApiCall (stop_routes_endpoint w2 stopId) _ 2 st2) as [r2 s2].
    cbn [fst snd] in Hres, Hst'. subst r2.
    destruct r1 as [[body |] | e]; [destruct (data body) | |]; cbn; split;
      reflexivity || exact Hst'.
Qed.

Lemma fetchAllStopRoutes_alike allStopIds todo :
  forall stopRoutesMap st1 st2,
    same_but_routes st1 st2 ->
    fst (fetchAllStopRoutes w1 allStopIds todo stopRoutesMap st1)
    = fst (fetchAllStopRoutes w2 allStopIds todo stopRoutesMap st2) /\
    same_but_routes (snd (fetchAllStopRoutes w1 allStopIds todo stopRoutesMap st1))
                    (snd (fetchAllStopRoutes w2 allStopIds todo stopRoutesMap st2)).
Proof.
  induction todo as [| stopId rest IH]; intros m st1 st2 Hst; cbn [fetchAllStopRoutes].
  - cbn. split; [reflexivity | exact Hst].
  - unfold bind.
    destruct (fetchStopRoutes_alike allStopIds m stopId st1 st2 Hst) as [Hres Hst'].
    destruct (fetchStopRoutes w1 allStopIds m stopId st1) as [r1 s1];
      destruct (fetchStopRoutes w2 allStopIds m stopId st2) as [r2 s2].
    cbn [fst snd] in Hres, Hst'. subst r2.
    destruct r1 as [m' | e]; [apply IH; exact Hst' | cbn; split; [reflexivity | exact Hst']].
Qed.

Lemma resolveStations_alike lat lon radius stops st1 st2 :
  same_but_routes st1 st2 ->
  fst (resolveStations w1 calcDist lat lon radius stops st1)
  = fst (resolveStations w2 calcDist lat lon radius stops st2) /\
  same_but_routes (snd (resolveStations w1 calcDist lat lon radius stops st1))
                  (snd (resolveStations w2 calcDist lat lon radius stops st2)).
Proof.
  intros Hst. unfold resolveStations, bind, lift, ret. cbv zeta.
  destruct (groupStops stops) as [stationGroups | e];
    [| cbn; split; [reflexivity | exact Hst]].
  set (ids := collectStopIds (slice0 3 (rankStations calcDist lat lon radius stationGroups))).
  destruct (fetchAllStopRoutes_alike ids ids JsMap.empty st1 st2 Hst) as [Hres Hst'].
  destruct (fetchAllStopRoutes w1 ids ids JsMap.empty st1) as [r1 s1];
    destruct (fetchAllStopRoutes w2 ids ids JsMap.empty st2) as [r2 s2].
  cbn [fst snd] in Hres, Hst'. subst r2.
  destruct r1 as [m | e]; [| cbn; split; [reflexivity | exact Hst']].
  destruct (buildStations m (rankStations calcDist lat lon radius stationGroups));
    cbn; split; reflexivity || exact Hst'.
Qed.

Lemma getRoutesData_alike st1 st2 :
  same_but_routes st1 st2 ->
  result_rel any_body (fst (getRoutesData w1 st1)) (fst (getRoutesData w2 st2)) /\
  same_but_routes (snd (getRoutesData w1 st1)) (snd (getRoutesData w2 st2)).
Proof.
  intros Hst. rewrite !getRoutesData_unfold.
  destruct alike as [Hroutes _].
  assert (Hfresh : cache_fresh st1 = cache_fresh st2).
  { unfold cache_fresh. destruct Hst as [Hnone [Hts [Hnow _]]]. rewrite Hts, Hnow.
    destruct (routesCache st1) as [c1 |]; destruct (routesCache st2) as [c2 |];
      try reflexivity.
    - destruct Hnone as [_ H]. discriminate (H eq_refl).
    - destruct Hnone as [H _]. discriminate (H eq_refl). }
  rewrite <- Hfresh. destruct (cache_fresh st1) eqn:E.
  - cbn [fst snd]. split; [| exact Hst].
    symmetry in Hfresh. unfold cache_fresh in E, Hfresh.
    destruct (routesCache st1); [| discriminate].
    destruct (routesCache st2); [exact I | discriminate].
  - unfold makeApiCall.
    destruct (loop_alike any_body (routes_endpoint w1) (routes_endpoint w2) routesUrl 2
                Hroutes 2 1 st1 st2 Hst) as [Hres Hst'].
    assert (Hnow : now st1 = now st2) by apply Hst.
    destruct (makeApiCall_loop (routes_endpoint w1) routesUrl 2 2 1 st1) as [r1 s1];
      destruct (makeApiCall_loop (routes_endpoint w2) routesUrl 2 2 1 st2) as [r2 s2].
    cbn [fst snd] in Hres, Hst'.
    destruct r1 as [[a1 |] | e1]; destruct r2 as [[a2 |] | e2]; cbn in Hres;
      try contradiction; cbn [fst snd]; (split; [assumption || exact I |]);
      try exact Hst';
      destruct Hst' as [_ [_ [K3 [K4 K5]]]];
      unfold same_but_routes, with_routesCache; cbn;
      rewrite Hnow, K3, K4, K5; repeat split; intros; discriminate.
Qed.

End RouteListUnused.

(** X19. The list of all routes is fetched and cached, but what
    [fetchNearbyStations] returns or throws does not depend on it: two
    servers that differ only in the route lists they answer the request for
    all routes with, from states that differ only in the route list the
    cache holds, give the same result and the same requests, waits and
    clock. *)
Theorem fetchNearbyStations_ignores_the_route_list :
  forall (w1 w2 : World) (calcDist : Q -> Q -> Q -> Q -> number) (lat lon : Q)
         (radius : number) (st1 st2 : State),
    same_but_route_lists w1 w2 ->
    same_but_routes st1 st2 ->
    fst (fetchNearbyStations w1 calcDist lat lon radius st1)
    = fst (fetchNearbyStations w2 calcDist lat lon radius st2) /\
    same_but_routes (snd (fetchNearbyStations w1 calcDist lat lon radius st1))
                    (snd (fetchNearbyStations w2 calcDist lat lon radius st2)).
Proof.
  intros w1 w2 calcDist lat lon radius st1 st2 Hw Hst.
  rewrite !fetchNearbyStations_unfold.
  destruct (getRoutesData_alike w1 w2 Hw st1 st2 Hst) as [Hres Hst0].
  destruct (getRoutesData w1 st1) as [r1 s1]; destruct (getRoutesData w2 st2) as [r2 s2].
  cbn [fst snd] in Hres, Hst0.
  destruct r1 as [[a1 |] | e1]; destruct r2 as [[a2 |] | e2]; cbn in Hres;
    try contradiction; try (subst; cbn; split; [reflexivity | exact Hst0]).
  pose proof Hw as [_ [Hstops Hdetail]].
  destruct (makeApiCall_frame (stops_endpoint w1) (stops_endpoint w2) stopsUrl s1 s2
              Hstops Hst0) as [Hres1 Hst1].
  destruct (makeApiCall (stops_endpoint w1) stopsUrl 2 s1) as [r1 t1];
    destruct (makeApiCall (stops_endpoint w2) stopsUrl 2 s2) as [r2 t2].
  cbn [fst snd] in Hres1, Hst1. subst r2.
  destruct r1 as [[body |] | e]; try (cbn; split; [reflexivity | exact Hst1]).
  destruct (data body) as [stops |]; [| cbn; split; [reflexivity | exact Hst1]].
  apply resolveStations_alike; [exact Hw | exact Hst1].
Qed.

Lemma fetchNearbyStations_ignores_the_route_list_witness :
  same_but_route_lists downtown_world downtown_world_without_routes /\
  same_but_routes (initial_state 0) (initial_state 0) /\
  fst (fetchNearbyStations downtown_world grid_distance
         query_latitude query_longitude (Num (125 # 100)) (initial_state 0))
  = fst (fetchNearbyStations downtown_world_without_routes grid_distance
           query_latitude query_longitude (Num (125 # 100)) (initial_state 0)) /\
  same_but_routes
    (snd (fetchNearbyStations downtown_world grid_distance
            query_latitude query_longitude (Num (125 # 100)) (initial_state 0)))
    (snd (fetchNearbyStations downtown_world_without_routes grid_distance
            query_latitude query_longitude (Num (125 # 100)) (initial_state 0))).
Proof.
  assert (Hw : same_but_route_lists downtown_world downtown_world_without_routes).
  { split; [intros n; cbn; split; [reflexivity | exact I] |].
    split; [intros n | intros stopId n]; reflexivity. }
  split; [exact Hw |]. split; [apply same_but_routes_refl |].
  exact (fetchNearbyStations_ignores_the_route_list downtown_world
           downtown_world_without_routes grid_distance query_latitude query_longitude
           (Num (125 # 100)) (initial_state 0) (initial_state 0) Hw
           (same_but_routes_refl (initial_state 0))).
Defined.

(** ** What a station key says *)

Lemma append_assoc_string (a b c : string) : ((a ++ b) ++ c = a ++ (b ++ c))%string.
Proof. induction a as [| x a IH]; cbn; [reflexivity | rewrite IH; reflexivity]. Qed.

Lemma lacks_append c a b : lacks c (a ++ b) <-> lacks c a /\ lacks c b.
Proof.
  induction a as [| x a IH]; cbn.
  - tauto.
  - rewrite IH. tauto.
Qed.

(** Cutting at the first occurrence of a character. *)
Lemma cut_at_first c a b x y :
  lacks c a -> lacks c b ->
  (a ++ String c x = b ++ String c y)%string -> a = b /\ x = y.
Proof.
  revert b. induction a as [| d a IH]; intros [| d' b] Ha Hb H; cbn in *.
  - injection H as ->. split; reflexivity.
  - injection H as <- _. destruct Hb as [Hb _]. contradiction.
  - injection H as -> _. destruct Ha as [Ha _]. contradiction.
  - injection H as <- H. destruct Ha as [_ Ha], Hb as [_ Hb].
    destruct (IH b Ha Hb H) as [-> ->]. split; reflexivity.
Qed.

(** Cutting at the last occurrence of a character. *)
Lemma cut_at_last c a b x y :
  lacks c a -> lacks c b ->
  (x ++ String c a = y ++ String c b)%string -> x = y /\ a = b.
Proof.
  revert y. induction x as [| d x IH]; intros [| d' y] Ha Hb H; cbn in *.
  - injection H as ->. split; reflexivity.
  - injection H as <- H. exfalso. rewrite H in Ha.
    apply lacks_append in Ha. destruct Ha as [_ [Ha _]]. apply Ha. reflexivity.
  - injection H as -> H. exfalso. rewrite <- H in Hb.
    apply lacks_append in Hb. destruct Hb as [_ [Hb _]]. apply Hb. reflexivity.
  - injection H as <- H. destruct (IH y Ha Hb H) as [-> ->]. split; reflexivity.
Qed.

(** A printed number holds digits only. *)
Lemma lacks_string_of_uint c d :
  uint_of_char c (Some Decimal.Nil) = None ->
  lacks c (NilEmpty.string_of_uint d).
Proof.
  intros Hc. induction d; cbn; try exact I;
    (split; [intros <-; discriminate Hc | assumption]).
Qed.

Lemma lacks_string_of_N c n :
  uint_of_char c (Some Decimal.Nil) = None -> lacks c (string_of_N n).
Proof.
  intros Hc. unfold string_of_N, NilZero.string_of_uint.
  destruct (N.to_uint n) eqn:E; try (rewrite <- E; apply lacks_string_of_uint; exact Hc).
  cbn. split; [intros <-; discriminate Hc | exact I].
Qed.

Lemma lacks_zeros c k : c <> "0"%char -> lacks c (zeros k).
Proof.
  intros Hc. induction k as [| k IH]; cbn; [exact I |].
  split; [intros H; apply Hc; symmetry; exact H | exact IH].
Qed.

Lemma digits_value_string_of_N n : digits_value (string_of_N n) = Some n.
Proof.
  unfold digits_value, string_of_N, NilZero.string_of_uint.
  pose proof (DecimalN.Unsigned.of_to n) as Hn.
  destruct (N.to_uint n) eqn:E; try (rewrite NilEmpty.usu; cbn [option_map]; f_equal; exact Hn).
  cbn in *. f_equal. exact Hn.
Qed.

Lemma digits_value_zeros k s : digits_value (zeros k ++ s) = digits_value s.
Proof.
  unfold digits_value. induction k as [| k IH]; cbn [zeros append]; [reflexivity |].
  cbn [NilEmpty.uint_of_string]. 
  destruct (NilEmpty.uint_of_string (zeros k ++ s)) as [d |] eqn:E;
    destruct (NilEmpty.uint_of_string s) as [d' |] eqn:E'; cbn in *;
    try discriminate; try reflexivity.
  exact IH.
Qed.

Lemma string_of_N_inj n m : string_of_N n = string_of_N m -> n = m.
Proof.
  intros H. apply (f_equal digits_value) in H.
  rewrite !digits_value_string_of_N in H. injection H as ->. reflexivity.
Qed.

Lemma string_of_N_starts_with_digit n :
  exists c rest, string_of_N n = String c rest /\ c <> "-"%char.
Proof.
  assert (Hl : lacks "-" (string_of_N n)) by (apply lacks_string_of_N; reflexivity).
  assert (Hv : digits_value (string_of_N n) = Some n) by apply digits_value_string_of_N.
  destruct (string_of_N n) as [| c rest] eqn:E.
  - unfold string_of_N, NilZero.string_of_uint in E.
    destruct (N.to_uint n); cbn in E; discriminate.
  - exists c, rest. split; [reflexivity | apply Hl].
Qed.

Lemma toFixed_integer_nonneg digits x : (0 <= toFixed_integer digits x)%Z.
Proof.
  unfold toFixed_integer. apply Z.div_pos; [| lia].
  assert (0 <= 10 ^ Z.of_nat digits)%Z by (apply Z.pow_nonneg; lia). nia.
Qed.

Lemma toFixed_6_shape x :
  toFixed 6 x
  = ((if (Qnum x <? 0)%Z then "-" else EmptyString) ++
     string_of_N (Z.to_N (toFixed_integer 6 x / 10 ^ Z.of_nat 6)) ++ "." ++
     pad_zeros 6 (string_of_N (Z.to_N (toFixed_integer 6 x mod 10 ^ Z.of_nat 6))))%string.
Proof. reflexivity. Qed.

Lemma lacks_toFixed_6 x : lacks "_" (toFixed 6 x).
Proof.
  rewrite toFixed_6_shape.
  apply (proj2 (lacks_append _ _ _)). split.
  - destruct (Qnum x <? 0)%Z; cbn; [split; [discriminate | exact I] | exact I].
  - apply (proj2 (lacks_append _ _ _)). split.
    + apply lacks_string_of_N. reflexivity.
    + cbn [append]. split; [discriminate |].
      unfold pad_zeros. apply (proj2 (lacks_append _ _ _)). split.
      * apply lacks_zeros. discriminate.
      * apply lacks_string_of_N. reflexivity.
Qed.

(** Two numbers that [toFixed(6)] prints alike have the same sign and
    round to the same millionth. *)
Lemma toFixed_6_inj x y :
  toFixed 6 x = toFixed 6 y ->
  (Qnum x <? 0)%Z = (Qnum y <? 0)%Z /\ toFixed_integer 6 x = toFixed_integer 6 y.
Proof.
  rewrite !toFixed_6_shape.
  pose proof (toFixed_integer_nonneg 6 x) as Hx.
  pose proof (toFixed_integer_nonneg 6 y) as Hy.
  set (nx := toFixed_integer 6 x) in *. set (ny := toFixed_integer 6 y) in *.
  set (scale := (10 ^ Z.of_nat 6)%Z).
  assert (Hscale : (0 < scale)%Z) by (subst scale; cbn; lia).
  assert (Hbody : forall a b : Z, (0 <= a)%Z -> (0 <= b)%Z ->
            (string_of_N (Z.to_N (a / scale)) ++ "." ++
             pad_zeros 6 (string_of_N (Z.to_N (a mod scale)))
             = string_of_N (Z.to_N (b / scale)) ++ "." ++
               pad_zeros 6 (string_of_N (Z.to_N (b mod scale))))%string -> a = b).
  { intros a b Ha Hb H.
    apply cut_at_first in H; try (apply lacks_string_of_N; reflexivity).
    destruct H as [Hint Hfrac]. apply string_of_N_inj in Hint.
    apply (f_equal digits_value) in Hfrac. unfold pad_zeros in Hfrac.
    rewrite !digits_value_zeros, !digits_value_string_of_N in Hfrac.
    injection Hfrac as Hfrac.
    apply Z2N.inj in Hint; [| apply Z.div_pos; lia | apply Z.div_pos; lia].
    apply Z2N.inj in Hfrac; [| apply Z.mod_pos_bound; lia | apply Z.mod_pos_bound; lia].
    rewrite (Z.div_mod a scale), (Z.div_mod b scale) by lia. rewrite Hint, Hfrac.
    reflexivity. }
  destruct (Qnum x <? 0)%Z; destruct (Qnum y <? 0)%Z; cbn [append]; intros H.
  - injection H as H. split; [reflexivity | apply Hbody; assumption].
  - exfalso. destruct (string_of_N_starts_with_digit (Z.to_N (ny / scale)))
      as [c [rest [E Hc]]].
    rewrite E in H. cbn in H. injection H as H _. apply Hc. symmetry. exact H.
  - exfalso. destruct (string_of_N_starts_with_digit (Z.to_N (nx / scale)))
      as [c [rest [E Hc]]].
    rewrite E in H. cbn in H. injection H as H _. apply Hc. exact H.
  - split; [reflexivity | apply Hbody; assumption].
Qed.

(** Two numbers of the same sign that round to the same millionth are
    less than a millionth apart. *)
Lemma toFixed_integer_close x y :
  (Qnum x <? 0)%Z = (Qnum y <? 0)%Z ->
  toFixed_integer 6 x = toFixed_integer 6 y ->
  Qabs (x - y) < 1 # 1000000.
Proof.
  intros Hsign Hround. apply Qabs_diff_Qlt_condition.
  destruct x as [p1 q1], y as [p2 q2]. unfold toFixed_integer in Hround.
  cbn [Qnum Qden] in Hsign, Hround.
  change (10 ^ Z.of_nat 6)%Z with 1000000%Z in Hround.
  pose proof (Z.mul_div_le (2 * Z.abs p1 * 1000000 + Z.pos q1) (2 * Z.pos q1) ltac:(lia)) as L1.
  pose proof (Z.mul_succ_div_gt (2 * Z.abs p1 * 1000000 + Z.pos q1) (2 * Z.pos q1) ltac:(lia)) as U1.
  pose proof (Z.mul_div_le (2 * Z.abs p2 * 1000000 + Z.pos q2) (2 * Z.pos q2) ltac:(lia)) as L2.
  pose proof (Z.mul_succ_div_gt (2 * Z.abs p2 * 1000000 + Z.pos q2) (2 * Z.pos q2) ltac:(lia)) as U2.
  rewrite <- Hround in L2, U2.
  set (n := ((2 * Z.abs p1 * 1000000 + Z.pos q1) / (2 * Z.pos q1))%Z) in *.
  unfold Qlt, Qminus, Qplus, Qopp. cbn [Qnum Qden].
  rewrite !Pos2Z.inj_mul.
  assert (Hq1 : (0 < Z.pos q1)%Z) by lia. assert (Hq2 : (0 < Z.pos q2)%Z) by lia.
  generalize dependent (Z.pos q1). generalize dependent (Z.pos q2). intros d2 Hd2 d1 L1 U1 L2 U2 Hd1.
  destruct (Z.ltb_spec p1 0) as [N1 | N1]; destruct (Z.ltb_spec p2 0) as [N2 | N2];
    try discriminate.
  - rewrite (Z.abs_neq p1) in * by lia. rewrite (Z.abs_neq p2) in * by lia. split; nia.
  - rewrite (Z.abs_eq p1) in * by lia. rewrite (Z.abs_eq p2) in * by lia. split; nia.
Qed.

Lemma station_key_cut name1 lat1 lon1 name2 lat2 lon2 :
  lacks "_" lat1 -> lacks "_" lon1 -> lacks "_" lat2 -> lacks "_" lon2 ->
  (name1 ++ "_" ++ lat1 ++ "_" ++ lon1 = name2 ++ "_" ++ lat2 ++ "_" ++ lon2)%string ->
  name1 = name2 /\ lat1 = lat2 /\ lon1 = lon2.
Proof.
  intros Hlat1 Hlon1 Hlat2 Hlon2 H.
  assert (Hassoc : forall n la lo : string,
            (n ++ "_" ++ la ++ "_" ++ lo = (n ++ String "_" la) ++ String "_" lo)%string).
  { intros n la lo. rewrite append_assoc_string. reflexivity. }
  rewrite !Hassoc in H.
  apply cut_at_last in H; [| assumption | assumption]. destruct H as [H Hlon].
  apply cut_at_last in H; [| assumption | assumption]. destruct H as [Hname Hlat].
  repeat split; assumption.
Qed.

(** X20. A station key says what it is made of, whatever the name: two
    stops have the same key exactly when they have the same name and
    their latitudes and their longitudes print alike with six decimals; and
    then the coordinates are less than a millionth of a degree apart. *)
Theorem createStationKey_meaning :
  forall (stop1 stop2 : Stop) (key1 key2 : string),
    createStationKey stop1 = Returned key1 ->
    createStationKey stop2 = Returned key2 ->
    (key1 = key2 <->
     name (attributes stop1) = name (attributes stop2) /\
     attr_toFixed 6 (latitude (attributes stop1))
     = attr_toFixed 6 (latitude (attributes stop2)) /\
     attr_toFixed 6 (longitude (attributes stop1))
     = attr_toFixed 6 (longitude (attributes stop2))) /\
    (key1 = key2 ->
     Qabs (coordinate (latitude (attributes stop1))
           - coordinate (latitude (attributes stop2))) < 1 # 1000000 /\
     Qabs (coordinate (longitude (attributes stop1))
           - coordinate (longitude (attributes stop2))) < 1 # 1000000).
Proof.
  intros [id1 [name1 lat1 lon1 wb1]] [id2 [name2 lat2 lon2 wb2]] key1 key2.
  unfold createStationKey. cbn [attributes name latitude longitude].
  destruct lat1 as [| | la1]; try discriminate.
  destruct lon1 as [| | lo1]; try discriminate.
  destruct lat2 as [| | la2]; try discriminate.
  destruct lon2 as [| | lo2]; try discriminate.
  cbn [attr_toFixed coordinate]. intros H1 H2. injection H1 as <-. injection H2 as <-.
  assert (Hcut : (name1 ++ "_" ++ toFixed 6 la1 ++ "_" ++ toFixed 6 lo1
                  = name2 ++ "_" ++ toFixed 6 la2 ++ "_" ++ toFixed 6 lo2)%string ->
                 name1 = name2 /\ toFixed 6 la1 = toFixed 6 la2 /\
                 toFixed 6 lo1 = toFixed 6 lo2)
    by (apply station_key_cut; apply lacks_toFixed_6).
  split; [split |].
  - intros H. destruct (Hcut H) as [Hn [Hla Hlo]].
    rewrite Hn, Hla, Hlo. repeat split.
  - intros [Hn [Hla Hlo]]. injection Hla as Hla. injection Hlo as Hlo.
    rewrite Hn, Hla, Hlo. reflexivity.
  - intros H. destruct (Hcut H) as [_ [Hla Hlo]].
    apply toFixed_6_inj in Hla. apply toFixed_6_inj in Hlo.
    split; apply toFixed_integer_close; tauto.
Qed.

Lemma createStationKey_meaning_witness :
  createStationKey park_street_accessible
  = Returned "Park Street_42.355400_-71.064000" /\
  createStationKey park_street_inaccessible
  = Returned "Park Street_42.355400_-71.064000" /\
  Qabs (coordinate (latitude (attributes park_street_accessible))
        - coordinate (latitude (attributes park_street_inaccessible))) < 1 # 1000000 /\
  Qabs (coordinate (longitude (attributes park_street_accessible))
        - coordinate (longitude (attributes park_street_inaccessible))) < 1 # 1000000.
Proof.
  assert (H1 : createStationKey park_street_accessible
               = Returned "Park Street_42.355400_-71.064000") by (vm_compute; reflexivity).
  assert (H2 : createStationKey park_street_inaccessible
               = Returned "Park Street_42.355400_-71.064000") by (vm_compute; reflexivity).
  split; [exact H1 |]. split; [exact H2 |].
  exact (proj2 (createStationKey_meaning park_street_accessible park_street_inaccessible
                  _ _ H1 H2) eq_refl).
Defined.

(** ** The line symbols of the returned stations *)

Lemma emojiSpans_emojis routes :
  forall index, map span_emoji (emojiSpans index routes) = map RouteInfo.emoji routes.
Proof.
  induction routes as [| route rest IH]; intros index; cbn; [reflexivity |].
  rewrite IH. reflexivity.
Qed.

Lemma is_line_emoji route : is_line route -> In (RouteInfo.emoji route) line_emojis.
Proof.
  intros [key [line [Hline [Hemoji _]]]]. rewrite Hemoji.
  unfold MBTA_LINES in Hline. apply JsMap_get_In in Hline.
  unfold line_emojis. apply (in_map (fun entry => emoji (snd entry))) in Hline. exact Hline.
Qed.

(** X21. For a station of a list returned by [fetchNearbyStations], the
    map never shows the note "Route info not available (beyond closest 3
    stations)": it shows "No line info available" exactly when the station
    has no routes, and otherwise a row with one symbol per route of the
    station, in order, each a symbol of the table of lines. *)
Theorem LineEmojis_of_returned_stations :
  forall (w : World) (calcDist : Q -> Q -> Q -> Q -> number) (lat lon : Q)
         (radius : number) (st st' : State) (stations : list Station.t),
    fetchNearbyStations w calcDist lat lon radius st = (Returned stations, st') ->
    forall station,
      In station stations ->
      LineEmojis (Some (Station.routes station)) (Station.hasRouteData station)
      <> RouteInfoNotAvailable /\
      (LineEmojis (Some (Station.routes station)) (Station.hasRouteData station)
       = NoLineInfoAvailable <-> Station.routes station = []) /\
      (forall spans,
         LineEmojis (Some (Station.routes station)) (Station.hasRouteData station)
         = EmojiRow spans ->
         map span_emoji spans = map RouteInfo.emoji (Station.routes station) /\
         Forall (fun span => In (span_emoji span) line_emojis) spans).
Proof.
  intros w calcDist lat lon radius st st' stations Hrun station Hin.
  pose proof Hrun as Hres.
  apply fetchNearbyStations_returned in Hres. destruct Hres as [stops [st1 Hres]].
  (* every returned station has route data *)
  assert (Hflag : Station.hasRouteData station = true).
  { destruct (resolveStations_spec w calcDist lat lon radius stops st1)
      as [g [m [pre [st2 [_ [_ [Hspec [_ Hflags]]]]]]]].
    rewrite Hspec in Hres. injection Hres as <- _.
    pose proof (flags_mergeStations pre Hflags) as Hall.
    rewrite Forall_forall in Hall. apply Hall. exact Hin. }
  (* and its routes are lines of the table *)
  assert (Hlines : Forall is_line (Station.routes station)).
  { apply resolveStations_inv in Hres.
    destruct Hres as [g [m [pre [_ [Hloop [Hbuild ->]]]]]].
    assert (Hm : forall routes, In routes (JsMap.values m) -> Forall is_line routes).
    { apply (fetchAllStopRoutes_lines _ _ _ _ _ _ _ Hloop). intros routes []. }
    pose proof (mergeStations_lines pre (buildStations_lines _ _ _ Hbuild Hm)) as Hall.
    rewrite Forall_forall in Hall. apply (Hall station Hin). }
  unfold LineEmojis. rewrite Hflag. cbn [negb].
  destruct (Station.routes station) as [| route rest] eqn:Hroutes.
  - split; [discriminate |]. split; [split; reflexivity |]. discriminate.
  - split; [discriminate |]. split; [split; discriminate |].
    intros spans H. injection H as <-.
    pose proof (emojiSpans_emojis (route :: rest) 0) as Hemojis.
    split; [exact Hemojis |].
    apply Forall_forall. intros span Hspan.
    apply (in_map span_emoji) in Hspan.
    change (In (span_emoji span) (map span_emoji (emojiSpans 0 (route :: rest)))) in Hspan.
    rewrite Hemojis in Hspan.
    apply in_map_iff in Hspan. destruct Hspan as [r [<- Hr]].
    apply is_line_emoji. rewrite Forall_forall in Hlines. apply Hlines. exact Hr.
Qed.

Lemma LineEmojis_of_returned_stations_witness :
  exists stations st',
    fetchNearbyStations downtown_world grid_distance
      query_latitude query_longitude (Num (125 # 100)) (initial_state 0)
    = (Returned stations, st') /\
    map (fun station =>
           LineEmojis (Some (Station.routes station)) (Station.hasRouteData station))
        stations
    = [ EmojiRow [ mkEmojiSpan (inl "Red") (Some "Red Line") "🔴";
                   mkEmojiSpan (inl "Green-B") (Some "Green Line B") "B🟢";
                   mkEmojiSpan (inl "Green-C") (Some "Green Line C") "C🟢";
                   mkEmojiSpan (inl "Green-D") (Some "Green Line D") "D🟢";
                   mkEmojiSpan (inl "Green-E") (Some "Green Line E") "E🟢" ];
        EmojiRow [ mkEmojiSpan (inl "Red") (Some "Red Line") "🔴";
                   mkEmojiSpan (inl "Green-B") (Some "Green Line B") "B🟢";
                   mkEmojiSpan (inl "Green-C") (Some "Green Line C") "C🟢";
                   mkEmojiSpan (inl "Green-D") (Some "Green Line D") "D🟢";
                   mkEmojiSpan (inl "Green-E") (Some "Green Line E") "E🟢" ];
        EmojiRow [ mkEmojiSpan (inl "Red") (Some "Red Line") "🔴";
                   mkEmojiSpan (inl "Green-B") (Some "Green Line B") "B🟢";
                   mkEmojiSpan (inl "Green-C") (Some "Green Line C") "C🟢";
                   mkEmojiSpan (inl "Green-D") (Some "Green Line D") "D🟢";
                   mkEmojiSpan (inl "Green-E") (Some "Green Line E") "E🟢" ] ] /\
    forall station,
      In station stations ->
      LineEmojis (Some (Station.routes station)) (Station.hasRouteData station)
      <> RouteInfoNotAvailable.
Proof.
  eassert (Hrun : fetchNearbyStations downtown_world grid_distance
                    query_latitude query_longitude (Num (125 # 100)) (initial_state 0)
                  = (Returned _, _)) by (vm_compute; reflexivity).
  eexists. eexists. split; [exact Hrun |]. split; [vm_compute; reflexivity |].
  intros station Hin.
  exact (proj1 (LineEmojis_of_returned_stations _ _ _ _ _ _ _ _ Hrun station Hin)).
Defined.

(** ** Locating the user when the map is mounted *)

Lemma locate_snoc events event :
  locate (events ++ [event]) = geoStep (locate events) event.
Proof. unfold locate. rewrite fold_left_app. reflexivity. Qed.

(** Once the location is set, no event writes a state variable, and the
    location stays set. *)
Lemma geoStep_decided m event :
  isLocationSet m = true ->
  isLocationSet (geoStep m event) = true /\ shown (geoStep m event) = shown m.
Proof.
  destruct m as [set timer seen view]. cbn [isLocationSet]. intros ->.
  destruct event as [latitude longitude | code | |]; cbn; try (split; reflexivity).
  unfold timeoutCallback. cbn. destruct timer; split; reflexivity.
Qed.

Lemma fold_geoStep_decided events :
  forall m,
    isLocationSet m = true ->
    isLocationSet (fold_left geoStep events m) = true /\
    shown (fold_left geoStep events m) = shown m.
Proof.
  induction events as [| event rest IH]; intros m Hset; cbn [fold_left].
  - split; [exact Hset | reflexivity].
  - destruct (geoStep_decided m event Hset) as [Hset' Hshown].
    destruct (IH _ Hset') as [H1 H2]. split; [exact H1 | rewrite H2; exact Hshown].
Qed.

(** What holds after any events. *)
Lemma locate_invariant events :
  loading_seen (locate events) = true /\
  (isLocationSet (locate events) = false -> shown (locate events) = first_render) /\
  (isLocationSet (locate events) = true ->
   geolocationTimeout (locate events) = false /\
   MapState.loading (shown (locate events)) = false /\
   MapState.userLocation (shown (locate events))
   = MapState.position (shown (locate events)) /\
   ((exists latitude longitude,
       In (Success latitude longitude) events /\
       MapState.position (shown (locate events)) = Some (latitude, longitude) /\
       MapState.error (shown (locate events)) = None) \/
    (MapState.position (shown (locate events)) = Some fallbackPos /\
     exists message, MapState.error (shown (locate events)) = Some message))).
Proof.
  induction events as [| event events IH] using rev_ind.
  - cbn. split; [reflexivity |]. split; [reflexivity | discriminate].
  - rewrite locate_snoc. destruct IH as [Hseen [Hunset Hset]].
    destruct (locate events) as [set timer seen view].
    cbn [isLocationSet geolocationTimeout loading_seen shown] in *.
    subst seen. destruct set.
    + destruct (Hset eq_refl) as [H1 [H2 [H3 H4]]]. subst timer.
      assert (H4' : (exists latitude longitude,
                       In (Success latitude longitude) (events ++ [event]) /\
                       MapState.position view = Some (latitude, longitude) /\
                       MapState.error view = None) \/
                    (MapState.position view = Some fallbackPos /\
                     exists message, MapState.error view = Some message)).
      { destruct H4 as [[latitude [longitude [Hin Hrest]]] | H4]; [left | right; exact H4].
        exists latitude, longitude. split; [apply in_or_app; left; exact Hin | exact Hrest]. }
      destruct event as [latitude longitude | code | |];
        unfold geoStep, successCallback, errorCallback, timeoutCallback, cleanup;
        cbn [isLocationSet geolocationTimeout loading_seen shown negb andb];
        (split; [reflexivity |]); (split; [discriminate |]); intros _;
        (split; [reflexivity |]); (split; [exact H2 |]); (split; [exact H3 | exact H4']).
    + specialize (Hunset eq_refl). subst view.
      destruct event as [latitude longitude | code | |];
        unfold geoStep, successCallback, errorCallback, timeoutCallback, cleanup;
        cbn [isLocationSet geolocationTimeout loading_seen shown negb andb].
      * split; [reflexivity |]. split; [discriminate |]. intros _.
        cbn. repeat split. left. exists latitude, longitude.
        split; [apply in_or_app; right; left; reflexivity |]. split; reflexivity.
      * split; [reflexivity |]. split; [discriminate |]. intros _.
        cbn. repeat split. right. split; [reflexivity |]. eexists. reflexivity.
      * destruct timer; cbn [isLocationSet geolocationTimeout loading_seen shown].
        -- split; [reflexivity |]. split; [discriminate |]. intros _.
           cbn. repeat split. right. split; [reflexivity |]. eexists. reflexivity.
        -- split; [reflexivity |]. split; [reflexivity | discriminate].
      * split; [reflexivity |]. split; [reflexivity | discriminate].
Qed.

(** X22. Locating the user on mount decides once. Until an event
    decides, the map shows the first render, still loading. The first
    success, error or pending fallback timeout sets the location, and no
    later event writes again: after it the map is no longer loading, the
    position is the user location, and it is either the coordinate the
    browser reported, with no error message, or the fallback coordinate
    (42.3601, -71.0589) with an error message; the timer is then off. *)
Theorem locating_decides_once :
  forall events : list GeoEvent,
    (isLocationSet (locate events) = false -> shown (locate events) = first_render) /\
    (isLocationSet (locate events) = true ->
     geolocationTimeout (locate events) = false /\
     MapState.loading (shown (locate events)) = false /\
     MapState.userLocation (shown (locate events))
     = MapState.position (shown (locate events)) /\
     ((exists latitude longitude,
         In (Success latitude longitude) events /\
         MapState.position (shown (locate events)) = Some (latitude, longitude) /\
         MapState.error (shown (locate events)) = None) \/
      (MapState.position (shown (locate events)) = Some fallbackPos /\
       exists message, MapState.error (shown (locate events)) = Some message))) /\
    (forall event later,
       isLocationSet (locate events) = false ->
       decides (locate events) event = true ->
       isLocationSet (locate (events ++ [event])) = true /\
       shown (locate (events ++ event :: later))
       = shown (geoStep (locate events) event)).
Proof.
  intros events. destruct (locate_invariant events) as [Hseen [Hunset Hset]].
  split; [exact Hunset |]. split; [exact Hset |].
  intros event later E Hdecides.
  assert (Hnow : isLocationSet (geoStep (locate events) event) = true).
  { destruct event as [latitude longitude | code | |]; cbn in Hdecides |- *;
      try discriminate Hdecides;
      unfold successCallback, errorCallback, timeoutCallback; rewrite ?E, ?Hseen, ?Hdecides;
      cbn; reflexivity. }
  split; [rewrite locate_snoc; exact Hnow |].
  unfold locate. rewrite fold_left_app. cbn [fold_left]. fold (locate events).
  apply fold_geoStep_decided. exact Hnow.
Qed.

(** ** The ids of the returned stations *)

Lemma NoDup_map_inj_in {X Y : Type} (f : X -> Y) (l : list X) a b :
  NoDup (map f l) -> In a l -> In b l -> f a = f b -> a = b.
Proof.
  induction l as [| x l IH]; cbn [map]; intros Hnd Ha Hb Hf; [destruct Ha |].
  inversion Hnd as [| ? ? Hnotin Hrest]; subst.
  destruct Ha as [-> | Ha]; destruct Hb as [-> | Hb].
  - reflexivity.
  - exfalso. apply Hnotin. rewrite Hf. apply in_map. exact Hb.
  - exfalso. apply Hnotin. rewrite <- Hf. apply in_map. exact Ha.
  - apply IH; assumption.
Qed.

Lemma NoDup_map_by_key {X : Type} (h : X -> string) (l : list (string * X)) :
  NoDup (map fst l) ->
  (forall k1 x1 k2 x2, In (k1, x1) l -> In (k2, x2) l -> h x1 = h x2 -> k1 = k2) ->
  NoDup (map h (map snd l)).
Proof.
  induction l as [| [k x] l IH]; cbn [map fst snd]; intros Hnd Hkey; [constructor |].
  inversion Hnd as [| ? ? Hnotin Hrest]; subst. constructor.
  - intros Hin. apply in_map_iff in Hin. destruct Hin as [x' [Hh Hin]].
    apply in_map_iff in Hin. destruct Hin as [[k' x''] [Heq Hin]]. cbn in Heq. subst x''.
    apply Hnotin.
    rewrite (Hkey k x k' x' (or_introl eq_refl) (or_intror Hin) (eq_sym Hh)).
    apply (in_map fst) in Hin. exact Hin.
  - apply IH; [exact Hrest |]. intros k1 x1 k2 x2 H1 H2.
    apply Hkey; right; assumption.
Qed.

Lemma NoDup_map_filter {X Y : Type} (f : X -> Y) (p : X -> bool) (l : list X) :
  NoDup (map f l) -> NoDup (map f (filter p l)).
Proof.
  induction l as [| x l IH]; cbn [map filter]; intros Hnd; [constructor |].
  inversion Hnd as [| ? ? Hnotin Hrest]; subst.
  destruct (p x); [| apply IH; exact Hrest]. cbn [map]. constructor; [| apply IH; exact Hrest].
  intros Hin. apply Hnotin. apply in_map_iff in Hin. destruct Hin as [y [Hy Hin]].
  apply filter_In in Hin. rewrite <- Hy. apply in_map. apply Hin.
Qed.

Lemma NoDup_map_firstn {X Y : Type} (f : X -> Y) (n : nat) (l : list X) :
  NoDup (map f l) -> NoDup (map f (firstn n l)).
Proof.
  revert n. induction l as [| x l IH]; intros [| n] Hnd; cbn [map firstn]; try constructor.
  - inversion Hnd as [| ? ? Hnotin Hrest]; subst. intros Hin. apply Hnotin.
    apply in_map_iff in Hin. destruct Hin as [y [Hy Hin]].
    rewrite <- Hy. apply in_map. apply (firstn_In_incl n l y Hin).
  - inversion Hnd; subst. apply IH. assumption.
Qed.

Lemma NoDup_map_sort_insert {X Y : Type} (f : X -> Y) (distanceOf : X -> number) x l :
  ~ In (f x) (map f l) -> NoDup (map f l) ->
  NoDup (map f (sort_insert (by_distance distanceOf) x l)).
Proof.
  induction l as [| z l IH]; cbn [sort_insert map]; intros Hx Hnd.
  - constructor; [intros [] | constructor].
  - destruct (compares_greater (by_distance distanceOf x z)); cbn [map].
    + inversion Hnd as [| ? ? Hnotin Hrest]; subst. constructor.
      * intros Hin. apply in_map_iff in Hin. destruct Hin as [y [Hy Hin]].
        apply sort_insert_In in Hin. destruct Hin as [-> | Hin].
        -- apply Hx. left. symmetry. exact Hy.
        -- apply Hnotin. rewrite <- Hy. apply in_map. exact Hin.
      * apply IH; [| exact Hrest]. intros Hin. apply Hx. right. exact Hin.
    + constructor; assumption.
Qed.

Lemma NoDup_map_sort {X Y : Type} (f : X -> Y) (distanceOf : X -> number) l :
  NoDup (map f l) -> NoDup (map f (sort (by_distance distanceOf) l)).
Proof.
  induction l as [| x l IH]; cbn [sort map]; intros Hnd; [constructor |].
  inversion Hnd as [| ? ? Hnotin Hrest]; subst.
  apply NoDup_map_sort_insert; [| apply IH; exact Hrest].
  intros Hin. apply Hnotin. apply in_map_iff in Hin. destruct Hin as [y [Hy Hin]].
  apply (proj1 (sort_In distanceOf l y)) in Hin. rewrite <- Hy. apply in_map. exact Hin.
Qed.

(** The groups take their ids from different stops. *)
Lemma groupStops_ids stops stationGroups :
  NoDup (map (fun stop : Stop => id stop) stops) ->
  groupStops stops = Returned stationGroups ->
  NoDup (map group_id (JsMap.values stationGroups)).
Proof.
  intros Hids Hrun. destruct (addStops_groups _ _ _ Hrun) as [Hget Hkeys].
  assert (Hnd : NoDup (JsMap.keys stationGroups)).
  { rewrite Hkeys. cbn.
    assert (Hall : forall ks : list string, filter (absent []) ks = ks).
    { induction ks as [| k ks IH]; cbn; [reflexivity | f_equal; exact IH]. }
    rewrite Hall. apply first_occurrences_NoDup. }
  assert (Hfirst : forall k g,
             In (k, g) stationGroups ->
             exists first, In first stops /\ has_key k first = true /\ group_id g = id first).
  { intros k g Hin. apply (JsMap_In_get _ _ _ Hnd) in Hin. rewrite Hget in Hin. cbn in Hin.
    destruct (filter (has_key k) (filter has_coordinates stops)) as [| first rest] eqn:Hf;
      [discriminate |].
    injection Hin as <-. exists first.
    assert (H : In first (filter (has_key k) (filter has_coordinates stops)))
      by (rewrite Hf; left; reflexivity).
    apply filter_In in H. destruct H as [H Hk]. apply filter_In in H.
    split; [apply H |]. split; [exact Hk | reflexivity]. }
  unfold JsMap.values. apply NoDup_map_by_key; [exact Hnd |].
  intros k1 g1 k2 g2 H1 H2 Heq.
  destruct (Hfirst k1 g1 H1) as [f1 [Hin1 [Hk1 Hid1]]].
  destruct (Hfirst k2 g2 H2) as [f2 [Hin2 [Hk2 Hid2]]].
  assert (Hsame : f1 = f2).
  { apply (NoDup_map_inj_in (fun stop : Stop => id stop) stops); try assumption.
    rewrite <- Hid1, <- Hid2. exact Heq. }
  subst f2. unfold has_key in Hk1, Hk2.
  destruct (createStationKey f1) as [k | e]; [| discriminate].
  apply String.eqb_eq in Hk1. apply String.eqb_eq in Hk2. congruence.
Qed.

Lemma rankStations_ids calcDist lat lon radius stationGroups :
  NoDup (map group_id (JsMap.values stationGroups)) ->
  NoDup (map (fun r => group_id (stationGroup r))
             (rankStations calcDist lat lon radius stationGroups)).
Proof.
  intros Hnd. unfold rankStations, slice0.
  apply NoDup_map_firstn, NoDup_map_sort, NoDup_map_filter.
  rewrite map_map. cbn [stationGroup]. exact Hnd.
Qed.

Lemma buildStations_ids stopRoutesMap ranked :
  forall pre,
    buildStations stopRoutesMap ranked = Returned pre ->
    map Station.id pre = map (fun r => group_id (stationGroup r)) ranked.
Proof.
  induction ranked as [| r rest IH]; intros pre Hrun; cbn [buildStations] in Hrun.
  - injection Hrun as <-. reflexivity.
  - destruct (buildStation stopRoutesMap r) as [station | e] eqn:Hone; [| discriminate].
    destruct (buildStations stopRoutesMap rest) as [stations | e]; [| discriminate].
    injection Hrun as <-. cbn [map]. rewrite (IH stations eq_refl). f_equal.
    unfold buildStation in Hone. cbv zeta in Hone. unfold group_id.
    destruct (StationGroup.stops (stationGroup r)) as [| first others]; [discriminate |].
    injection Hone as <-. reflexivity.
Qed.

Lemma ids_mergeInto unique station :
  map Station.id (mergeInto unique station) = map Station.id unique \/
  map Station.id (mergeInto unique station)
  = (map Station.id unique ++ [Station.id station])%list.
Proof.
  induction unique as [| e rest IH]; cbn [mergeInto].
  - right. reflexivity.
  - destruct (nameKey e =? nameKey station).
    + left. reflexivity.
    + destruct IH as [H | H]; [left | right]; cbn; rewrite H; reflexivity.
Qed.

Lemma ids_fold_mergeInto rest :
  forall unique,
    NoDup (map Station.id unique ++ map Station.id rest) ->
    NoDup (map Station.id (fold_left mergeInto rest unique)).
Proof.
  induction rest as [| s rest IH]; intros unique Hnd; cbn [fold_left map] in *.
  - rewrite app_nil_r in Hnd. exact Hnd.
  - apply IH. destruct (ids_mergeInto unique s) as [H | H]; rewrite H.
    + apply NoDup_remove_1 in Hnd. exact Hnd.
    + rewrite <- app_assoc. exact Hnd.
Qed.

(** X23. When the fetched stops have ids that are all different, so do
    the returned stations. *)
Theorem returned_station_ids_are_distinct :
  forall (w : World) (calcDist : Q -> Q -> Q -> Q -> number) (lat lon : Q)
         (radius : number) (stops : list Stop) (st : State),
    NoDup (map (fun stop : Stop => id stop) stops) ->
    exists stations st',
      resolveStations w calcDist lat lon radius stops st = (Returned stations, st') /\
      NoDup (map Station.id stations).
Proof.
  intros w calcDist lat lon radius stops st Hids.
  destruct (resolveStations_spec w calcDist lat lon radius stops st)
    as [stationGroups [stopRoutesMap [pre [st' [Hgroups [Hbuild [Hrun _]]]]]]].
  exists (mergeStations pre), st'. split; [exact Hrun |].
  unfold mergeStations. apply ids_fold_mergeInto. cbn [map app].
  rewrite (buildStations_ids _ _ _ Hbuild).
  apply rankStations_ids. apply (groupStops_ids stops); assumption.
Qed.

Lemma returned_station_ids_are_distinct_witness :
  NoDup (map (fun stop : Stop => id stop) downtown_stops) /\
  exists stations st',
    resolveStations downtown_world grid_distance query_latitude query_longitude
      (Num (125 # 100)) downtown_stops (initial_state 0) = (Returned stations, st') /\
    NoDup (map Station.id stations).
Proof.
  assert (Hids : NoDup (map (fun stop : Stop => id stop) downtown_stops)).
  { cbn. repeat (constructor; [cbn; intros H; repeat (destruct H as [H | H]; [discriminate H |]); exact H |]).
    constructor. }
  split; [exact Hids |].
  exact (returned_station_ids_are_distinct downtown_world grid_distance
           query_latitude query_longitude (Num (125 # 100)) downtown_stops
           (initial_state 0) Hids).
Defined.

(** ** The routes of a station, stop by stop *)

Lemma groupRoutes_ids stopRoutesMap stops i :
  In i (map RouteInfo.id (groupRoutes stopRoutesMap stops))
  <-> found_for stopRoutesMap stops i.
Proof.
  pose (step := fun (allRoutes : JsMap.t RouteInfo.t) (stop : Stop) =>
                  fold_left (fun m route => JsMap.set m (RouteInfo.id route) route)
                    (routesFound stopRoutesMap stop) allRoutes).
  change (groupRoutes stopRoutesMap stops)
    with (JsMap.values (fold_left step stops JsMap.empty)).
  assert (Hinv : forall allRoutes,
             well_keyed allRoutes ->
             well_keyed (fold_left step stops allRoutes) /\
             (In i (JsMap.keys (fold_left step stops allRoutes)) <->
              In i (JsMap.keys allRoutes) \/ found_for stopRoutesMap stops i)).
  { induction stops as [| stop rest IH]; intros m Hwk; cbn [fold_left].
    - split; [exact Hwk |]. split; [intros H; left; exact H |].
      intros [H | [stop [[] _]]]. exact H.
    - destruct (enter_routes false (routesFound stopRoutesMap stop) m) as [_ [H2 [H3 _]]].
      cbn [andb] in H2, H3.
      assert (Hwk1 : well_keyed (step m stop)) by exact (H2 Hwk).
      assert (H3i : In i (JsMap.keys (step m stop)) <->
                    In i (JsMap.keys m) \/
                    In i (map RouteInfo.id (routesFound stopRoutesMap stop)))
        by exact (H3 i).
      destruct (IH (step m stop) Hwk1) as [Hwk' Hkeys].
      split; [exact Hwk' |]. rewrite Hkeys, H3i. unfold found_for. split.
      + intros [[H | H] | [s [Hs Hi]]].
        * left. exact H.
        * right. exists stop. split; [left; reflexivity | exact H].
        * right. exists s. split; [right; exact Hs | exact Hi].
      + intros [H | [s [[<- | Hs] Hi]]].
        * left. left. exact H.
        * left. right. exact Hi.
        * right. exists s. split; assumption. }
  destruct (Hinv JsMap.empty) as [Hwk Hkeys]; [intros k v [] |].
  rewrite (well_keyed_ids _ Hwk), Hkeys. split.
  - intros [[] | H]. exact H.
  - intros H. right. exact H.
Qed.

(** X24. The station built from a ranked group lists exactly the route
    ids found for the stops of the group: a route id is among its routes if
    and only if the route detail of one of its stops holds a route of that
    id. *)
Theorem buildStations_routes_of_the_stops :
  forall (stopRoutesMap : JsMap.t (list RouteInfo.t)) (ranked : list Ranked)
         (pre : list Station.t),
    buildStations stopRoutesMap ranked = Returned pre ->
    Forall2
      (fun r station =>
         forall i,
           In i (routeIds station)
           <-> found_for stopRoutesMap (StationGroup.stops (stationGroup r)) i)
      ranked pre.
Proof.
  intros stopRoutesMap ranked. induction ranked as [| r rest IH]; intros pre Hrun;
    cbn [buildStations] in Hrun.
  - injection Hrun as <-. constructor.
  - destruct (buildStation stopRoutesMap r) as [station | e] eqn:Hone; [| discriminate].
    destruct (buildStations stopRoutesMap rest) as [stations | e]; [| discriminate].
    injection Hrun as <-. constructor; [| apply IH; reflexivity].
    unfold buildStation in Hone. cbv zeta in Hone.
    destruct (StationGroup.stops (stationGroup r)) as [| first others] eqn:Hstops;
      [discriminate |].
    injection Hone as <-. intros i. unfold routeIds. cbn [Station.routes].
    match goal with |- context [if ?c then _ else _] => destruct c eqn:Hany end.
    + apply groupRoutes_ids.
    + cbn [map]. split; [intros [] |]. intros [stop [Hin Hi]]. exfalso.
      assert (Hnone : JsMap.has stopRoutesMap (id stop) = false).
      { destruct (JsMap.has stopRoutesMap (id stop)) eqn:E; [| reflexivity].
        assert (Hex : existsb (fun stop : Stop => JsMap.has stopRoutesMap (id stop))
                        (first :: others) = true)
          by (apply existsb_exists; exists stop; split; assumption).
        assert (Hany' : existsb (fun stop : Stop => JsMap.has stopRoutesMap (id stop))
                          (first :: others) = false) by exact Hany.
        rewrite Hex in Hany'. discriminate. }
      unfold routesFound in Hi. unfold JsMap.has in Hnone.
      destruct (JsMap.get stopRoutesMap (id stop)); [discriminate | destruct Hi].
Qed.

Lemma buildStations_routes_of_the_stops_witness :
  exists pre,
    buildStations park_street_detail [park_street_group] = Returned pre /\
    map routeIds pre = [["Red"; "Green-B"]] /\
    Forall2
      (fun r station =>
         forall i,
           In i (routeIds station)
           <-> found_for park_street_detail (StationGroup.stops (stationGroup r)) i)
      [park_street_group] pre.
Proof.
  eassert (Hrun : buildStations park_street_detail [park_street_group] = Returned _)
    by (vm_compute; reflexivity).
  eexists. split; [exact Hrun |]. split; [vm_compute; reflexivity |].
  exact (buildStations_routes_of_the_stops _ _ _ Hrun).
Defined.

(** ** When the resolver returns *)

Lemma makeApiCall_first_try {A : Type} (endpoint : nat -> FetchOutcome A) url st status body :
  endpoint (requests st) = Response status (Some body) ->
  ok status = true ->
  makeApiCall endpoint url 2 st = (Returned (Some body), after_fetch url st).
Proof.
  intros Hend Hok. unfold makeApiCall.
  rewrite loop_unfold, (pass_success endpoint url 2 1 st status body Hend Hok). reflexivity.
Qed.

(** X25. With no fresh route list in the cache, when the next request is
    answered with a route list and the one after it with a stop list, both
    with a 2xx status, [fetchNearbyStations] returns: it has cached the
    route list under the time at which it started, and its result is the
    resolution of that stop list, begun after these two requests without
    any wait. *)
Theorem fetchNearbyStations_returns_on_good_answers :
  forall (w : World) (calcDist : Q -> Q -> Q -> Q -> number) (lat lon : Q)
         (radius : number) (st : State) (status1 status2 : Z)
         (routes : Body Route) (stops : list Stop),
    cache_fresh st = false ->
    routes_endpoint w (requests st) = Response status1 (Some routes) ->
    ok status1 = true ->
    stops_endpoint w (S (requests st)) = Response status2 (Some (mkBody (Some stops))) ->
    ok status2 = true ->
    exists stations st1 st',
      fetchNearbyStations w calcDist lat lon radius st = (Returned stations, st') /\
      resolveStations w calcDist lat lon radius stops st1 = (Returned stations, st') /\
      requests st1 = (requests st + 2)%nat /\
      now st1 = now st /\
      trace st1 = (trace st ++ [Fetched routesUrl; Fetched stopsUrl])%list /\
      routesCache st' = Some routes /\
      routesCacheTimestamp st' = now st.
Proof.
  intros w calcDist lat lon radius st status1 status2 routes stops
         Hstale Hroutes Hok1 Hstops Hok2.
  rewrite fetchNearbyStations_unfold, getRoutesData_unfold, Hstale.
  rewrite (makeApiCall_first_try (routes_endpoint w) routesUrl st status1 routes Hroutes Hok1).
  set (st0 := with_routesCache (Some routes) (now st) (after_fetch routesUrl st)).
  assert (Hstops0 : stops_endpoint w (requests st0) = Response status2 (Some (mkBody (Some stops))))
    by exact Hstops.
  rewrite (makeApiCall_first_try (stops_endpoint w) stopsUrl st0 status2 _ Hstops0 Hok2).
  cbn [data].
  set (st1 := after_fetch stopsUrl st0).
  destruct (resolveStations_spec w calcDist lat lon radius stops st1)
    as [stationGroups [stopRoutesMap [pre [st' [_ [_ [Hrun _]]]]]]].
  exists (mergeStations pre), st1, st'.
  split; [exact Hrun |]. split; [exact Hrun |].
  split; [cbn; lia |]. split; [reflexivity |].
  split; [cbn; rewrite <- app_assoc; reflexivity |].
  pose proof Hrun as Hinv. apply resolveStations_inv in Hinv.
  destruct Hinv as [g [m [pre' [_ [Hloop _]]]]].
  pose proof (fetchAllStopRoutes_cost w
                (collectStopIds (rankStations calcDist lat lon radius g))
                (collectStopIds (rankStations calcDist lat lon radius g))
                JsMap.empty st1) as Hcost.
  rewrite Hloop in Hcost. destruct Hcost as [_ [_ [Hc Ht]]].
  cbn [snd] in Hc, Ht. rewrite Hc, Ht. split; reflexivity.
Qed.

Lemma fetchNearbyStations_returns_on_good_answers_witness :
  exists stations st1 st',
    fetchNearbyStations downtown_world grid_distance query_latitude query_longitude
      (Num (125 # 100)) (initial_state 0) = (Returned stations, st') /\
    resolveStations downtown_world grid_distance query_latitude query_longitude
      (Num (125 # 100)) downtown_stops st1 = (Returned stations, st') /\
    requests st1 = (requests (initial_state 0) + 2)%nat /\
    now st1 = now (initial_state 0) /\
    trace st1 = (trace (initial_state 0) ++ [Fetched routesUrl; Fetched stopsUrl])%list /\
    routesCache st' = Some (mkBody (Some subway_routes)) /\
    routesCacheTimestamp st' = now (initial_state 0).
Proof.
  exact (fetchNearbyStations_returns_on_good_answers downtown_world grid_distance
           query_latitude query_longitude (Num (125 # 100)) (initial_state 0)
           200 200 (mkBody (Some subway_routes)) downtown_stops
           eq_refl eq_refl eq_refl eq_refl eq_refl).
Defined.
